(** * descwl.render: rendering of galaxy models as survey observations

    A shallow embedding of [descwl/render.py]: the caching [GalaxyRenderer]
    and the [Engine] whose [render_galaxy] thresholds, crops and accumulates
    a postage stamp and assembles finite-difference partial derivatives.

    Pixel values and transform parameters are Python/NumPy floats.  They are
    kept abstract here, behind the interface [Arith]; a statement that needs
    a law of the arithmetic names it as a hypothesis.  GalSim and the
    galaxy and survey models are collaborators of the module; they are the
    interface [Optics] and the records [Galaxy] and [Survey].  Images are
    mutable objects: they live in a store, and every call of a collaborator
    is recorded in a trace.

    The arithmetic is that of finite floats on the domain of each
    operation: [floor], [ceil], [sqrt] and [div] are total functions here,
    whereas Python raises ValueError on [int(math.floor(x))] and
    [int(math.ceil(x))] of a NaN and OverflowError on those of an infinity,
    ValueError on [math.sqrt] of a negative number and ZeroDivisionError on
    a division of Python floats by zero.  A call that raises one of these
    has no counterpart in the embedding; the statements below are about
    the calls that do not. *)

From Stdlib Require Import ZArith QArith Qround Bool Lia.
From stdpp Require Import base option list list_numbers strings gmap.

Local Open Scope nat_scope.
Local Open Scope list_scope.

(** ** Floating-point arithmetic, as an interface *)

Class Arith (F : Type) := {
  lit : Q -> F;                (* a float literal, e.g. [0.05] *)
  of_Z : Z -> F;               (* conversion of a Python int *)
  add : F -> F -> F;
  sub : F -> F -> F;
  mul : F -> F -> F;
  div : F -> F -> F;           (* /, by a divisor that is not zero *)
  neg : F -> F;
  sqrt : F -> F;               (* math.sqrt, np.sqrt, of a number >= 0 *)
  eqb : F -> F -> bool;        (* == *)
  ltb : F -> F -> bool;        (* <  *)
  leb : F -> F -> bool;        (* <= *)
  floor : F -> Z;              (* int(math.floor(x)), of a finite x *)
  ceil : F -> Z                (* int(math.ceil(x)), of a finite x *)
}.

Section Numbers.
Context {F : Type} {AF : Arith F}.

Definition zero : F := lit 0.
Definition one : F := lit 1.
Definition half : F := lit (1 # 2).
(* a > b is b < a *)
Definition gtb (a b : F) : bool := ltb b a.
(* a bool used as a number, as NumPy does in [array * mask] *)
Definition of_bool (b : bool) : F := if b then one else zero.
End Numbers.

(** ** galsim.BoundsI *)

Record BoundsI := {
  isDefined : bool;
  xmin : Z; xmax : Z; ymin : Z; ymax : Z
}.

(* BoundsI(x1,x2,y1,y2) *)
Definition mkBoundsI (x1 x2 y1 y2 : Z) : BoundsI :=
  {| isDefined := (x1 <=? x2)%Z && (y1 <=? y2)%Z;
     xmin := x1; xmax := x2; ymin := y1; ymax := y2 |}.

(* BoundsI() *)
Definition undefinedBounds : BoundsI :=
  {| isDefined := false; xmin := 0; xmax := 0; ymin := 0; ymax := 0 |}.

Definition area (b : BoundsI) : Z :=
  if isDefined b then ((xmax b - xmin b + 1) * (ymax b - ymin b + 1))%Z else 0%Z.

(* b1 & b2 *)
Definition bounds_and (b1 b2 : BoundsI) : BoundsI :=
  if isDefined b1 && isDefined b2 then
    let x1 := Z.max (xmin b1) (xmin b2) in
    let x2 := Z.min (xmax b1) (xmax b2) in
    let y1 := Z.max (ymin b1) (ymin b2) in
    let y2 := Z.min (ymax b1) (ymax b2) in
    if (x2 <? x1)%Z || (y2 <? y1)%Z then undefinedBounds
    else mkBoundsI x1 x2 y1 y2
  else undefinedBounds.

(* b.includes(x,y) *)
Definition includes (b : BoundsI) (x y : Z) : bool :=
  isDefined b && (xmin b <=? x)%Z && (x <=? xmax b)%Z
              && (ymin b <=? y)%Z && (y <=? ymax b)%Z.

Definition ncol (b : BoundsI) : nat := Z.to_nat (xmax b - xmin b + 1).
Definition nrow (b : BoundsI) : nat := Z.to_nat (ymax b - ymin b + 1).

(** ** NumPy arrays of rank 2: rows of columns, [a[row][col]] *)

Abbreviation array2 A := (list (list A)) (only parsing).

Section Arrays.
Context {A B C : Type}.

Definition map2d (f : A -> B) (a : array2 A) : array2 B := map (map f) a.

Definition zip2d (f : A -> B -> C) (a : array2 A) (b : array2 B) : array2 C :=
  zip_with (zip_with f) a b.

(* cell [(j,i)] is given [f j i] of its old value *)
Definition imap2d (f : nat -> nat -> A -> B) (a : array2 A) : array2 B :=
  imap (fun j row => imap (fun i v => f j i v) row) a.

Definition get2d (a : array2 A) (j i : nat) : option A :=
  a !! j ≫= fun row => row !! i.

(* a[r0:r0+h, c0:c0+w] *)
Definition window (r0 c0 h w : nat) (a : array2 A) : array2 A :=
  map (fun row => take w (drop c0 row)) (take h (drop r0 a)).

(* all rows have [w] cells and there are [h] of them *)
Definition has_shape (h w : nat) (a : array2 A) : Prop :=
  length a = h /\ Forall (fun row => length row = w) a.
End Arrays.

(* a[mask] = v *)
Definition assign_where {A} (mask : array2 bool) (v : A) (a : array2 A) : array2 A :=
  imap2d (fun j i old =>
            match get2d mask j i with Some true => v | _ => old end) a.

(* np.sum(mask) *)
Definition count_true (mask : array2 bool) : nat :=
  sum_list (map (fun row => length (filter (fun b => b = true) row)) mask).

(* a.shape[1] *)
Definition width {A} (a : array2 A) : nat :=
  match a with [] => 0 | row :: _ => length row end.

(* np.sum(mask, axis=0) > 0: one bool per column *)
Definition project_columns (mask : array2 bool) : list bool :=
  map (fun i => bool_decide
         (0 < sum_list (map (fun row => match row !! i with
                                        | Some true => 1 | _ => 0 end) mask)))
      (seq 0 (width mask)).

(* np.sum(mask, axis=1) > 0: one bool per row *)
Definition project_rows (mask : array2 bool) : list bool :=
  map (fun row => bool_decide (0 < length (filter (fun b => b = true) row))) mask.

(* np.argmax of a bool vector: the first index holding True, 0 if none *)
Fixpoint argmax (l : list bool) : nat :=
  match l with
  | [] => 0
  | true :: _ => 0
  | false :: l' => if existsb id l' then S (argmax l') else 0
  end.

(** ** The collaborators: GalSim profiles, galaxies and surveys *)

(* the transform parameters of [draw], without [df] *)
Record Params (F : Type) := {
  dx : F; dy : F; ds : F; dg1 : F; dg2 : F
}.
Arguments dx {F} _.
Arguments dy {F} _.
Arguments ds {F} _.
Arguments dg1 {F} _.
Arguments dg2 {F} _.

Class Optics (F : Type) := {
  (* galsim.GSObject *)
  Model : Type;
  getFlux : Model -> F;
  centroid : Model -> F * F;
  shift : Model -> F -> F -> Model;
  (* galsim.Convolve(models, gsparams=GSParams(maximum_fft_size=...)) *)
  Convolve : list Model -> Z -> Model;
  (* model.drawImage(image): the value written to pixel (x,y) of an image
     of the given scale and bounds *)
  drawImage_pixel : Model -> F -> BoundsI -> Z -> Z -> F
}.

(* a location of the store *)
Abbreviation loc := nat (only parsing).

(** ** Exceptions *)

Inductive exn :=
| SourceNotVisible
| TypeError        (* a call with an unknown keyword *)
| ImageError.      (* GalSim refuses an image of non-positive size *)

Inductive result (A : Type) :=
| Ok (a : A)
| Raise (e : exn).
Arguments Ok {A} _.
Arguments Raise {A} _.

(* the value returned, or [d] after an exception *)
Definition the {A} (r : result A) (d : A) : A :=
  match r with Ok a => a | Raise _ => d end.

(** ** Arguments of the command line *)

(* an attribute of the namespace of arguments: a float, a bool, or an
   object of another kind (a string, None) on which arithmetic raises
   TypeError and of which [truth] is the truth value *)
Inductive value (F : Type) :=
| Num (x : F)
| Flag (b : bool)
| Other (truth : bool).
Arguments Num {F} _.
Arguments Flag {F} _.
Arguments Other {F} _.

Section Render.
Context {F : Type} {AF : Arith F} {OF : Optics F}.

(* descwl.model.Galaxy *)
Record Galaxy := {
  model : Model;
  identifier : Z;
  redshift : F;
  get_transformed_model : Params F -> Model
}.

(** *** The store of images and the trace of collaborator calls *)



(* a galsim.Image that owns its pixels *)
Record ImageObj := {
  bounds : BoundsI;
  scale : F;
  array : array2 F
}.

(* descwl.survey.Survey *)
Record Survey := {
  pixel_scale : F;
  image_width : Z;
  image_height : Z;
  mean_sky_level : F;
  psf_model : Model;
  image : loc;
  get_image_coordinates : F -> F -> F * F
}.

Inductive Event :=
| CallGetFlux (m : Model)
| CallCentroid (m : Model)
| CallImageCoordinates (x y : F)
| CallTransform (g : Galaxy) (p : Params F)
| CallShift (m : Model) (sx sy : F)
| CallConvolve (ms : list Model) (maximum_fft_size : Z)
| CallDrawImage (m : Model) (b : BoundsI)
| PrintRendered (id : Z) (z : F)
| PrintBounds (x_min x_max y_min y_max w h : Z)
| PrintShift (x y : F).

Record World := {
  heap : list ImageObj;
  trace : list Event
}.

(* a computation changes the world and returns or raises *)
Definition M (A : Type) := World -> result A * World.

Definition ret {A} (a : A) : M A := fun w => (Ok a, w).
Definition raise {A} (e : exn) : M A := fun w => (Raise e, w).
Definition bind {A B} (m : M A) (k : A -> M B) : M B :=
  fun w => match m w with
           | (Ok a, w') => k a w'
           | (Raise e, w') => (Raise e, w')
           end.

Declare Scope render_scope.
Notation "'let*' x ':=' m 'in' k" := (bind m (fun x => k))
  (at level 10, x pattern, m at level 100, k at level 200) : render_scope.
Local Open Scope render_scope.

(* a call of a collaborator: recorded, then answered *)
Definition call {A} (e : Event) (a : A) : M A :=
  fun w => (Ok a, {| heap := heap w; trace := trace w ++ [e] |}).

(* a new image object; its location is fresh *)
Definition alloc (o : ImageObj) : M loc :=
  fun w => (Ok (length (heap w)), {| heap := heap w ++ [o]; trace := trace w |}).

Definition no_image : ImageObj :=
  {| bounds := undefinedBounds; scale := zero; array := [] |}.

(* the image object at a location; locations come from [alloc], so the
   default is never met *)
Definition image_at (h : list ImageObj) (l : loc) : ImageObj :=
  default no_image (h !! l).

Definition load (l : loc) : M ImageObj :=
  fun w => (Ok (image_at (heap w) l), w).

Definition store (l : loc) (o : ImageObj) : M unit :=
  fun w => (Ok tt, {| heap := <[l := o]> (heap w); trace := trace w |}).

(** *** galsim.Image: owned images and sub-image views *)

(* image[bounds]: a window on the pixels of [v_image], which it shares.
   Cell (0,0) of the view is cell (v_row0, v_col0) of the owner. *)
Record View := {
  v_image : loc;
  v_row0 : nat;
  v_col0 : nat;
  v_bounds : BoundsI
}.

Definition whole (l : loc) : M View :=
  let* o := load l in
  ret {| v_image := l; v_row0 := 0; v_col0 := 0; v_bounds := bounds o |}.

(* v[b], for b inside the bounds of v *)
Definition subImage (v : View) (b : BoundsI) : View :=
  {| v_image := v_image v;
     v_row0 := v_row0 v + Z.to_nat (ymin b - ymin (v_bounds v));
     v_col0 := v_col0 v + Z.to_nat (xmin b - xmin (v_bounds v));
     v_bounds := b |}.

(* the pixels that a view shows of its owner *)
Definition seen (v : View) (o : ImageObj) : array2 F :=
  window (v_row0 v) (v_col0 v) (nrow (v_bounds v)) (ncol (v_bounds v))
         (array o).

(* v.array *)
Definition view_array (v : View) : M (array2 F) :=
  let* o := load (v_image v) in ret (seen v o).

(* galsim.Image(ncol, nrow, scale=...): zero pixels, origin (1,1) *)
Definition blank (ncols nrows : Z) (sc : F) : ImageObj :=
  {| bounds := mkBoundsI 1 ncols 1 nrows; scale := sc;
     array := replicate (Z.to_nat nrows) (replicate (Z.to_nat ncols) zero) |}.

Definition new_image (ncols nrows : Z) (sc : F) : M loc :=
  if (ncols <=? 0)%Z || (nrows <=? 0)%Z then raise ImageError
  else alloc (blank ncols nrows sc).

(* image.setOrigin(x0, y0): the same pixels under shifted bounds *)
Definition moved (x0 y0 : Z) (o : ImageObj) : ImageObj :=
  let b := bounds o in
  {| bounds := {| isDefined := isDefined b;
                  xmin := x0; xmax := (x0 + (xmax b - xmin b))%Z;
                  ymin := y0; ymax := (y0 + (ymax b - ymin b))%Z |};
     scale := scale o; array := array o |}.

Definition setOrigin (l : loc) (x0 y0 : Z) : M unit :=
  let* o := load l in store l (moved x0 y0 o).

(* model.drawImage(image): every pixel is overwritten in place *)
Definition redrawn (m : Model) (o : ImageObj) : ImageObj :=
  {| bounds := bounds o; scale := scale o;
     array := imap2d (fun j i _ =>
                drawImage_pixel m (scale o) (bounds o)
                  (xmin (bounds o) + Z.of_nat i)%Z
                  (ymin (bounds o) + Z.of_nat j)%Z) (array o) |}.

Definition drawImage (m : Model) (l : loc) : M unit :=
  let* o := load l in
  let* _ := call (CallDrawImage m (bounds o)) tt in
  store l (redrawn m o).

(* image.array[mask] = 0. *)
Definition masked (mask : array2 bool) (o : ImageObj) : ImageObj :=
  {| bounds := bounds o; scale := scale o;
     array := assign_where mask zero (array o) |}.

Definition zero_where (mask : array2 bool) (l : loc) : M unit :=
  let* o := load l in store l (masked mask o).

(* v.copy(): the pixels seen, in an image of their own *)
Definition pictured (v : View) (o : ImageObj) : ImageObj :=
  {| bounds := v_bounds v; scale := scale o; array := seen v o |}.

Definition copy (v : View) : M loc :=
  let* o := load (v_image v) in alloc (pictured v o).

(* image.copy(), for an image that owns its pixels *)
Definition image_copy (l : loc) : M loc :=
  let* o := load l in alloc o.

(* c * image: a new image *)
Definition scaled (c : F) (o : ImageObj) : ImageObj :=
  {| bounds := bounds o; scale := scale o;
     array := map2d (fun v => mul c v) (array o) |}.

Definition image_mul (c : F) (l : loc) : M loc :=
  let* o := load l in alloc (scaled c o).

(* a - b: a new image *)
Definition difference (oa ob : ImageObj) : ImageObj :=
  {| bounds := bounds oa; scale := scale oa;
     array := zip2d sub (array oa) (array ob) |}.

Definition image_sub (a b : loc) : M loc :=
  let* oa := load a in
  let* ob := load b in
  alloc (difference oa ob).

(* dst += src, through two views of the same shape: the pixels of the
   owner of [dst] change in place, inside the window of [dst] only *)
Definition added (dst : View) (src : array2 F) (o : ImageObj) : ImageObj :=
  {| bounds := bounds o; scale := scale o;
     array := imap2d (fun r c v =>
       if bool_decide (v_row0 dst <= r < v_row0 dst + nrow (v_bounds dst)
                       /\ v_col0 dst <= c < v_col0 dst + ncol (v_bounds dst))
       then match get2d src (r - v_row0 dst) (c - v_col0 dst) with
            | Some s => add v s
            | None => v
            end
       else v) (array o) |}.

Definition iadd (dst src : View) : M unit :=
  let* a := view_array src in
  let* o := load (v_image dst) in
  store (v_image dst) (added dst a o).

(** ** GalaxyRenderer *)

Record GalaxyRenderer := {
  gr_galaxy : Galaxy;
  gr_stamp : loc;
  gr_mask : array2 bool;
  dx_arcsec : F;
  dy_arcsec : F;
  gr_psf_model : Model;
  gr_gsparams : Z;
  last_parameters : Params F
}.

Definition zero_parameters : Params F :=
  {| dx := zero; dy := zero; ds := zero; dg1 := zero; dg2 := zero |}.

(* 0.5*(lo + hi+1 - full)*pixel_scale *)
Definition center_offset (lo hi full : Z) (pixel_scale : F) : F :=
  mul (mul half (of_Z (lo + hi + 1 - full))) pixel_scale.

(* 1<<16 *)
Definition maximum_fft_size : Z := Z.shiftl 1 16.

(* GalaxyRenderer.__init__ *)
Definition GalaxyRenderer_init (galaxy : Galaxy) (stamp : View) (survey : Survey)
  : M GalaxyRenderer :=
  let* self_stamp := copy stamp in
  let* o := load self_stamp in
  let mask := map2d (fun v => eqb v zero) (array o) in
  let b := bounds o in
  ret {| gr_galaxy := galaxy;
         gr_stamp := self_stamp;
         gr_mask := mask;
         dx_arcsec := center_offset (xmin b) (xmax b) (image_width survey)
                                    (pixel_scale survey);
         dy_arcsec := center_offset (ymin b) (ymax b) (image_height survey)
                                    (pixel_scale survey);
         gr_psf_model := psf_model survey;
         gr_gsparams := maximum_fft_size;
         last_parameters := zero_parameters |}.

(* equality of two parameter dicts: the same five keys, values by ==.
   Python compares two values by identity before it uses ==, so that a NaN
   passed twice as one object compares equal there and not here; the two
   agree on every value that is equal to itself. *)
Definition params_eqb (p q : Params F) : bool :=
  eqb (dx p) (dx q) && eqb (dy p) (dy q) && eqb (ds p) (ds q)
  && eqb (dg1 p) (dg1 q) && eqb (dg2 p) (dg2 q).

Definition set_last_parameters (self : GalaxyRenderer) (p : Params F)
  : GalaxyRenderer :=
  {| gr_galaxy := gr_galaxy self; gr_stamp := gr_stamp self;
     gr_mask := gr_mask self;
     dx_arcsec := dx_arcsec self; dy_arcsec := dy_arcsec self;
     gr_psf_model := gr_psf_model self; gr_gsparams := gr_gsparams self;
     last_parameters := p |}.

(* GalaxyRenderer.draw: the image returned and the renderer afterwards *)
Definition draw (self : GalaxyRenderer) (df : F) (parameters : Params F)
  : M (loc * GalaxyRenderer) :=
  let* self' :=
    if negb (params_eqb parameters (last_parameters self)) then
      let* model :=
        call (CallTransform (gr_galaxy self) parameters)
             (get_transformed_model (gr_galaxy self) parameters) in
      let* shifted :=
        call (CallShift model (neg (dx_arcsec self)) (neg (dy_arcsec self)))
             (shift model (neg (dx_arcsec self)) (neg (dy_arcsec self))) in
      let* convolved :=
        call (CallConvolve [shifted; gr_psf_model self] (gr_gsparams self))
             (Convolve [shifted; gr_psf_model self] (gr_gsparams self)) in
      let* _ := drawImage convolved (gr_stamp self) in
      let* _ := zero_where (gr_mask self) (gr_stamp self) in
      ret (set_last_parameters self parameters)
    else ret self in
  let* out := image_mul (add one df) (gr_stamp self') in
  ret (out, self').

(* the arguments of draw when it is called with the one keyword [pname]:
   the others keep their default 0. *)
Definition keyword_arguments (pname : string) (value : F)
  : option (F * Params F) :=
  let z := zero_parameters in
  if String.eqb pname "df" then Some (value, z)
  else if String.eqb pname "dx" then
    Some (zero, {| dx := value; dy := dy z; ds := ds z;
                   dg1 := dg1 z; dg2 := dg2 z |})
  else if String.eqb pname "dy" then
    Some (zero, {| dx := dx z; dy := value; ds := ds z;
                   dg1 := dg1 z; dg2 := dg2 z |})
  else if String.eqb pname "ds" then
    Some (zero, {| dx := dx z; dy := dy z; ds := value;
                   dg1 := dg1 z; dg2 := dg2 z |})
  else if String.eqb pname "dg1" then
    Some (zero, {| dx := dx z; dy := dy z; ds := ds z;
                   dg1 := value; dg2 := dg2 z |})
  else if String.eqb pname "dg2" then
    Some (zero, {| dx := dx z; dy := dy z; ds := ds z;
                   dg1 := dg1 z; dg2 := value |})
  else None.

(* draw called with one keyword argument *)
Definition draw_kw (self : GalaxyRenderer) (pname : string) (value : F)
  : M (loc * GalaxyRenderer) :=
  match keyword_arguments pname value with
  | Some (df, parameters) => draw self df parameters
  | None => raise TypeError
  end.

(** ** Engine *)

Record Engine := {
  survey : Survey;
  min_snr : F;
  truncate_radius : F;
  no_margin : bool;
  verbose_render : bool;
  pixel_cut : F;
  galsim_params : Z;
  psf_dilution : F;
  padding : Z;
  stamp : loc;
  truncation_mask : array2 bool
}.

(* Engine.__init__, for a sky level that is not negative, a pixel scale
   that is not zero and a finite ratio of the truncation radius to it:
   math.sqrt, the division and int(math.ceil(..)) raise otherwise *)
Definition Engine_init (survey : Survey) (min_snr truncate_radius : F)
    (no_margin verbose_render : bool) : M Engine :=
  let sky_noise := sqrt (mean_sky_level survey) in
  let pixel_cut := mul min_snr sky_noise in
  (* the PSF drawn into one pixel; psf_stamp.array[0] is its only row,
     an array of one value that is used as a number *)
  let* psf_stamp := new_image 1 1 (pixel_scale survey) in
  let* _ := drawImage (psf_model survey) psf_stamp in
  let* psf := load psf_stamp in
  let psf_dilution := default zero (get2d (array psf) 0 0) in
  let padding :=
    ceil (sub (div truncate_radius (pixel_scale survey)) half) in
  let size := (2 * padding + 1)%Z in
  let* stamp := new_image size size (pixel_scale survey) in
  (* np.arange(-padding,padding+1)*pixel_scale, then meshgrid:
     pixel_x[j][i] = grid[i] and pixel_y[j][i] = grid[j] *)
  let pixel_grid :=
    map (fun k => mul (of_Z k) (pixel_scale survey))
        (seqZ (- padding) (2 * padding + 1)) in
  let truncation_mask :=
    map (fun y => map (fun x =>
           leb (sqrt (add (mul x x) (mul y y))) truncate_radius) pixel_grid)
        pixel_grid in
  ret {| survey := survey; min_snr := min_snr;
         truncate_radius := truncate_radius;
         no_margin := no_margin; verbose_render := verbose_render;
         pixel_cut := pixel_cut; galsim_params := maximum_fft_size;
         psf_dilution := psf_dilution; padding := padding;
         stamp := stamp; truncation_mask := truncation_mask |}.

(* stamp.array*truncation_mask > pixel_cut *)
Definition keep_mask_of (self : Engine) (a : array2 F) : array2 bool :=
  zip2d (fun v m => gtb (mul v (of_bool m)) (pixel_cut self))
        a (truncation_mask self).

(* the cropped bounding box of a stamp that covers the given box *)
Definition crop (x_min x_max y_min y_max : Z) (keep_mask : array2 bool)
  : BoundsI :=
  let x_projection := project_columns keep_mask in
  let y_projection := project_rows keep_mask in
  let x_min_inset := argmax x_projection in
  let x_max_inset := argmax (reverse x_projection) in
  let y_min_inset := argmax y_projection in
  let y_max_inset := argmax (reverse y_projection) in
  mkBoundsI (x_min + Z.of_nat x_min_inset) (x_max - Z.of_nat x_max_inset)
            (y_min + Z.of_nat y_min_inset) (y_max - Z.of_nat y_max_inset).

(* the parameter variations for building Fisher matrices *)
Definition variations (self : Engine) : list (string * F) :=
  [ ("dx", div (pixel_scale (survey self)) (lit 3));
    ("dy", div (pixel_scale (survey self)) (lit 3));
    ("ds", lit (5 # 100));
    ("dg1", lit (3 # 100));
    ("dg2", lit (3 # 100)) ]%string.

(* enumerate(l) *)
Definition enumerate {A} (l : list A) : list (nat * A) :=
  imap (fun i a => (i, a)) l.

(* the loop over the variations: two draws, their difference over
   2*delta stored in layer i+1 *)
Fixpoint partials (vs : list (nat * (string * F)))
    (renderer : GalaxyRenderer) (datacube : list (array2 F))
  : M (GalaxyRenderer * list (array2 F)) :=
  match vs with
  | [] => ret (renderer, datacube)
  | (i, (pname, delta)) :: vs' =>
      let* plus := draw_kw renderer pname delta in
      let* plus_copy := image_copy (fst plus) in
      let* minus := draw_kw (snd plus) pname (neg delta) in
      let* variation_stamp := image_sub plus_copy (fst minus) in
      let* o := load variation_stamp in
      let layer := map2d (fun v => div v (mul (of_Z 2) delta)) (array o) in
      partials vs' (snd minus) (<[i + 1 := layer]> datacube)
  end.

(* the datacube of render_galaxy: the nominal image, then the partial
   derivative images if they are requested *)
Definition build_datacube (self : Engine) (renderer : GalaxyRenderer)
    (cropped_array : array2 F) (no_partials : bool)
  : M (GalaxyRenderer * list (array2 F)) :=
  let ncube := if no_partials then 1 else 1 + length (variations self) in
  let height := length cropped_array in
  let width := width cropped_array in
  (* np.empty: every layer is assigned below *)
  let datacube :=
    <[0 := cropped_array]>
      (replicate ncube (replicate height (replicate width zero))) in
  if negb no_partials
  then partials (enumerate (variations self)) renderer datacube
  else ret (renderer, datacube).

(* the three lines printed under verbose_render *)
Definition report (self : Engine) (galaxy : Galaxy) (model : Model)
    (x_min x_max y_min y_max : Z) : M unit :=
  if verbose_render self then
    let* _ := call (PrintRendered (identifier galaxy) (redshift galaxy)) tt in
    let* _ := call (PrintBounds x_min x_max y_min y_max
                      (x_max - x_min + 1) (y_max - y_min + 1)) tt in
    let* cx := call (CallCentroid model) (fst (centroid model)) in
    let* cy := call (CallCentroid model) (snd (centroid model)) in
    call (PrintShift cx cy) tt
  else ret tt.

(* Engine.render_galaxy: the datacube, the cropped bounds and the
   renderer attached to the galaxy *)
Definition render_galaxy (self : Engine) (galaxy : Galaxy) (no_partials : bool)
  : M (list (array2 F) * BoundsI * GalaxyRenderer) :=
  let* flux := call (CallGetFlux (model galaxy)) (getFlux (model galaxy)) in
  if ltb (mul flux (psf_dilution self)) (pixel_cut self)
  then raise SourceNotVisible else
  let* position :=
    call (CallCentroid (model galaxy)) (centroid (model galaxy)) in
  let* center_pixels :=
    call (CallImageCoordinates (fst position) (snd position))
         (get_image_coordinates (survey self) (fst position) (snd position)) in
  (* int(math.floor(..)) of finite pixel coordinates: on a NaN or an
     infinity Python raises here, before anything is written *)
  let x_center_index := floor (fst center_pixels) in
  let y_center_index := floor (snd center_pixels) in
  let x_min := (x_center_index - padding self)%Z in
  let x_max := (x_center_index + padding self)%Z in
  let y_min := (y_center_index - padding self)%Z in
  let y_max := (y_center_index + padding self)%Z in
  let dx_stamp_arcsec :=
    center_offset x_min x_max (image_width (survey self))
                  (pixel_scale (survey self)) in
  let dy_stamp_arcsec :=
    center_offset y_min y_max (image_height (survey self))
                  (pixel_scale (survey self)) in
  let* shifted :=
    call (CallShift (model galaxy) (neg dx_stamp_arcsec) (neg dy_stamp_arcsec))
         (shift (model galaxy) (neg dx_stamp_arcsec) (neg dy_stamp_arcsec)) in
  let* model :=
    call (CallConvolve [shifted; psf_model (survey self)] (galsim_params self))
         (Convolve [shifted; psf_model (survey self)] (galsim_params self)) in
  let* _ := setOrigin (stamp self) x_min y_min in
  let* _ := drawImage model (stamp self) in
  let* rendered := load (stamp self) in
  let keep_mask := keep_mask_of self (array rendered) in
  if Nat.eqb (count_true keep_mask) 0 then raise SourceNotVisible else
  let* _ := zero_where (map2d negb keep_mask) (stamp self) in
  let cropped_bounds := crop x_min x_max y_min y_max keep_mask in
  let* self_stamp := whole (stamp self) in
  let cropped_stamp := subImage self_stamp cropped_bounds in
  let* survey_image := whole (image (survey self)) in
  let survey_overlap := bounds_and cropped_bounds (v_bounds survey_image) in
  if (area survey_overlap =? 0)%Z then raise SourceNotVisible else
  let* _ := iadd (subImage survey_image survey_overlap)
                 (subImage cropped_stamp survey_overlap) in
  let* renderer := GalaxyRenderer_init galaxy cropped_stamp (survey self) in
  let* cropped_array := view_array cropped_stamp in
  let* cube := build_datacube self renderer cropped_array no_partials in
  let* _ := report self galaxy model x_min x_max y_min y_max in
  ret (snd cube, cropped_bounds, fst cube).

(* Engine.description: the two numbers that the text reports *)
Definition description (self : Engine) : F * F :=
  (pixel_cut self, psf_dilution self).

(** *** Engine.from_args *)

(* a value used as a number: True is 1 and False is 0 *)
Definition as_number (v : value F) : M F :=
  match v with
  | Num x => ret x
  | Flag b => ret (of_bool b)
  | Other _ => raise TypeError
  end.

(* the truth value of a value: a float is true when it is not 0 *)
Definition truth_of (v : value F) : bool :=
  match v with
  | Num x => negb (eqb x zero)
  | Flag b => b
  | Other t => t
  end.

(* Engine.__init__ on values of any kind: min_snr is multiplied first,
   truncate_radius is divided after the PSF is drawn, the two flags are
   kept and verbose_render is read as a truth value later *)
Definition Engine_new (survey : Survey)
    (min_snr truncate_radius no_margin verbose_render : value F) : M Engine :=
  let* snr := as_number min_snr in
  match truncate_radius with
  | Other _ =>
      let* psf_stamp := new_image 1 1 (pixel_scale survey) in
      let* _ := drawImage (psf_model survey) psf_stamp in
      raise TypeError
  | _ =>
      let* radius := as_number truncate_radius in
      Engine_init survey snr radius (truth_of no_margin)
                  (truth_of verbose_render)
  end.

(* inspect.getargspec(cls.__init__).args[1:] *)
Definition pnames : list string :=
  ["survey"; "min_snr"; "truncate_radius"; "no_margin"; "verbose_render"]%string.

(* cls(survey, **kwargs): survey is given by position, so that a keyword
   of that name gives it a second value; a keyword that is no parameter
   and a parameter without a value are errors too *)
Definition Engine_call (survey : Survey) (kwargs : gmap string (value F))
  : M Engine :=
  if negb (bool_decide (map_Forall (fun k _ => k ∈ pnames) kwargs))
  then raise TypeError
  else if bool_decide (is_Some (kwargs !! "survey"%string))
  then raise TypeError
  else
    match kwargs !! "min_snr"%string, kwargs !! "truncate_radius"%string,
          kwargs !! "no_margin"%string, kwargs !! "verbose_render"%string with
    | Some min_snr, Some truncate_radius, Some no_margin, Some verbose_render =>
        Engine_new survey min_snr truncate_radius no_margin verbose_render
    | _, _, _, _ => raise TypeError
    end.

(* { key:args_dict[key] for key in (set(pnames) & set(args_dict)) } *)
Definition filtered_dict (args_dict : gmap string (value F))
  : gmap string (value F) :=
  filter (fun kv => kv.1 ∈ pnames) args_dict.

(* Engine.from_args, on the dictionary vars(args) *)
Definition from_args (survey : Survey) (args_dict : gmap string (value F))
  : M Engine :=
  Engine_call survey (filtered_dict args_dict).

(** ** Vocabulary of the statements *)

(* the bounding box that render_galaxy gives to a galaxy *)
Definition bounding_box (self : Engine) (galaxy : Galaxy) : BoundsI :=
  let position := centroid (model galaxy) in
  let center_pixels :=
    get_image_coordinates (survey self) (fst position) (snd position) in
  let x_center_index := floor (fst center_pixels) in
  let y_center_index := floor (snd center_pixels) in
  mkBoundsI (x_center_index - padding self) (x_center_index + padding self)
            (y_center_index - padding self) (y_center_index + padding self).

(* the profile that render_galaxy draws: shifted to the centre of the
   box and convolved with the PSF *)
Definition stamp_shift (self : Engine) (galaxy : Galaxy) : F * F :=
  let b := bounding_box self galaxy in
  (neg (center_offset (xmin b) (xmax b) (image_width (survey self))
                      (pixel_scale (survey self))),
   neg (center_offset (ymin b) (ymax b) (image_height (survey self))
                      (pixel_scale (survey self)))).

Definition nominal_model (self : Engine) (galaxy : Galaxy) : Model :=
  let s := stamp_shift self galaxy in
  Convolve [shift (model galaxy) (fst s) (snd s); psf_model (survey self)]
           (galsim_params self).

(* the stamp of the engine once the galaxy is drawn in it *)
Definition rendered (self : Engine) (galaxy : Galaxy) (w : World) : ImageObj :=
  let b := bounding_box self galaxy in
  redrawn (nominal_model self galaxy)
          (moved (xmin b) (ymin b) (image_at (heap w) (stamp self))).

Definition keep_mask (self : Engine) (galaxy : Galaxy) (w : World)
  : array2 bool :=
  keep_mask_of self (array (rendered self galaxy w)).

(* the stamp with the pixels outside the mask set to zero *)
Definition thresholded (self : Engine) (galaxy : Galaxy) (w : World)
  : ImageObj :=
  masked (map2d negb (keep_mask self galaxy w)) (rendered self galaxy w).

Definition cropped_bounds (self : Engine) (galaxy : Galaxy) (w : World)
  : BoundsI :=
  let b := bounding_box self galaxy in
  crop (xmin b) (xmax b) (ymin b) (ymax b) (keep_mask self galaxy w).

Definition cropped_stamp (self : Engine) (galaxy : Galaxy) (w : World) : View :=
  subImage {| v_image := stamp self; v_row0 := 0; v_col0 := 0;
              v_bounds := bounds (rendered self galaxy w) |}
           (cropped_bounds self galaxy w).

Definition survey_overlap (self : Engine) (galaxy : Galaxy) (w : World)
  : BoundsI :=
  bounds_and (cropped_bounds self galaxy w)
             (bounds (image_at (heap w) (image (survey self)))).

(* what render_galaxy asks its collaborators up to the drawing *)
Definition head_calls (self : Engine) (galaxy : Galaxy) (w : World)
  : list Event :=
  let position := centroid (model galaxy) in
  let s := stamp_shift self galaxy in
  let shifted := shift (model galaxy) (fst s) (snd s) in
  [ CallGetFlux (model galaxy);
    CallCentroid (model galaxy);
    CallImageCoordinates (fst position) (snd position);
    CallShift (model galaxy) (fst s) (snd s);
    CallConvolve [shifted; psf_model (survey self)] (galsim_params self);
    CallDrawImage (nominal_model self galaxy)
                  (bounds (rendered self galaxy w)) ].

(* the image of the survey once the overlap of the stamp is added *)
Definition accumulated (self : Engine) (galaxy : Galaxy) (w : World)
  : ImageObj :=
  let ov := survey_overlap self galaxy w in
  let field := image_at (heap w) (image (survey self)) in
  added (subImage {| v_image := image (survey self); v_row0 := 0;
                     v_col0 := 0; v_bounds := bounds field |} ov)
        (seen (subImage (cropped_stamp self galaxy w) ov)
              (thresholded self galaxy w))
        field.

(* the pixels of the cropped stamp *)
Definition cropped_array (self : Engine) (galaxy : Galaxy) (w : World)
  : array2 F :=
  seen (cropped_stamp self galaxy w) (thresholded self galaxy w).

(* the renderer that render_galaxy attaches to the galaxy *)
Definition attached (self : Engine) (galaxy : Galaxy) (w : World)
  : GalaxyRenderer :=
  let cb := cropped_bounds self galaxy w in
  {| gr_galaxy := galaxy;
     gr_stamp := length (heap w);
     gr_mask := map2d (fun v => eqb v zero) (cropped_array self galaxy w);
     dx_arcsec := center_offset (xmin cb) (xmax cb)
                    (image_width (survey self)) (pixel_scale (survey self));
     dy_arcsec := center_offset (ymin cb) (ymax cb)
                    (image_height (survey self)) (pixel_scale (survey self));
     gr_psf_model := psf_model (survey self);
     gr_gsparams := maximum_fft_size;
     last_parameters := zero_parameters |}.

(* the world when the renderer is attached: the stamp thresholded, the
   overlap accumulated, the copy of the cropped stamp allocated *)
Definition world_attached (self : Engine) (galaxy : Galaxy) (w : World)
  : World :=
  {| heap := <[image (survey self) := accumulated self galaxy w]>
               (<[stamp self := thresholded self galaxy w]> (heap w))
             ++ [pictured (cropped_stamp self galaxy w)
                          (thresholded self galaxy w)];
     trace := trace w ++ head_calls self galaxy w |}.

(* the galaxy passes the flux pre-filter *)
Definition bright (self : Engine) (galaxy : Galaxy) : Prop :=
  ltb (mul (getFlux (model galaxy)) (psf_dilution self)) (pixel_cut self)
  = false.

(* the stamp of the engine and the image of the survey are two objects
   of the world *)
Definition engine_in (self : Engine) (w : World) : Prop :=
  stamp self < length (heap w) /\
  image (survey self) < length (heap w) /\
  stamp self <> image (survey self).

(* the cached stamp of a renderer *)
Definition cached (self : GalaxyRenderer) (w : World) : ImageObj :=
  image_at (heap w) (gr_stamp self).

(* the profile that a cache miss renders *)
Definition transformed (self : GalaxyRenderer) (p : Params F) : Model :=
  Convolve
    [shift (get_transformed_model (gr_galaxy self) p)
           (neg (dx_arcsec self)) (neg (dy_arcsec self));
     gr_psf_model self]
    (gr_gsparams self).

(* the calls that a cache miss makes, in order *)
Definition miss_calls (self : GalaxyRenderer) (p : Params F) (b : BoundsI)
  : list Event :=
  let m := get_transformed_model (gr_galaxy self) p in
  let s := shift m (neg (dx_arcsec self)) (neg (dy_arcsec self)) in
  [ CallTransform (gr_galaxy self) p;
    CallShift m (neg (dx_arcsec self)) (neg (dy_arcsec self));
    CallConvolve [s; gr_psf_model self] (gr_gsparams self);
    CallDrawImage (transformed self p) b ].

Definition is_transform (e : Event) : bool :=
  match e with CallTransform _ _ => true | _ => false end.
Definition is_convolve (e : Event) : bool :=
  match e with CallConvolve _ _ => true | _ => false end.
Definition is_drawImage (e : Event) : bool :=
  match e with CallDrawImage _ _ => true | _ => false end.

(* how many events of a kind a trace holds *)
Definition calls (kind : Event -> bool) (t : list Event) : nat :=
  length (List.filter kind t).

(* two arrays of the same height whose rows have the same lengths *)
Definition same_shape {A B} (a : array2 A) (b : array2 B) : Prop :=
  map length a = map length b.

(* the stamp of the renderer is an object of the world *)
Definition lives_in (self : GalaxyRenderer) (w : World) : Prop :=
  gr_stamp self < length (heap w).

(* the cached stamp compares equal to zero wherever the mask is set *)
Definition zero_under_mask (self : GalaxyRenderer) (w : World) : Prop :=
  forall j i v,
    get2d (gr_mask self) j i = Some true ->
    get2d (array (cached self w)) j i = Some v ->
    eqb v zero = true.

(* the cached stamp has the shape of the mask, and a pixel that compares
   equal to zero in every cell where the mask is set *)
Definition masked_out (self : GalaxyRenderer) (w : World) : Prop :=
  same_shape (array (cached self w)) (gr_mask self) /\
  forall j i,
    get2d (gr_mask self) j i = Some true ->
    exists v, get2d (array (cached self w)) j i = Some v /\ eqb v zero = true.

(* the value that a cache miss leaves in the cell (j,i) of a stamp [c] *)
Definition redrawn_cell (self : GalaxyRenderer) (p : Params F) (c : ImageObj)
    (j i : nat) : F :=
  match get2d (gr_mask self) j i with
  | Some true => zero
  | _ => drawImage_pixel (transformed self p) (scale c) (bounds c)
           (xmin (bounds c) + Z.of_nat i)%Z (ymin (bounds c) + Z.of_nat j)%Z
  end.

(* the calls of the primitives among [made]: [n] of each kind *)
Definition primitives_run (n : nat) (made : list Event) : Prop :=
  calls is_transform made = n /\ calls is_convolve made = n
  /\ calls is_drawImage made = n.

(* two draws in a row with the parameters [p] run each primitive once *)
Definition once_in_two_draws (self : GalaxyRenderer) (df1 df2 : F)
    (p : Params F) (w : World) : Prop :=
  forall out1 self1 w1 out2 self2 w2,
    draw self df1 p w = (Ok (out1, self1), w1) ->
    draw self1 df2 p w1 = (Ok (out2, self2), w2) ->
    exists made, trace w2 = trace w ++ made /\ primitives_run 1 made.
(* the stamp that the renderer caches once draw is called with [p] *)
Definition recached (self : GalaxyRenderer) (p : Params F) (c : ImageObj)
  : ImageObj :=
  if params_eqb p (last_parameters self) then c
  else masked (gr_mask self) (redrawn (transformed self p) c).

(* the parameters that the renderer remembers after that call *)
Definition remembered (self : GalaxyRenderer) (p : Params F) : Params F :=
  if params_eqb p (last_parameters self) then last_parameters self else p.

(* the layer that one variation leaves in the datacube *)
Definition layer_of (delta : F) (plus minus : ImageObj) : array2 F :=
  map2d (fun v => div v (mul (of_Z 2) delta))
        (zip2d sub (array plus) (array minus)).

(* the keyword of a variation is one that draw accepts *)
Definition known (v : string * F) : Prop :=
  exists pp pm, keyword_arguments v.1 v.2 = Some (zero, pp) /\
                keyword_arguments v.1 (neg v.2) = Some (zero, pm).

(* the layers that the loop assigns *)
Definition written (vs : list (nat * (string * F))) : list nat :=
  map (fun iv => iv.1 + 1) vs.

(* the parameters with the value v in place k, in the order dx, dy, ds,
   dg1, dg2, and zero elsewhere *)
Definition only (k : nat) (v : F) : Params F :=
  let z := zero_parameters in
  match k with
  | 0 => {| dx := v; dy := dy z; ds := ds z; dg1 := dg1 z; dg2 := dg2 z |}
  | 1 => {| dx := dx z; dy := v; ds := ds z; dg1 := dg1 z; dg2 := dg2 z |}
  | 2 => {| dx := dx z; dy := dy z; ds := v; dg1 := dg1 z; dg2 := dg2 z |}
  | 3 => {| dx := dx z; dy := dy z; ds := ds z; dg1 := v; dg2 := dg2 z |}
  | 4 => {| dx := dx z; dy := dy z; ds := ds z; dg1 := dg1 z; dg2 := v |}
  | _ => z
  end.
(* the padding of the stamp for a truncation radius *)
Definition padding_for (survey : Survey) (truncate_radius : F) : Z :=
  ceil (sub (div truncate_radius (pixel_scale survey)) half).

(* the offset of pixel k of the stamp from its centre, in arcseconds *)
Definition pixel_offset (survey : Survey) (padding : Z) (k : nat) : F :=
  mul (of_Z (- padding + Z.of_nat k)) (pixel_scale survey).

(* the pixel (j,i) of the stamp lies within the truncation radius *)
Definition within_radius (survey : Survey) (truncate_radius : F)
    (padding : Z) (j i : nat) : bool :=
  let x := pixel_offset survey padding i in
  let y := pixel_offset survey padding j in
  leb (sqrt (add (mul x x) (mul y y))) truncate_radius.

(* the engine is in the world and its stamp has the shape of its mask *)
Definition engine_ok (self : Engine) (w : World) : Prop :=
  engine_in self w /\
  (0 <= padding self)%Z /\
  let n := Z.to_nat (2 * padding self + 1) in
  has_shape n n (array (image_at (heap w) (stamp self))) /\
  has_shape n n (truncation_mask self).

(* the same engine with another no_margin flag *)
Definition with_no_margin (b : bool) (self : Engine) : Engine :=
  {| survey := survey self; min_snr := min_snr self;
     truncate_radius := truncate_radius self;
     no_margin := b; verbose_render := verbose_render self;
     pixel_cut := pixel_cut self; galsim_params := galsim_params self;
     psf_dilution := psf_dilution self; padding := padding self;
     stamp := stamp self; truncation_mask := truncation_mask self |}.
(* the same engine with another verbose_render flag *)
Definition with_verbose (b : bool) (self : Engine) : Engine :=
  {| survey := survey self; min_snr := min_snr self;
     truncate_radius := truncate_radius self;
     no_margin := no_margin self; verbose_render := b;
     pixel_cut := pixel_cut self; galsim_params := galsim_params self;
     psf_dilution := psf_dilution self; padding := padding self;
     stamp := stamp self; truncation_mask := truncation_mask self |}.

(* what a verbose render adds to the trace: three lines, and the two
   calls of centroid() that the last line makes *)
Definition verbose_lines (self : Engine) (galaxy : Galaxy) : list Event :=
  let b := bounding_box self galaxy in
  let m := nominal_model self galaxy in
  [ PrintRendered (identifier galaxy) (redshift galaxy);
    PrintBounds (xmin b) (xmax b) (ymin b) (ymax b)
                (xmax b - xmin b + 1) (ymax b - ymin b + 1);
    CallCentroid m; CallCentroid m;
    PrintShift (fst (centroid m)) (snd (centroid m)) ].

(* the same renderer with its stamp at another place of the store *)
Definition restamped (l : nat) (r : GalaxyRenderer) : GalaxyRenderer :=
  {| gr_galaxy := gr_galaxy r; gr_stamp := l; gr_mask := gr_mask r;
     dx_arcsec := dx_arcsec r; dy_arcsec := dy_arcsec r;
     gr_psf_model := gr_psf_model r; gr_gsparams := gr_gsparams r;
     last_parameters := last_parameters r |}.

(* the calls that draw makes with the parameters [p] *)
Definition draw_calls (r : GalaxyRenderer) (p : Params F) (c : ImageObj)
  : list Event :=
  if params_eqb p (last_parameters r) then [] else miss_calls r p (bounds c).

(* the loop over the variations, told on the cache alone: the renderer,
   its cached stamp, the datacube and the calls made *)
Fixpoint loop (vs : list (nat * (string * F))) (r : GalaxyRenderer)
    (c : ImageObj) (cube : list (array2 F))
  : GalaxyRenderer * ImageObj * list (array2 F) * list Event :=
  match vs with
  | [] => (r, c, cube, [])
  | (i, (pname, delta)) :: vs' =>
      match keyword_arguments pname delta,
            keyword_arguments pname (neg delta) with
      | Some (dfp, pp), Some (dfm, pm) =>
          let c1 := recached r pp c in
          let r1 := set_last_parameters r (remembered r pp) in
          let c2 := recached r1 pm c1 in
          let r2 := set_last_parameters r1 (remembered r1 pm) in
          let rest :=
            loop vs' r2 c2
              (<[i + 1 := layer_of delta (scaled (add one dfp) c1)
                                         (scaled (add one dfm) c2)]> cube) in
          (rest.1.1.1, rest.1.1.2, rest.1.2,
           draw_calls r pp c ++ draw_calls r1 pm c1 ++ rest.2)
      | _, _ => (r, c, cube, [])
      end
  end.

(* the datacube before the loop: the nominal image, and a layer to fill
   for every variation *)
Definition first_cube (self : Engine) (nominal : array2 F) (no_partials : bool)
  : list (array2 F) :=
  <[0 := nominal]>
    (replicate (if no_partials then 1 else 1 + length (variations self))
       (replicate (length nominal) (replicate (width nominal) zero))).

(* what a render that comes to its end returns and calls after the
   renderer is attached *)
Definition outcome (self : Engine) (galaxy : Galaxy) (no_partials : bool)
    (w : World)
  : GalaxyRenderer * ImageObj * list (array2 F) * list Event :=
  let r := attached self galaxy w in
  let c := pictured (cropped_stamp self galaxy w) (thresholded self galaxy w) in
  let cube := first_cube self (cropped_array self galaxy w) no_partials in
  if no_partials then (r, c, cube, [])
  else loop (enumerate (variations self)) r c cube.

(* two images with the same extent, scale and shape *)
Definition same_geometry (o o' : ImageObj) : Prop :=
  isDefined (bounds o) = isDefined (bounds o') /\
  (xmax (bounds o) - xmin (bounds o)
   = xmax (bounds o') - xmin (bounds o'))%Z /\
  (ymax (bounds o) - ymin (bounds o)
   = ymax (bounds o') - ymin (bounds o'))%Z /\
  scale o = scale o' /\
  map length (array o) = map length (array o').

(* a step that draw sees: it differs from 0 and from its opposite *)
Definition changing (delta : F) : Prop :=
  eqb delta zero = false /\ eqb (neg delta) delta = false.

(* every draw of the loop finds other parameters than the cached ones *)
Fixpoint misses (last : Params F) (vs : list (nat * (string * F))) : Prop :=
  match vs with
  | [] => True
  | (_, (pname, delta)) :: vs' =>
      exists pp pm,
        keyword_arguments pname delta = Some (zero, pp) /\
        keyword_arguments pname (neg delta) = Some (zero, pm) /\
        params_eqb pp last = false /\ params_eqb pm pp = false /\
        misses pm vs'
  end.

(* the parameters that the last draw of the loop leaves in the cache *)
Fixpoint last_drawn (last : Params F) (vs : list (nat * (string * F)))
  : Params F :=
  match vs with
  | [] => last
  | (_, (pname, delta)) :: vs' =>
      match keyword_arguments pname (neg delta) with
      | Some (_, pm) => last_drawn pm vs'
      | None => last
      end
  end.

(* what a render adds to the pixel (row,col) of the image of the survey:
   the pixel of the thresholded stamp that lies on it, if the overlap of
   the cropped stamp with the image holds it *)
Definition contribution (self : Engine) (galaxy : Galaxy) (w : World)
    (row col : nat) : option F :=
  let field := image_at (heap w) (image (survey self)) in
  let b := bounding_box self galaxy in
  let x := (xmin (bounds field) + Z.of_nat col)%Z in
  let y := (ymin (bounds field) + Z.of_nat row)%Z in
  if includes (survey_overlap self galaxy w) x y
  then get2d (array (thresholded self galaxy w))
             (Z.to_nat (y - ymin b)) (Z.to_nat (x - xmin b))
  else None.

(* a pixel with a contribution added, or as it was *)
Definition credited (v : F) (c : option F) : F :=
  match c with Some t => add v t | None => v end.

End Render.

(** ** An instance to run the model on: rational pixels, a toy profile *)

(* the square root of a rational, rounded down on the numerator *)
Definition Qsqrt (q : Q) : Q :=
  Z.sqrt (Qnum q * Zpos (Qden q)) # Qden q.

#[export] Instance ArithQ : Arith Q := {|
  lit q := q;
  of_Z z := inject_Z z;
  add := Qplus; sub := Qminus; mul := Qmult; div := Qdiv; neg := Qopp;
  sqrt := Qsqrt;
  eqb := Qeq_bool;
  ltb a b := negb (Qle_bool b a);
  leb := Qle_bool;
  floor := Qfloor;
  ceil := Qceiling
|}.

(* a round or sheared blob of a given flux, centre and size *)
Record Blob := {
  b_flux : Q; b_x : Q; b_y : Q; b_size : Q; b_e1 : Q; b_e2 : Q
}.

(* the flux that a blob leaves in pixel (x,y) of an image *)
Definition blob_pixel (m : Blob) (sc : Q) (b : BoundsI) (x y : Z) : Q :=
  let cx := (inject_Z (xmin b + xmax b) / 2)%Q in
  let cy := (inject_Z (ymin b + ymax b) / 2)%Q in
  let u := ((inject_Z x - cx) * sc - b_x m)%Q in
  let v := ((inject_Z y - cy) * sc - b_y m)%Q in
  Qred (b_flux m * sc * sc /
        (b_size m * b_size m + (1 + b_e1 m) * u * u + (1 - b_e1 m) * v * v
         + 2 * b_e2 m * u * v))%Q.

Definition blob_shift (m : Blob) (sx sy : Q) : Blob :=
  {| b_flux := b_flux m; b_x := Qred (b_x m + sx); b_y := Qred (b_y m + sy);
     b_size := b_size m; b_e1 := b_e1 m; b_e2 := b_e2 m |}.

Definition blob_convolve (ms : list Blob) : Blob :=
  match ms with
  | [m; psf] =>
      {| b_flux := b_flux m; b_x := b_x m; b_y := b_y m;
         b_size := Qred (b_size m + b_size psf);
         b_e1 := b_e1 m; b_e2 := b_e2 m |}
  | _ => {| b_flux := 0; b_x := 0; b_y := 0; b_size := 1;
            b_e1 := 0; b_e2 := 0 |}
  end.

#[export] Instance OpticsBlob : Optics Q := {|
  Model := Blob;
  getFlux := b_flux;
  centroid m := (b_x m, b_y m);
  shift := blob_shift;
  Convolve ms _ := blob_convolve ms;
  drawImage_pixel := blob_pixel
|}.

Definition demo_psf : Blob :=
  {| b_flux := 1; b_x := 0; b_y := 0; b_size := 1 # 2; b_e1 := 0; b_e2 := 0 |}.

(* a field of 10 by 10 pixels of 0.2 arcsec; its image is object 0 *)
Definition demo_survey : Survey :=
  {| pixel_scale := 1 # 5; image_width := 10; image_height := 10;
     mean_sky_level := 25%Q; psf_model := demo_psf; image := 0%nat;
     get_image_coordinates x y :=
       (Qred (x / (1 # 5) + 5), Qred (y / (1 # 5) + 5))%Q |}.

Definition demo_blob (flux x y : Q) : Blob :=
  {| b_flux := flux; b_x := x; b_y := y; b_size := 1 # 5;
     b_e1 := 0; b_e2 := 0 |}.

(* a galaxy of a given flux at a given place of the sky *)
Definition demo_galaxy (flux x y : Q) : Galaxy :=
  {| model := demo_blob flux x y; identifier := 7; redshift := 1 # 2;
     get_transformed_model p :=
       {| b_flux := flux; b_x := Qred (x + dx p); b_y := Qred (y + dy p);
          b_size := Qred ((1 # 5) * (1 + ds p));
          b_e1 := dg1 p; b_e2 := dg2 p |} |}.

Definition demo_world : World :=
  {| heap := [ {| bounds := mkBoundsI 0 9 0 9; scale := 1 # 5;
                  array := replicate 10 (replicate 10 0%Q) |} ];
     trace := [] |}.

(* the engine of the demonstration and the world that holds its stamp *)
Definition demo_init (no_margin : bool) : result Engine * World :=
  Engine_init demo_survey (1 # 20) (3 # 5) no_margin false demo_world.

Definition demo_engine_default : Engine :=
  {| survey := demo_survey; min_snr := 0%Q; truncate_radius := 0%Q;
     no_margin := false; verbose_render := false; pixel_cut := 0%Q;
     galsim_params := 0%Z; psf_dilution := 0%Q; padding := 0%Z;
     stamp := 0%nat; truncation_mask := [] |}.

Definition demo_engine : Engine :=
  the (fst (demo_init false)) demo_engine_default.

Definition demo_start : World := snd (demo_init false).

(* a bright galaxy at the centre of the field and one too faint to see *)
Definition demo_bright : Galaxy := demo_galaxy 100 0 0.
Definition demo_faint : Galaxy := demo_galaxy (1 # 100) 0 0.

(* the bright galaxy, rendered *)
Definition demo_render (no_partials : bool)
  : result (list (array2 Q) * BoundsI * GalaxyRenderer) * World :=
  render_galaxy demo_engine demo_bright no_partials demo_start.

Definition demo_renderer_default : GalaxyRenderer :=
  {| gr_galaxy := demo_galaxy 100 0 0; gr_stamp := 0%nat; gr_mask := [];
     dx_arcsec := 0%Q; dy_arcsec := 0%Q; gr_psf_model := demo_psf;
     gr_gsparams := 0%Z; last_parameters := zero_parameters |}.

(* the datacube, the bounds and the renderer that it returns *)
Definition demo_outcome (no_partials : bool)
  : list (array2 Q) * BoundsI * GalaxyRenderer :=
  the (fst (demo_render no_partials))
      ([], undefinedBounds, demo_renderer_default).

Definition demo_renderer : GalaxyRenderer := snd (demo_outcome true).

Definition demo_rendered : World := snd (demo_render true).

(* a new renderer on a window of the field image, and one draw of it *)
Definition demo_view : View :=
  {| v_image := 0; v_row0 := 2; v_col0 := 3; v_bounds := mkBoundsI 3 6 2 4 |}.

Definition demo_new : result GalaxyRenderer * World :=
  GalaxyRenderer_init (demo_galaxy 100 0 0) demo_view demo_survey demo_world.

Definition demo_fresh : GalaxyRenderer := the (fst demo_new) demo_renderer.
Definition demo_fresh_world : World := snd demo_new.

Definition demo_shift : Params Q :=
  {| dx := 1 # 10; dy := 0%Q; ds := 0%Q; dg1 := 0%Q; dg2 := 0%Q |}.

Definition demo_drawn : result (nat * GalaxyRenderer) * World :=
  draw demo_fresh zero demo_shift demo_fresh_world.

(* a renderer on a corner of the field once the bright galaxy is on it:
   the window holds pixels that are zero and pixels that are not *)
Definition demo_window : View :=
  {| v_image := 0; v_row0 := 0; v_col0 := 0; v_bounds := mkBoundsI 0 5 0 5 |}.

Definition demo_masked_new : result GalaxyRenderer * World :=
  GalaxyRenderer_init demo_bright demo_window demo_survey demo_rendered.

Definition demo_masked : GalaxyRenderer :=
  the (fst demo_masked_new) demo_renderer_default.
Definition demo_masked_world : World := snd demo_masked_new.

Definition demo_masked_drawn : result (nat * GalaxyRenderer) * World :=
  draw demo_masked zero demo_shift demo_masked_world.

(* a bright galaxy far outside the field *)
Definition demo_far : Galaxy := demo_galaxy 100 10 10.

(* the arguments of a command line, with one that is not for the engine *)
Definition demo_args : gmap string (value Q) :=
  <["min_snr"%string := Num (1 # 20)%Q]>
    (<["truncate_radius"%string := Num (3 # 5)%Q]>
       (<["no_margin"%string := Flag false]>
          (<["verbose_render"%string := Flag false]>
             (<["survey_name"%string := Other true]> ∅)))).

(* a bright galaxy one pixel to the right of the centre of the field *)
Definition demo_near : Galaxy := demo_galaxy 100 (1 # 5) 0.

(** ** Facts about arrays *)

Lemma get2d_imap2d {A B} (f : nat -> nat -> A -> B) (a : array2 A) j i :
  get2d (imap2d f a) j i = f j i <$> get2d a j i.
Proof.
  unfold get2d, imap2d. rewrite list_lookup_imap.
  destruct (a !! j) as [row|]; [|reflexivity].
  cbn. by rewrite list_lookup_imap.
Qed.

Lemma get2d_map2d {A B} (f : A -> B) (a : array2 A) j i :
  get2d (map2d f a) j i = f <$> get2d a j i.
Proof.
  unfold get2d, map2d. rewrite list_lookup_fmap.
  destruct (a !! j) as [row|]; [|reflexivity].
  cbn. by rewrite list_lookup_fmap.
Qed.

Lemma map2d_id {A} (f : A -> A) (a : array2 A) :
  (forall v, f v = v) -> map2d f a = a.
Proof.
  intros Hf. unfold map2d.
  induction a as [|row a IH]; [reflexivity|].
  cbn. rewrite IH. f_equal.
  induction row as [|v row IHrow]; [reflexivity|].
  cbn. by rewrite Hf, IHrow.
Qed.

Lemma get2d_assign_where {A} (mask : array2 bool) (v : A) (a : array2 A) j i :
  get2d (assign_where mask v a) j i =
    (fun old => match get2d mask j i with Some true => v | _ => old end)
      <$> get2d a j i.
Proof. unfold assign_where. by rewrite get2d_imap2d. Qed.

Lemma shape_imap2d {A B} (f : nat -> nat -> A -> B) (a : array2 A) :
  map length (imap2d f a) = map length a.
Proof.
  unfold imap2d. apply list_eq. intros j.
  rewrite !list_lookup_fmap, list_lookup_imap.
  destruct (a !! j); cbn; [|done]. by rewrite length_imap.
Qed.

Lemma shape_map2d {A B} (f : A -> B) (a : array2 A) :
  map length (map2d f a) = map length a.
Proof.
  unfold map2d. rewrite <- list_fmap_compose. apply list_fmap_ext.
  intros _ row _. cbn. apply length_fmap.
Qed.

Lemma shape_assign_where {A} (mask : array2 bool) (v : A) (a : array2 A) :
  map length (assign_where mask v a) = map length a.
Proof. apply shape_imap2d. Qed.

Lemma shape_zip2d {A B C} (f : A -> B -> C) (a : array2 A) (b : array2 B) :
  map length a = map length b ->
  map length (zip2d f a b) = map length a.
Proof.
  unfold zip2d. revert b. induction a as [|row a IH]; intros [|row' b] Hs;
    try discriminate; [done|].
  cbn in *. injection Hs as Hrow Hs. rewrite IH by done. f_equal.
  rewrite length_zip_with. lia.
Qed.

Lemma has_shape_replicate {A} h w (x : A) :
  has_shape h w (replicate h (replicate w x)).
Proof.
  split; [apply length_replicate|].
  apply Forall_replicate. apply length_replicate.
Qed.

Lemma insert_new {A} (h : list A) x y :
  <[length h := x]> (h ++ [y]) = h ++ [x].
Proof.
  rewrite <- (Nat.add_0_r (length h)) at 1. by rewrite insert_app_r.
Qed.

Lemma get2d_zip2d {A B C} (f : A -> B -> C) (a : array2 A) (b : array2 B) j i :
  get2d (zip2d f a b) j i =
    match get2d a j i, get2d b j i with
    | Some x, Some y => Some (f x y)
    | _, _ => None
    end.
Proof.
  unfold get2d, zip2d. rewrite lookup_zip_with.
  destruct (a !! j) as [ra|]; cbn; [|done].
  destruct (b !! j) as [rb|]; cbn.
  - rewrite lookup_zip_with.
    destruct (ra !! i); cbn; [|done]. by destruct (rb !! i).
  - by destruct (ra !! i).
Qed.

Lemma get2d_shape {A} h w (a : array2 A) j i :
  has_shape h w a -> (is_Some (get2d a j i) <-> j < h /\ i < w).
Proof.
  intros [Hlen Hrows]. unfold get2d. split.
  - intros [x Hx]. destruct (a !! j) as [row|] eqn:Hj; [|discriminate].
    cbn in Hx. split.
    + rewrite <- Hlen. by apply lookup_lt_Some in Hj.
    + rewrite Forall_lookup in Hrows. rewrite <- (Hrows j row Hj).
      by apply lookup_lt_Some in Hx.
  - intros [Hj Hi]. rewrite <- Hlen in Hj.
    destruct (lookup_lt_is_Some_2 a j Hj) as [row Hrow]. rewrite Hrow. cbn.
    apply lookup_lt_is_Some_2. rewrite Forall_lookup in Hrows.
    by rewrite (Hrows j row Hrow).
Qed.

Lemma has_true_row (row : list bool) :
  0 < length (filter (fun b => b = true) row) <-> exists i, row !! i = Some true.
Proof.
  induction row as [|b row IH].
  - cbn. split; [lia|]. by intros [i Hi].
  - rewrite filter_cons. destruct b.
    + rewrite decide_True by done. cbn. split; [|lia]. intros _. by exists 0.
    + rewrite decide_False by done. rewrite IH. split.
      * intros [i Hi]. by exists (S i).
      * intros [[|i] Hi]; [discriminate|]. by exists i.
Qed.

Lemma count_true_zero (mask : array2 bool) :
  count_true mask = 0 <-> forall j i, get2d mask j i <> Some true.
Proof.
  unfold count_true. induction mask as [|row mask IH].
  - cbn. split; [|done]. intros _ j i. by unfold get2d.
  - cbn [map sum_list sum_list_with]. split.
    + intros Hsum j i. unfold id in Hsum.
      apply Nat.eq_add_0 in Hsum as [Hr Hm].
      assert (Hrow : ~ 0 < length (filter (fun b => b = true) row)) by lia.
      rewrite has_true_row in Hrow.
      destruct j as [|j].
      * unfold get2d. cbn. intros Hi. apply Hrow. by exists i.
      * apply (proj1 IH Hm).
    + intros Hnone.
      assert (Hrow : ~ 0 < length (filter (fun b => b = true) row)).
      { rewrite has_true_row. intros [i Hi]. by apply (Hnone 0 i). }
      assert (Hrest : sum_list (map (fun row => length (filter (fun b => b = true) row)) mask) = 0).
      { apply IH. intros j i. apply (Hnone (S j) i). }
      unfold id. apply Nat.eq_add_0. split; [lia|done].
Qed.

(* argmax *)
Lemma existsb_id_lookup (l : list bool) :
  existsb id l = true <-> exists k, l !! k = Some true.
Proof.
  induction l as [|b l IH].
  - cbn. split; [discriminate|]. by intros [k Hk].
  - cbn [existsb]. destruct b; cbn.
    + split; [|done]. intros _. by exists 0.
    + rewrite IH. split.
      * intros [k Hk]. by exists (S k).
      * intros [[|k] Hk]; [discriminate|]. by exists k.
Qed.

Lemma argmax_first (l : list bool) :
  (exists k, l !! k = Some true) ->
  l !! argmax l = Some true /\ forall k, k < argmax l -> l !! k = Some false.
Proof.
  induction l as [|b l IH]; intros [k Hk]; [discriminate|].
  destruct b; cbn [argmax].
  - split; [done|]. intros k'. lia.
  - destruct k as [|k]; [discriminate|]. cbn in Hk.
    assert (He : existsb id l = true) by (apply existsb_id_lookup; eauto).
    rewrite He. destruct IH as [Hat Hbefore]; [eauto|].
    split; [done|]. intros [|k'] Hk'; [done|]. apply Hbefore. lia.
Qed.

Lemma argmax_lt (l : list bool) :
  (exists k, l !! k = Some true) -> argmax l < length l.
Proof.
  intros H. destruct (argmax_first l H) as [Hat _].
  by apply lookup_lt_Some in Hat.
Qed.

Lemma argmax_last (l : list bool) :
  (exists k, l !! k = Some true) ->
  let m := length l - 1 - argmax (reverse l) in
  argmax (reverse l) < length l /\
  l !! m = Some true /\
  forall k, m < k -> l !! k <> Some true.
Proof.
  intros [k Hk] m.
  assert (Hklt : k < length l) by (by apply lookup_lt_Some in Hk).
  assert (Hrev : exists k', reverse l !! k' = Some true).
  { exists (length l - S k). rewrite reverse_lookup by lia.
    replace (length l - S (length l - S k)) with k by lia. done. }
  destruct (argmax_first _ Hrev) as [Hat Hbefore].
  pose proof (argmax_lt _ Hrev) as Hlt. rewrite length_reverse in Hlt.
  split; [done|]. split.
  - rewrite reverse_lookup in Hat by done.
    unfold m. by replace (length l - 1 - argmax (reverse l))
      with (length l - S (argmax (reverse l))) by lia.
  - intros k' Hk' Htrue.
    assert (Hk'lt : k' < length l) by (by apply lookup_lt_Some in Htrue).
    specialize (Hbefore (length l - S k')).
    rewrite reverse_lookup in Hbefore by lia.
    replace (length l - S (length l - S k')) with k' in Hbefore by lia.
    rewrite Hbefore in Htrue; [discriminate|]. unfold m in Hk'. lia.
Qed.

Lemma project_rows_lookup (mask : array2 bool) j :
  project_rows mask !! j = Some true <-> exists i, get2d mask j i = Some true.
Proof.
  unfold project_rows, get2d. rewrite list_lookup_fmap.
  destruct (mask !! j) as [row|]; cbn.
  - rewrite <- has_true_row. split.
    + intros [= H]. by apply bool_decide_eq_true in H.
    + intros H. f_equal. by apply bool_decide_eq_true.
  - split; [discriminate|]. by intros [i Hi].
Qed.

Lemma column_sum (mask : array2 bool) i :
  0 < sum_list (map (fun row : list bool =>
                       match row !! i with Some true => 1 | _ => 0 end) mask)
  <-> exists j, get2d mask j i = Some true.
Proof.
  induction mask as [|row mask IH].
  - cbn. split; [lia|]. by intros [j Hj].
  - change (0 < match row !! i with Some true => 1 | _ => 0 end
                + sum_list (map (fun row : list bool =>
                       match row !! i with Some true => 1 | _ => 0 end) mask)
            <-> exists j, get2d (row :: mask) j i = Some true).
    set (rest := sum_list _) in *. split.
    + intros Hsum. destruct (row !! i) as [[|]|] eqn:Hi.
      * exists 0. unfold get2d. cbn. by rewrite Hi.
      * destruct (proj1 IH) as [j Hj]; [lia|]. by exists (S j).
      * destruct (proj1 IH) as [j Hj]; [lia|]. by exists (S j).
    + intros [[|j] Hj].
      * unfold get2d in Hj. cbn in Hj. rewrite Hj. lia.
      * assert (0 < rest) by (apply IH; by exists j).
        lia.
Qed.

Lemma project_columns_lookup (mask : array2 bool) i :
  i < width mask ->
  (project_columns mask !! i = Some true
   <-> exists j, get2d mask j i = Some true).
Proof.
  intros Hi. unfold project_columns. rewrite list_lookup_fmap.
  rewrite lookup_seq_lt by done. cbn. rewrite <- column_sum. split.
  - intros [= H]. by apply bool_decide_eq_true in H.
  - intros H. f_equal. by apply bool_decide_eq_true.
Qed.

Lemma project_columns_length (mask : array2 bool) :
  length (project_columns mask) = width mask.
Proof. unfold project_columns. by rewrite length_fmap, length_seq. Qed.

Lemma project_rows_length (mask : array2 bool) :
  length (project_rows mask) = length mask.
Proof. unfold project_rows. by rewrite length_fmap. Qed.

Lemma width_shape {A} h w (a : array2 A) :
  has_shape h w a -> 0 < h -> width a = w.
Proof.
  intros [Hlen Hrows] Hh. destruct a as [|row a]; [cbn in Hlen; lia|].
  cbn. by apply Forall_cons in Hrows as [-> _].
Qed.

(* the bounding box that [crop] computes is the tight one *)
Lemma crop_tight x_min y_min h w (mask : array2 bool) :
  has_shape h w mask ->
  (exists j i, get2d mask j i = Some true) ->
  let cb := crop x_min (x_min + Z.of_nat w - 1) y_min (y_min + Z.of_nat h - 1)
                 mask in
  isDefined cb = true /\
  (x_min <= xmin cb /\ xmax cb <= x_min + Z.of_nat w - 1)%Z /\
  (y_min <= ymin cb /\ ymax cb <= y_min + Z.of_nat h - 1)%Z /\
  (forall j i, get2d mask j i = Some true ->
     (xmin cb <= x_min + Z.of_nat i <= xmax cb)%Z /\
     (ymin cb <= y_min + Z.of_nat j <= ymax cb)%Z) /\
  (exists j, get2d mask j (Z.to_nat (xmin cb - x_min)) = Some true) /\
  (exists j, get2d mask j (Z.to_nat (xmax cb - x_min)) = Some true) /\
  (exists i, get2d mask (Z.to_nat (ymin cb - y_min)) i = Some true) /\
  (exists i, get2d mask (Z.to_nat (ymax cb - y_min)) i = Some true).
Proof.
  intros Hshape (j0 & i0 & H0) cb.
  assert (Hin0 : j0 < h /\ i0 < w) by (apply (get2d_shape h w mask); eauto).
  assert (Hw : width mask = w) by (apply (width_shape h); [done|lia]).
  assert (Hlen : length mask = h) by apply Hshape.
  set (xp := project_columns mask). set (yp := project_rows mask).
  assert (Hxl : length xp = w) by (unfold xp; by rewrite project_columns_length).
  assert (Hyl : length yp = h) by (unfold yp; by rewrite project_rows_length).
  assert (Hxe : exists k, xp !! k = Some true).
  { exists i0. apply project_columns_lookup; [lia|]. eauto. }
  assert (Hye : exists k, yp !! k = Some true).
  { exists j0. apply project_rows_lookup. eauto. }
  destruct (argmax_first xp Hxe) as [Hx1 Hx1'].
  destruct (argmax_first yp Hye) as [Hy1 Hy1'].
  destruct (argmax_last xp Hxe) as (Hx2l & Hx2 & Hx2').
  destruct (argmax_last yp Hye) as (Hy2l & Hy2 & Hy2').
  pose proof (argmax_lt xp Hxe) as Hx1l.
  pose proof (argmax_lt yp Hye) as Hy1l.
  rewrite Hxl in *. rewrite Hyl in *.
  assert (Hcol : forall i, i < w ->
            (xp !! i = Some true <-> exists j, get2d mask j i = Some true)).
  { intros i Hi. apply project_columns_lookup. lia. }
  assert (Hrow : forall j,
            (yp !! j = Some true <-> exists i, get2d mask j i = Some true)).
  { intros j. apply project_rows_lookup. }
  assert (Hbox : forall j i, get2d mask j i = Some true ->
            argmax xp <= i <= w - 1 - argmax (reverse xp) /\
            argmax yp <= j <= h - 1 - argmax (reverse yp)).
  { intros j i Hji.
    assert (Hin : j < h /\ i < w) by (apply (get2d_shape h w mask); eauto).
    assert (Hxi : xp !! i = Some true) by (apply Hcol; [lia|eauto]).
    assert (Hyj : yp !! j = Some true) by (apply Hrow; eauto).
    repeat split.
    - destruct (decide (i < argmax xp)) as [Hlt|]; [|lia].
      rewrite (Hx1' i Hlt) in Hxi. discriminate.
    - destruct (decide (w - 1 - argmax (reverse xp) < i)) as [Hlt|]; [|lia].
      by destruct (Hx2' i Hlt).
    - destruct (decide (j < argmax yp)) as [Hlt|]; [|lia].
      rewrite (Hy1' j Hlt) in Hyj. discriminate.
    - destruct (decide (h - 1 - argmax (reverse yp) < j)) as [Hlt|]; [|lia].
      by destruct (Hy2' j Hlt). }
  destruct (Hbox j0 i0 H0) as [Hbx Hby].
  unfold cb, crop. fold xp yp. unfold mkBoundsI. cbn [isDefined xmin xmax ymin ymax].
  split.
  { apply andb_true_iff. split; apply Z.leb_le; lia. }
  split; [lia|]. split; [lia|]. split.
  { intros j i Hji. destruct (Hbox j i Hji). lia. }
  replace (Z.to_nat (x_min + Z.of_nat (argmax xp) - x_min)) with (argmax xp) by lia.
  replace (Z.to_nat (x_min + Z.of_nat w - 1 - Z.of_nat (argmax (reverse xp)) - x_min))
    with (w - 1 - argmax (reverse xp)) by lia.
  replace (Z.to_nat (y_min + Z.of_nat (argmax yp) - y_min)) with (argmax yp) by lia.
  replace (Z.to_nat (y_min + Z.of_nat h - 1 - Z.of_nat (argmax (reverse yp)) - y_min))
    with (h - 1 - argmax (reverse yp)) by lia.
  split; [apply Hcol; [lia|done]|].
  split; [apply Hcol; [lia|done]|].
  split; [by apply Hrow|]. by apply Hrow.
Qed.

Lemma has_shape_map_length {A} h w (a : array2 A) :
  has_shape h w a <-> map length a = replicate h w.
Proof.
  unfold has_shape. split.
  - intros [<- Hrows]. induction Hrows as [|row a Hrow _ IH]; [done|].
    cbn [map length replicate]. by f_equal.
  - intros Hmap. split.
    + by rewrite <- (List.length_map length a), Hmap, length_replicate.
    + apply Forall_lookup. intros j row Hj.
      assert (Hl : map length a !! j = Some (length row))
        by (by rewrite list_lookup_fmap, Hj).
      rewrite Hmap in Hl. by apply lookup_replicate in Hl as [<- _].
Qed.

Lemma has_shape_same {A B} h w (a : array2 A) (b : array2 B) :
  map length a = map length b -> has_shape h w b -> has_shape h w a.
Proof. rewrite !has_shape_map_length. congruence. Qed.

Lemma some_true_cell (mask : array2 bool) :
  count_true mask <> 0 <-> exists j i, get2d mask j i = Some true.
Proof.
  split.
  - unfold count_true.
    induction mask as [|row mask IH]; [done|].
    change (length (filter (fun b => b = true) row)
            + sum_list (map (fun row => length (filter (fun b => b = true) row)) mask)
            <> 0 -> exists j i, get2d (row :: mask) j i = Some true).
    intros Hsum.
    destruct (decide (0 < length (filter (fun b => b = true) row))) as [Hrow|Hrow].
    + apply has_true_row in Hrow as [i Hi]. exists 0, i. done.
    + destruct IH as (j & i & Hji); [lia|]. by exists (S j), i.
  - intros (j & i & Hji). rewrite count_true_zero. intros Hnone.
    by apply (Hnone j i).
Qed.

Lemma get2d_window {A} r0 c0 h w (a : array2 A) j i :
  j < h -> i < w ->
  get2d (window r0 c0 h w a) j i = get2d a (r0 + j) (c0 + i).
Proof.
  intros Hj Hi. unfold get2d, window.
  rewrite list_lookup_fmap, lookup_take_lt, lookup_drop by done.
  destruct (a !! (r0 + j)) as [row|]; [|done].
  cbn. by rewrite lookup_take_lt, lookup_drop.
Qed.

Lemma includes_bounds_and b1 b2 x y :
  includes (bounds_and b1 b2) x y = includes b1 x y && includes b2 x y.
Proof.
  unfold bounds_and, includes.
  destruct (isDefined b1), (isDefined b2); cbn [andb];
    rewrite ?andb_false_r; try reflexivity.
  destruct (Z.ltb_spec (Z.min (xmax b1) (xmax b2)) (Z.max (xmin b1) (xmin b2)));
  destruct (Z.ltb_spec (Z.min (ymax b1) (ymax b2)) (Z.max (ymin b1) (ymin b2)));
    cbn [orb undefinedBounds mkBoundsI isDefined xmin xmax ymin ymax andb];
    apply eq_true_iff_eq;
    rewrite ?andb_true_iff, ?Z.leb_le; split; intros; try lia; try discriminate.
  all: try (destruct_and?; lia).
Qed.

Lemma area_bounds_and b1 b2 :
  area (bounds_and b1 b2) <> 0%Z <->
  isDefined (bounds_and b1 b2) = true /\
  xmin (bounds_and b1 b2) = Z.max (xmin b1) (xmin b2) /\
  xmax (bounds_and b1 b2) = Z.min (xmax b1) (xmax b2) /\
  ymin (bounds_and b1 b2) = Z.max (ymin b1) (ymin b2) /\
  ymax (bounds_and b1 b2) = Z.min (ymax b1) (ymax b2) /\
  (xmin (bounds_and b1 b2) <= xmax (bounds_and b1 b2))%Z /\
  (ymin (bounds_and b1 b2) <= ymax (bounds_and b1 b2))%Z.
Proof.
  unfold bounds_and, area.
  destruct (isDefined b1 && isDefined b2); cbn.
  2:{ split; [done|]. by intros [? _]. }
  destruct (Z.ltb_spec (Z.min (xmax b1) (xmax b2)) (Z.max (xmin b1) (xmin b2)));
  destruct (Z.ltb_spec (Z.min (ymax b1) (ymax b2)) (Z.max (ymin b1) (ymin b2)));
    cbn [orb undefinedBounds mkBoundsI isDefined xmin xmax ymin ymax].
  1-3: split; [done|]; by intros [? _].
  assert (Hd : (Z.max (xmin b1) (xmin b2) <=? Z.min (xmax b1) (xmax b2))%Z
               && (Z.max (ymin b1) (ymin b2) <=? Z.min (ymax b1) (ymax b2))%Z
               = true).
  { apply andb_true_iff. split; apply Z.leb_le; lia. }
  rewrite Hd. split; [|nia]. intros _. repeat split; lia.
Qed.

Lemma includes_true b x y :
  includes b x y = true <->
  isDefined b = true /\ (xmin b <= x <= xmax b)%Z /\ (ymin b <= y <= ymax b)%Z.
Proof.
  unfold includes. rewrite !andb_true_iff, !Z.leb_le. tauto.
Qed.

Lemma bounds_and_defined b1 b2 :
  isDefined (bounds_and b1 b2) = true -> area (bounds_and b1 b2) <> 0%Z.
Proof.
  unfold bounds_and, area.
  destruct (isDefined b1 && isDefined b2); cbn; [|done].
  destruct (Z.ltb_spec (Z.min (xmax b1) (xmax b2)) (Z.max (xmin b1) (xmin b2)));
  destruct (Z.ltb_spec (Z.min (ymax b1) (ymax b2)) (Z.max (ymin b1) (ymin b2)));
    cbn [orb undefinedBounds mkBoundsI isDefined xmin xmax ymin ymax];
    try done.
  intros ->. nia.
Qed.

Lemma imap2d_shape_ext {A B C} (f : nat -> nat -> C) (a : array2 A) (b : array2 B) :
  map length a = map length b ->
  imap2d (fun j i _ => f j i) a = imap2d (fun j i _ => f j i) b.
Proof.
  intros Hs. unfold imap2d. apply list_eq. intros j.
  rewrite !list_lookup_imap.
  assert (Hj : length <$> (a !! j) = length <$> (b !! j)).
  { rewrite <- !list_lookup_fmap. by f_equal. }
  destruct (a !! j) as [ra|], (b !! j) as [rb|]; try discriminate; [|done].
  cbn in *. injection Hj as Hj. f_equal.
  apply list_eq. intros i. rewrite !list_lookup_imap.
  destruct (ra !! i) as [x|] eqn:Hx, (rb !! i) as [y|] eqn:Hy; cbn; try done.
  - apply lookup_lt_Some in Hx. apply lookup_ge_None in Hy. lia.
  - apply lookup_lt_Some in Hy. apply lookup_ge_None in Hx. lia.
Qed.

Lemma window_shape {A} r0 c0 h w H W (a : array2 A) :
  has_shape H W a -> r0 + h <= H -> c0 + w <= W ->
  has_shape h w (window r0 c0 h w a).
Proof.
  intros [Hlen Hrows] Hr Hc. unfold window. split.
  - rewrite length_fmap, length_take, length_drop. lia.
  - apply Forall_fmap, Forall_forall. intros row Hin. cbn.
    apply elem_of_take in Hin as (k & Hk & _).
    rewrite lookup_drop in Hk.
    rewrite Forall_lookup in Hrows. specialize (Hrows _ _ Hk).
    rewrite length_take, length_drop. lia.
Qed.

(** ** Properties of the renderer and of the engine *)

Section Properties.
Context {F : Type} {AF : Arith F} {OF : Optics F}.

(* one step of a computation: the primitive operations, unfolded *)
Tactic Notation "run" :=
  unfold bind, ret, raise, call, alloc, load, store;
  cbn [fst snd heap trace].
Tactic Notation "run" "in" hyp(H) :=
  unfold bind, ret, raise, call, alloc, load, store in H;
  cbn [fst snd heap trace] in H.

(** *** The store *)

Lemma image_at_insert (h : list ImageObj) l o :
  l < length h -> image_at (<[l := o]> h) l = o.
Proof. intros Hl. unfold image_at. by rewrite list_lookup_insert_eq. Qed.

Lemma image_at_insert_ne (h : list ImageObj) l l' o :
  l <> l' -> image_at (<[l := o]> h) l' = image_at h l'.
Proof. intros Hl. unfold image_at. by rewrite list_lookup_insert_ne. Qed.

Lemma image_at_app (h h' : list ImageObj) l :
  l < length h -> image_at (h ++ h') l = image_at h l.
Proof. intros Hl. unfold image_at. by rewrite lookup_app_l. Qed.

Lemma image_at_new (h : list ImageObj) o :
  image_at (h ++ [o]) (length h) = o.
Proof. unfold image_at. by rewrite list_lookup_middle. Qed.

(** *** GalaxyRenderer.draw, case by case *)

Lemma draw_hit (self : GalaxyRenderer) df p w :
  params_eqb p (last_parameters self) = true ->
  draw self df p w =
    (Ok (length (heap w), self),
     {| heap := heap w ++ [scaled (add one df) (cached self w)];
        trace := trace w |}).
Proof.
  intros Hhit. unfold draw. rewrite Hhit. cbn [negb].
  unfold image_mul. run. reflexivity.
Qed.

Lemma draw_miss (self : GalaxyRenderer) df p w :
  params_eqb p (last_parameters self) = false ->
  lives_in self w ->
  let o := masked (gr_mask self) (redrawn (transformed self p) (cached self w)) in
  draw self df p w =
    (Ok (length (heap w), set_last_parameters self p),
     {| heap := <[gr_stamp self := o]> (heap w) ++ [scaled (add one df) o];
        trace := trace w ++ miss_calls self p (bounds (cached self w)) |}).
Proof.
  intros Hmiss Hin o. unfold lives_in in Hin. unfold draw. rewrite Hmiss. cbn [negb].
  unfold image_mul, drawImage, zero_where. run.
  cbn [gr_stamp set_last_parameters].
  rewrite !image_at_insert by (rewrite ?length_insert; done).
  rewrite list_insert_insert_eq, !length_insert.
  unfold miss_calls, transformed, cached. cbn.
  rewrite <- !app_assoc. reflexivity.
Qed.

Lemma GalaxyRenderer_init_eq galaxy (stamp : View) survey w :
  let o := pictured stamp (image_at (heap w) (v_image stamp)) in
  GalaxyRenderer_init galaxy stamp survey w =
    (Ok {| gr_galaxy := galaxy;
           gr_stamp := length (heap w);
           gr_mask := map2d (fun v => eqb v zero) (array o);
           dx_arcsec := center_offset (xmin (bounds o)) (xmax (bounds o))
                          (image_width survey) (pixel_scale survey);
           dy_arcsec := center_offset (ymin (bounds o)) (ymax (bounds o))
                          (image_height survey) (pixel_scale survey);
           gr_psf_model := psf_model survey;
           gr_gsparams := maximum_fft_size;
           last_parameters := zero_parameters |},
     {| heap := heap w ++ [o]; trace := trace w |}).
Proof.
  intros o. unfold GalaxyRenderer_init, copy. run.
  rewrite image_at_new. reflexivity.
Qed.

Lemma GalaxyRenderer_init_facts galaxy (stamp : View) survey w self w0 :
  GalaxyRenderer_init galaxy stamp survey w = (Ok self, w0) ->
  gr_stamp self = length (heap w) /\
  heap w0 = heap w ++ [pictured stamp (image_at (heap w) (v_image stamp))] /\
  trace w0 = trace w /\
  last_parameters self = zero_parameters /\
  gr_mask self =
    map2d (fun v => eqb v zero)
          (seen stamp (image_at (heap w) (v_image stamp))).
Proof.
  rewrite GalaxyRenderer_init_eq. intros [= <- <-]. by repeat split.
Qed.

(** *** GalaxyRenderer.draw, in closed form *)

Lemma insert_image_at (h : list ImageObj) l :
  l < length h -> <[l := image_at h l]> h = h.
Proof.
  intros Hl. apply list_insert_id. unfold image_at.
  destruct (lookup_lt_is_Some_2 h l Hl) as [o Ho]. by rewrite Ho.
Qed.

Lemma draw_eq (self : GalaxyRenderer) df p w :
  lives_in self w ->
  draw self df p w =
    (Ok (length (heap w), set_last_parameters self (remembered self p)),
     {| heap := <[gr_stamp self := recached self p (cached self w)]> (heap w)
                ++ [scaled (add one df) (recached self p (cached self w))];
        trace := trace w ++
                 (if params_eqb p (last_parameters self) then []
                  else miss_calls self p (bounds (cached self w))) |}).
Proof.
  intros Hin. unfold recached, remembered.
  destruct (params_eqb p (last_parameters self)) eqn:Hp.
  - rewrite draw_hit by done. unfold cached.
    rewrite insert_image_at by done. rewrite app_nil_r.
    by destruct self.
  - by rewrite draw_miss.
Qed.

Lemma recached_bounds (self : GalaxyRenderer) p c :
  bounds (recached self p c) = bounds c.
Proof. unfold recached. by destruct (params_eqb _ _). Qed.

Lemma recached_shape (self : GalaxyRenderer) p c :
  same_shape (array (recached self p c)) (array c).
Proof.
  unfold recached, same_shape. destruct (params_eqb _ _); [done|].
  cbn [masked redrawn array]. by rewrite shape_assign_where, shape_imap2d.
Qed.

Lemma recached_scale (self : GalaxyRenderer) p c :
  scale (recached self p c) = scale c.
Proof. unfold recached. by destruct (params_eqb _ _). Qed.

Lemma recached_cell (self : GalaxyRenderer) p c j i :
  params_eqb p (last_parameters self) = false ->
  get2d (array (recached self p c)) j i =
    (fun _ => redrawn_cell self p c j i) <$> get2d (array c) j i.
Proof.
  intros Hp. unfold recached, redrawn_cell. rewrite Hp.
  cbn [masked redrawn array bounds scale].
  rewrite get2d_assign_where, get2d_imap2d.
  by destruct (get2d (array c) j i).
Qed.

Lemma cached_after (self : GalaxyRenderer) q c h x t :
  gr_stamp self < length h ->
  cached (set_last_parameters self q)
         {| heap := <[gr_stamp self := c]> h ++ x; trace := t |} = c.
Proof.
  intros Hl. unfold cached. cbn [heap gr_stamp set_last_parameters].
  rewrite image_at_app by (by rewrite length_insert).
  by apply image_at_insert.
Qed.

Lemma returned_after (h : list ImageObj) l c x :
  image_at (<[l := c]> h ++ [x]) (length h) = x.
Proof. rewrite <- (length_insert h l c). apply image_at_new. Qed.

Lemma masked_out_recached (self : GalaxyRenderer) p c :
  eqb zero zero = true ->
  same_shape (array c) (gr_mask self) ->
  (forall j i, get2d (gr_mask self) j i = Some true ->
     exists v, get2d (array c) j i = Some v /\ eqb v zero = true) ->
  same_shape (array (recached self p c)) (gr_mask self) /\
  (forall j i, get2d (gr_mask self) j i = Some true ->
     exists v, get2d (array (recached self p c)) j i = Some v
               /\ eqb v zero = true) /\
  (params_eqb p (last_parameters self) = false ->
   forall j i, get2d (gr_mask self) j i = Some true ->
     get2d (array (recached self p c)) j i = Some zero).
Proof.
  intros Hz Hs Hc.
  assert (Hm : params_eqb p (last_parameters self) = false ->
               forall j i, get2d (gr_mask self) j i = Some true ->
               get2d (array (recached self p c)) j i = Some zero).
  { intros Hp j i Hji. rewrite recached_cell by exact Hp.
    unfold redrawn_cell. rewrite Hji.
    destruct (Hc j i Hji) as (v & -> & _). reflexivity. }
  split.
  { unfold same_shape in *. rewrite <- Hs. apply recached_shape. }
  split; [|exact Hm].
  intros j i Hji. destruct (params_eqb p (last_parameters self)) eqn:Hp.
  - unfold recached. rewrite Hp. by apply Hc.
  - exists zero. split; [by apply Hm|exact Hz].
Qed.

(** C7. A draw returns a new image object, absent from the store before
    the call and distinct from the cached stamp.  It has the bounds, the
    scale and the shape of the stamp, and each of its pixels is (1+df)
    times the pixel of the stamp as the call leaves it.  When the
    parameters equal the cached ones, the renderer, the trace and every
    object of the old store are left as they were.  When they differ, the
    call runs the primitives once, remembers the parameters given, and
    leaves in each cell of the stamp zero where the mask is set and the
    pixel of the transformed, shifted and convolved model elsewhere; no
    other object of the old store changes.  Under the float laws 1+1 = 2,
    1+0 = 1 and 1*v = v, the image drawn with df = 1 is pixel-wise twice
    the image drawn next with df = 0 and the same parameters, which is a
    copy of the stamp; the second draw changes neither the renderer nor
    the stamp nor the trace. *)
Theorem draw_returns_scaled_copy (self : GalaxyRenderer) df p w :
  lives_in self w ->
  (exists out self' w',
    draw self df p w = (Ok (out, self'), w') /\
    heap w !! out = None /\
    out <> gr_stamp self' /\
    gr_stamp self' = gr_stamp self /\
    heap w' !! out = Some (scaled (add one df) (cached self' w')) /\
    bounds (image_at (heap w') out) = bounds (cached self w) /\
    scale (image_at (heap w') out) = scale (cached self w) /\
    same_shape (array (image_at (heap w') out)) (array (cached self w)) /\
    (forall j i,
       get2d (array (image_at (heap w') out)) j i =
         (fun v => mul (add one df) v) <$> get2d (array (cached self' w')) j i) /\
    same_shape (array (cached self' w')) (array (cached self w)) /\
    (params_eqb p (last_parameters self) = true ->
       self' = self /\ trace w' = trace w /\
       (forall l, l < length (heap w) -> heap w' !! l = heap w !! l) /\
       cached self' w' = cached self w) /\
    (params_eqb p (last_parameters self) = false ->
       self' = set_last_parameters self p /\
       trace w' = trace w ++ miss_calls self p (bounds (cached self w)) /\
       (forall l, l < length (heap w) -> l <> gr_stamp self ->
                  heap w' !! l = heap w !! l) /\
       cached self' w' =
         masked (gr_mask self) (redrawn (transformed self p) (cached self w)) /\
       forall j i,
         get2d (array (cached self' w')) j i =
           (fun _ => redrawn_cell self p (cached self w) j i)
             <$> get2d (array (cached self w)) j i)) /\
  (add one one = lit 2 -> add one zero = one -> (forall v, mul one v = v) ->
   params_eqb p p = true ->
   forall twice self1 w1 once self2 w2,
     draw self one p w = (Ok (twice, self1), w1) ->
     draw self1 zero p w1 = (Ok (once, self2), w2) ->
     array (image_at (heap w2) twice) =
       map2d (fun v => mul (lit 2) v) (array (image_at (heap w2) once)) /\
     array (image_at (heap w2) once) = array (cached self2 w2) /\
     same_shape (array (image_at (heap w2) once)) (array (cached self w)) /\
     (forall j i,
        get2d (array (image_at (heap w2) twice)) j i =
          (fun v => mul (lit 2) v) <$> get2d (array (cached self2 w2)) j i) /\
     self2 = self1 /\ cached self2 w2 = cached self1 w1 /\
     trace w2 = trace w1).
Proof.
  intros Hin. split.
  - eexists _, _, _. split; [apply draw_eq; exact Hin|].
    rewrite cached_after by exact Hin.
    cbn [heap trace gr_stamp set_last_parameters].
    rewrite returned_after. unfold lives_in in Hin.
    split; [apply lookup_ge_None; lia|].
    split; [lia|]. split; [done|].
    split.
    { rewrite <- (length_insert (heap w) (gr_stamp self)
                    (recached self p (cached self w))) at 1.
      apply list_lookup_middle. done. }
    cbn [scaled bounds scale array].
    split; [apply recached_bounds|]. split; [apply recached_scale|].
    split; [unfold same_shape; rewrite shape_map2d; apply recached_shape|].
    split; [intros j i; apply get2d_map2d|].
    split; [apply recached_shape|].
    split.
    + intros Hp. unfold recached, remembered. rewrite Hp.
      split; [by destruct self|]. split; [by rewrite app_nil_r|].
      split; [|done].
      intros l Hl. rewrite lookup_app_l by (by rewrite length_insert).
      unfold cached. by rewrite insert_image_at.
    + intros Hp. split; [unfold remembered; by rewrite Hp|].
      split; [by rewrite Hp|].
      split.
      { intros l Hl Hne. rewrite lookup_app_l by (by rewrite length_insert).
        by apply list_lookup_insert_ne. }
      split; [unfold recached; by rewrite Hp|].
      intros j i. by apply recached_cell.
  - intros H11 H10 H1 Hpp twice self1 w1 once self2 w2 Htwice Honce.
    rewrite draw_eq in Htwice by exact Hin. injection Htwice as <- <- <-.
    assert (Hhit : params_eqb p (last_parameters
                     (set_last_parameters self (remembered self p))) = true).
    { cbn [last_parameters set_last_parameters]. unfold remembered.
      by destruct (params_eqb p (last_parameters self)) eqn:Hp. }
    rewrite draw_hit in Honce by exact Hhit. injection Honce as <- <- <-.
    rewrite !cached_after by exact Hin.
    cbn [heap trace]. rewrite image_at_new.
    rewrite image_at_app
      by (rewrite length_app, length_insert; cbn; lia).
    rewrite returned_after, H11, H10.
    assert (Hc : cached (set_last_parameters self (remembered self p))
               {| heap := (<[gr_stamp self := recached self p (cached self w)]>
                             (heap w)
                           ++ [scaled (lit 2) (recached self p (cached self w))])
                          ++ [scaled one (recached self p (cached self w))];
                  trace := trace w ++
                    (if params_eqb p (last_parameters self) then []
                     else miss_calls self p (bounds (cached self w))) |}
               = recached self p (cached self w)).
    { rewrite <- app_assoc. by apply cached_after. }
    rewrite Hc. cbn [scaled array].
    rewrite (map2d_id (fun v => mul one v)) by exact H1.
    split; [done|]. split; [done|]. split; [apply recached_shape|].
    split; [intros j i; apply get2d_map2d|]. done.
Qed.

(** C6, as amended.  Of two draws in a row with the same five
    parameters, the second is a pure cache hit: it makes no call, and it
    leaves the renderer and the cached stamp unchanged.  In total the
    transform, the convolution and the rendering are run once each when
    the parameters differ from those cached before the first call, and
    not at all when they equal them. *)
Theorem second_draw_is_a_cache_hit (self : GalaxyRenderer) df1 df2 p w :
  lives_in self w ->
  params_eqb p p = true ->
  exists out1 self1 w1 out2 w2 made,
    draw self df1 p w = (Ok (out1, self1), w1) /\
    draw self1 df2 p w1 = (Ok (out2, self1), w2) /\
    trace w2 = trace w1 /\
    cached self1 w2 = cached self1 w1 /\
    trace w1 = trace w ++ made /\
    primitives_run (if params_eqb p (last_parameters self) then 0 else 1) made.
Proof.
  intros Hin Hpp.
  destruct (params_eqb p (last_parameters self)) eqn:Hp.
  - eexists _, self, _, _, _, [].
    split; [apply draw_hit; exact Hp|].
    split; [apply draw_hit; exact Hp|].
    unfold cached, lives_in in *. cbn [heap trace].
    split; [done|]. split.
    + rewrite !image_at_app; [done..|]. rewrite length_app. lia.
    + split; [by rewrite app_nil_r|]. by repeat split.
  - eexists _, (set_last_parameters self p), _, _, _, _.
    split; [apply draw_miss; [exact Hp|exact Hin]|].
    split; [apply draw_hit; exact Hpp|].
    unfold cached, lives_in in *. cbn [heap trace gr_stamp set_last_parameters].
    split; [done|]. split.
    + rewrite image_at_app; [done|]. rewrite length_app, length_insert. lia.
    + split; [done|]. by repeat split.
Qed.


(** C8. The mask is computed at construction from the zero pixels of
    the reference stamp: it has a cell for every pixel of the copy that
    the renderer keeps, set where that pixel compares equal to zero.
    Every draw returns a renderer with the same mask.  After construction
    and after every draw the cached stamp has the shape of the mask and
    holds, in every cell where the mask is set, a pixel that compares
    equal to zero; a draw that renders anew leaves zero itself there. *)
Theorem mask_is_fixed_and_respected :
  eqb zero zero = true ->
  (forall galaxy (stamp : View) survey w self w0,
     GalaxyRenderer_init galaxy stamp survey w = (Ok self, w0) ->
     gr_mask self =
       map2d (fun v => eqb v zero)
             (seen stamp (image_at (heap w) (v_image stamp))) /\
     array (cached self w0) = seen stamp (image_at (heap w) (v_image stamp)) /\
     (forall j i,
        get2d (gr_mask self) j i =
          (fun v => eqb v zero) <$> get2d (array (cached self w0)) j i) /\
     lives_in self w0 /\ zero_under_mask self w0 /\ masked_out self w0) /\
  (forall (self : GalaxyRenderer) df p w out self' w',
     lives_in self w -> zero_under_mask self w ->
     draw self df p w = (Ok (out, self'), w') ->
     gr_mask self' = gr_mask self /\
     lives_in self' w' /\ zero_under_mask self' w') /\
  (forall (self : GalaxyRenderer) df p w out self' w',
     lives_in self w -> masked_out self w ->
     draw self df p w = (Ok (out, self'), w') ->
     gr_mask self' = gr_mask self /\
     lives_in self' w' /\ masked_out self' w' /\
     (params_eqb p (last_parameters self) = false ->
      forall j i, get2d (gr_mask self) j i = Some true ->
        get2d (array (cached self' w')) j i = Some zero)).
Proof.
  intros Hz. split; [|split].
  - intros galaxy stamp survey w self w0 Hinit.
    destruct (GalaxyRenderer_init_facts _ _ _ _ _ _ Hinit)
      as (Hstamp & Hheap & Htrace & Hlast & Hmask).
    unfold lives_in, zero_under_mask, masked_out, cached.
    rewrite Hstamp, Hheap, Hmask, image_at_new. cbn [pictured array].
    split; [reflexivity|]. split; [reflexivity|].
    split; [intros j i; apply get2d_map2d|].
    split; [rewrite length_app; cbn; lia|].
    split.
    { intros j i v. rewrite get2d_map2d. intros Hm Hv.
      rewrite Hv in Hm. cbn in Hm. congruence. }
    split; [unfold same_shape; by rewrite shape_map2d|].
    intros j i. rewrite get2d_map2d. intros Hm.
    apply fmap_Some in Hm as (v & Hv & Hm). by exists v.
  - intros self df p w out self' w' Hin Hinv Hdraw.
    destruct (params_eqb p (last_parameters self)) eqn:Hp.
    + rewrite draw_hit in Hdraw by exact Hp. injection Hdraw as <- <- <-.
      unfold lives_in, zero_under_mask, cached in *. cbn [heap].
      split; [reflexivity|]. split; [rewrite length_app; lia|].
      intros j i v. rewrite image_at_app by done. apply Hinv.
    + rewrite draw_miss in Hdraw by done. injection Hdraw as <- <- <-.
      unfold lives_in, zero_under_mask, cached in *.
      cbn [heap gr_stamp gr_mask set_last_parameters].
      split; [reflexivity|].
      split; [rewrite length_app, length_insert; lia|].
      intros j i v Hm.
      rewrite image_at_app, image_at_insert by (rewrite ?length_insert; done).
      unfold masked. cbn [array]. rewrite get2d_assign_where, Hm.
      intros Hv. apply fmap_Some in Hv as (old & _ & ->). exact Hz.
  - intros self df p w out self' w' Hin [Hs Hc] Hdraw.
    rewrite draw_eq in Hdraw by exact Hin. injection Hdraw as <- <- <-.
    unfold masked_out. rewrite cached_after by exact Hin.
    destruct (masked_out_recached self p (cached self w) Hz Hs Hc)
      as (Hs' & Hc' & Hm').
    split; [reflexivity|].
    split.
    { unfold lives_in in *. cbn [heap gr_stamp set_last_parameters].
      rewrite length_app, length_insert. lia. }
    split; [split; [exact Hs'|exact Hc']|exact Hm'].
Qed.

(** *** Engine.render_galaxy, exit by exit *)

Lemma render_galaxy_faint (self : Engine) galaxy no_partials w :
  ltb (mul (getFlux (model galaxy)) (psf_dilution self)) (pixel_cut self) = true ->
  render_galaxy self galaxy no_partials w =
    (Raise SourceNotVisible,
     {| heap := heap w; trace := trace w ++ [CallGetFlux (model galaxy)] |}).
Proof.
  intros Hfaint. unfold render_galaxy. run. rewrite Hfaint. reflexivity.
Qed.

Lemma render_galaxy_empty (self : Engine) galaxy no_partials w :
  engine_in self w -> bright self galaxy ->
  count_true (keep_mask self galaxy w) = 0 ->
  render_galaxy self galaxy no_partials w =
    (Raise SourceNotVisible,
     {| heap := <[stamp self := rendered self galaxy w]> (heap w);
        trace := trace w ++ head_calls self galaxy w |}).
Proof.
  intros (Hs & Hi & Hne) Hbright Hempty. unfold render_galaxy, bright in *.
  unfold setOrigin, drawImage. run. rewrite Hbright. run.
  rewrite !image_at_insert by (rewrite ?length_insert; done).
  match goal with |- context [Nat.eqb (count_true ?k) 0] =>
    change k with (keep_mask self galaxy w) end.
  rewrite Hempty. cbn [Nat.eqb]. run.
  rewrite list_insert_insert_eq.
  f_equal. f_equal. rewrite <- !app_assoc. reflexivity.
Qed.

Lemma render_galaxy_outside (self : Engine) galaxy no_partials w :
  engine_in self w -> bright self galaxy ->
  count_true (keep_mask self galaxy w) <> 0 ->
  area (survey_overlap self galaxy w) = 0%Z ->
  render_galaxy self galaxy no_partials w =
    (Raise SourceNotVisible,
     {| heap := <[stamp self := thresholded self galaxy w]> (heap w);
        trace := trace w ++ head_calls self galaxy w |}).
Proof.
  intros (Hs & Hi & Hne) Hbright Hsome Hout. unfold render_galaxy, bright in *.
  unfold setOrigin, drawImage, zero_where, whole. run. rewrite Hbright. run.
  rewrite !image_at_insert by (rewrite ?length_insert; done).
  match goal with |- context [Nat.eqb (count_true ?k) 0] =>
    change k with (keep_mask self galaxy w) end.
  destruct (Nat.eqb_spec (count_true (keep_mask self galaxy w)) 0) as [|_];
    [done|].
  run.
  rewrite !image_at_insert by (rewrite ?length_insert; done).
  rewrite !list_insert_insert_eq.
  rewrite image_at_insert_ne by done.
  match goal with |- context [Z.eqb (area ?o) 0] =>
    change o with (survey_overlap self galaxy w) end.
  rewrite Hout. cbn [Z.eqb]. run.
  f_equal. f_equal. rewrite <- !app_assoc. reflexivity.
Qed.

Lemma render_galaxy_visible (self : Engine) galaxy no_partials w :
  engine_in self w -> bright self galaxy ->
  count_true (keep_mask self galaxy w) <> 0 ->
  area (survey_overlap self galaxy w) <> 0%Z ->
  render_galaxy self galaxy no_partials w =
    bind (build_datacube self (attached self galaxy w)
            (cropped_array self galaxy w) no_partials)
      (fun cube =>
         bind (report self galaxy (nominal_model self galaxy)
                 (xmin (bounding_box self galaxy))
                 (xmax (bounding_box self galaxy))
                 (ymin (bounding_box self galaxy))
                 (ymax (bounding_box self galaxy)))
           (fun _ => ret (snd cube, cropped_bounds self galaxy w, fst cube)))
      (world_attached self galaxy w).
Proof.
  intros (Hs & Hi & Hne) Hbright Hsome Hin. unfold render_galaxy, bright in *.
  unfold setOrigin, drawImage, zero_where, whole. run. rewrite Hbright. run.
  rewrite !image_at_insert by (rewrite ?length_insert; done).
  match goal with |- context [Nat.eqb (count_true ?k) 0] =>
    change k with (keep_mask self galaxy w) end.
  destruct (Nat.eqb_spec (count_true (keep_mask self galaxy w)) 0) as [|_];
    [done|].
  run.
  rewrite !image_at_insert by (rewrite ?length_insert; done).
  rewrite !list_insert_insert_eq.
  rewrite image_at_insert_ne by done.
  match goal with |- context [Z.eqb (area ?o) 0] =>
    change o with (survey_overlap self galaxy w) end.
  destruct (Z.eqb_spec (area (survey_overlap self galaxy w)) 0) as [|_];
    [done|].
  unfold iadd, view_array. run.
  rewrite GalaxyRenderer_init_eq. cbn [heap trace subImage v_image].
  rewrite !length_insert.
  rewrite !(image_at_insert_ne _ (image (survey self)) (stamp self)) by done.
  rewrite !image_at_insert by (rewrite ?length_insert; done).
  rewrite !image_at_app by (rewrite !length_insert; done).
  rewrite !(image_at_insert_ne _ (image (survey self)) (stamp self)) by done.
  rewrite !image_at_insert by (rewrite ?length_insert; done).
  rewrite !(image_at_insert_ne _ (stamp self) (image (survey self))) by done.
  unfold world_attached, bind.
  rewrite <- !app_assoc. reflexivity.
Qed.

(** *** The loop over the variations *)

Lemma image_copy_eq l w :
  image_copy l w =
    (Ok (length (heap w)),
     {| heap := heap w ++ [image_at (heap w) l]; trace := trace w |}).
Proof. reflexivity. Qed.

Lemma partials_cons i pname delta vs (r : GalaxyRenderer) cube w dfp pp dfm pm :
  lives_in r w ->
  keyword_arguments pname delta = Some (dfp, pp) ->
  keyword_arguments pname (neg delta) = Some (dfm, pm) ->
  exists plus r1 w1 pc w2 minus r2 w3 w4,
    draw r dfp pp w = (Ok (plus, r1), w1) /\
    image_copy plus w1 = (Ok pc, w2) /\
    draw r1 dfm pm w2 = (Ok (minus, r2), w3) /\
    partials ((i, (pname, delta)) :: vs) r cube w =
      partials vs r2
        (<[i + 1 := layer_of delta (image_at (heap w1) plus)
                                   (image_at (heap w3) minus)]> cube) w4 /\
    lives_in r2 w4 /\
    gr_stamp r2 = gr_stamp r /\
    (forall l, l < length (heap w) -> l <> gr_stamp r ->
               heap w4 !! l = heap w !! l) /\
    length (heap w) <= length (heap w4) /\
    bounds (cached r2 w4) = bounds (cached r w) /\
    same_shape (array (cached r2 w4)) (array (cached r w)) /\
    same_shape (layer_of delta (image_at (heap w1) plus)
                               (image_at (heap w3) minus))
               (array (cached r w)).
Proof.
  intros Hin Hplus Hminus.
  pose (s := gr_stamp r).
  pose (c1 := recached r pp (cached r w)).
  pose (r1 := set_last_parameters r (remembered r pp)).
  pose (t1 := trace w ++ (if params_eqb pp (last_parameters r) then []
                          else miss_calls r pp (bounds (cached r w)))).
  pose (h1 := <[s := c1]> (heap w) ++ [scaled (add one dfp) c1]).
  pose (h2 := h1 ++ [scaled (add one dfp) c1]).
  pose (c2 := recached r1 pm c1).
  pose (r2 := set_last_parameters r1 (remembered r1 pm)).
  pose (t3 := t1 ++ (if params_eqb pm (last_parameters r1) then []
                     else miss_calls r1 pm (bounds c1))).
  pose (h3 := <[s := c2]> h2 ++ [scaled (add one dfm) c2]).
  pose (h4 := h3 ++ [difference (scaled (add one dfp) c1)
                                (scaled (add one dfm) c2)]).
  assert (Hs : s < length (heap w)) by exact Hin.
  assert (Hl1 : length h1 = S (length (heap w))).
  { unfold h1. rewrite length_app, length_insert. cbn. lia. }
  assert (Hl2 : length h2 = S (S (length (heap w)))).
  { unfold h2. rewrite length_app, Hl1. cbn. lia. }
  assert (Hl3 : length h3 = S (S (S (length (heap w))))).
  { unfold h3. rewrite length_app, length_insert, Hl2. cbn. lia. }
  assert (Hplus_at : image_at h1 (length (heap w)) = scaled (add one dfp) c1).
  { unfold h1. rewrite <- (length_insert (heap w) s c1). apply image_at_new. }
  assert (Hc1 : image_at h2 s = c1).
  { unfold h2, h1. rewrite !image_at_app by (rewrite ?length_app, length_insert; lia).
    by apply image_at_insert. }
  assert (Hminus_at : image_at h3 (length h2) = scaled (add one dfm) c2).
  { unfold h3. rewrite <- (length_insert h2 s c2). apply image_at_new. }
  assert (Hcopy_at : image_at h3 (length h1) = scaled (add one dfp) c1).
  { unfold h3. rewrite image_at_app by (rewrite length_insert; lia).
    rewrite image_at_insert_ne by lia. unfold h2. apply image_at_new. }
  assert (Hc2 : image_at h4 s = c2).
  { unfold h4, h3. rewrite !image_at_app by (rewrite ?length_app, length_insert; lia).
    apply image_at_insert. lia. }
  assert (Hdraw1 : draw r dfp pp w =
            (Ok (length (heap w), r1), {| heap := h1; trace := t1 |})).
  { by rewrite draw_eq. }
  assert (Hdraw2 : draw r1 dfm pm {| heap := h2; trace := t1 |} =
            (Ok (length h2, r2), {| heap := h3; trace := t3 |})).
  { rewrite draw_eq by (unfold lives_in; cbn; fold s; lia).
    unfold cached. cbn [heap trace gr_stamp r1 set_last_parameters].
    fold s. by rewrite Hc1. }
  exists (length (heap w)), r1, {| heap := h1; trace := t1 |},
         (length h1), {| heap := h2; trace := t1 |},
         (length h2), r2, {| heap := h3; trace := t3 |},
         {| heap := h4; trace := t3 |}.
  split; [exact Hdraw1|].
  split; [by rewrite image_copy_eq; cbn [heap trace]; rewrite Hplus_at|].
  split; [exact Hdraw2|].
  cbn [heap trace]. rewrite Hplus_at, Hminus_at.
  split.
  { cbn [partials]. unfold draw_kw. rewrite Hplus, Hminus.
    unfold bind at 1. rewrite Hdraw1. cbn [fst snd].
    unfold bind at 1. rewrite image_copy_eq. cbn [heap trace].
    rewrite Hplus_at. fold h2.
    unfold bind at 1. rewrite Hdraw2. cbn [fst snd].
    unfold image_sub. run. rewrite Hcopy_at, Hminus_at.
    fold h4. unfold image_at at 1, h4.
    rewrite list_lookup_middle by done. reflexivity. }
  assert (Hb1 : bounds c1 = bounds (cached r w)) by apply recached_bounds.
  assert (Hb2 : bounds c2 = bounds c1) by apply recached_bounds.
  assert (Hsh1 : same_shape (array c1) (array (cached r w)))
    by apply recached_shape.
  assert (Hsh2 : same_shape (array c2) (array c1)) by apply recached_shape.
  unfold lives_in, cached in *. cbn [heap gr_stamp r2 r1 set_last_parameters].
  fold s in Hb1, Hsh1 |- *. rewrite Hc2.
  split; [unfold h4; rewrite length_app, Hl3; lia|].
  split; [done|].
  split.
  { intros l Hl Hne.
    unfold h4. rewrite lookup_app_l by lia.
    unfold h3. rewrite lookup_app_l by (rewrite length_insert; lia).
    rewrite list_lookup_insert_ne by done.
    unfold h2. rewrite lookup_app_l by lia.
    unfold h1. rewrite lookup_app_l by (rewrite length_insert; lia).
    by rewrite list_lookup_insert_ne. }
  split; [unfold h4; rewrite length_app, Hl3; lia|].
  split; [congruence|].
  unfold same_shape in *.
  split; [congruence|].
  unfold layer_of. rewrite shape_map2d. cbn [scaled array].
  rewrite shape_zip2d; rewrite !shape_map2d; congruence.
Qed.

Lemma partials_run vs : forall (r : GalaxyRenderer) cube w,
  lives_in r w ->
  Forall (fun iv => known iv.2) vs ->
  exists r' cube' w',
    partials vs r cube w = (Ok (r', cube'), w') /\
    lives_in r' w' /\
    gr_stamp r' = gr_stamp r /\
    (forall l, l < length (heap w) -> l <> gr_stamp r ->
               heap w' !! l = heap w !! l) /\
    length (heap w) <= length (heap w') /\
    bounds (cached r' w') = bounds (cached r w) /\
    same_shape (array (cached r' w')) (array (cached r w)) /\
    length cube' = length cube /\
    (forall j, j ∉ written vs -> cube' !! j = cube !! j) /\
    (forall j, j ∈ written vs -> j < length cube ->
       exists layer, cube' !! j = Some layer /\
                     same_shape layer (array (cached r w))).
Proof.
  induction vs as [|[i [pname delta]] vs IH]; intros r cube w Hin Hknown.
  - exists r, cube, w. cbn [partials]. unfold ret.
    repeat split; try done.
    intros j Hj. by apply elem_of_nil in Hj.
  - apply Forall_cons in Hknown as [(pp & pm & Hp & Hm) Hknown].
    cbn [fst snd] in Hp, Hm.
    destruct (partials_cons i pname delta vs r cube w _ _ _ _ Hin Hp Hm)
      as (plus & r1 & w1 & pc & w2 & minus & r2 & w3 & w4 & _ & _ & _ &
          Hstep & Hin4 & Hst & Hframe & Hlen & Hb & Hsh & Hlayer).
    destruct (IH r2 (<[i + 1 := layer_of delta (image_at (heap w1) plus)
                                   (image_at (heap w3) minus)]> cube)
                 w4 Hin4 Hknown)
      as (r' & cube' & w' & Hrun & Hin' & Hst' & Hframe' & Hlen' & Hb' &
          Hsh' & Hcl & Hkeep & Hset).
    exists r', cube', w'. rewrite Hstep.
    split; [exact Hrun|]. split; [exact Hin'|]. split; [congruence|].
    split.
    { intros l Hl Hne. rewrite Hframe' by (rewrite ?Hst; lia). by apply Hframe. }
    split; [lia|]. split; [congruence|].
    unfold same_shape in *.
    split; [congruence|].
    rewrite length_insert in Hcl. split; [exact Hcl|].
    unfold written in *. cbn [map fst].
    split.
    + intros j Hj. apply not_elem_of_cons in Hj as [Hne Hj].
      rewrite Hkeep by done. by rewrite list_lookup_insert_ne.
    + intros j Hj Hlt.
      destruct (decide (j ∈ map (fun iv : nat * (string * F) => iv.1 + 1) vs))
        as [Hlater|Hnot].
      * destruct (Hset j Hlater) as (layer & Hl & Hs).
        { by rewrite length_insert. }
        exists layer. split; [done|]. congruence.
      * apply elem_of_cons in Hj as [->|Hj]; [|done].
        rewrite Hkeep by done.
        rewrite list_lookup_insert_eq by done.
        eexists. split; [done|]. exact Hlayer.
Qed.

Lemma partials_app pre post : forall (r : GalaxyRenderer) cube w rk cubek wk,
  partials pre r cube w = (Ok (rk, cubek), wk) ->
  partials (pre ++ post) r cube w = partials post rk cubek wk.
Proof.
  induction pre as [|[i [pname delta]] pre IH];
    intros r cube w rk cubek wk Hpre.
  - cbn in Hpre. injection Hpre as <- <- <-. reflexivity.
  - cbn [partials app] in *. unfold image_copy, image_sub in *.
    unfold bind at 1. unfold bind at 1 in Hpre.
    destruct (draw_kw r pname delta w) as [[plus|e] w1]; [|discriminate].
    run. run in Hpre.
    destruct (draw_kw plus.2 pname (neg delta) _) as [[minus|e] w3];
      [|discriminate].
    cbn [heap trace]. cbn [heap trace] in Hpre.
    by apply IH.
Qed.

Lemma partials_layer pre i pname delta post (r : GalaxyRenderer) cube w pp pm :
  lives_in r w ->
  Forall (fun iv => known iv.2) pre ->
  Forall (fun iv => known iv.2) post ->
  keyword_arguments pname delta = Some (zero, pp) ->
  keyword_arguments pname (neg delta) = Some (zero, pm) ->
  i + 1 ∉ written post ->
  i + 1 < length cube ->
  exists rk cubek wk plus r1 w1 pc w2 minus r2 w3 r' cube' w',
    partials pre r cube w = (Ok (rk, cubek), wk) /\
    draw rk zero pp wk = (Ok (plus, r1), w1) /\
    image_copy plus w1 = (Ok pc, w2) /\
    draw r1 zero pm w2 = (Ok (minus, r2), w3) /\
    partials (pre ++ (i, (pname, delta)) :: post) r cube w =
      (Ok (r', cube'), w') /\
    cube' !! (i + 1) =
      Some (layer_of delta (image_at (heap w1) plus)
                           (image_at (heap w3) minus)).
Proof.
  intros Hin Hpre Hpost Hp Hm Hfree Hlt.
  destruct (partials_run pre r cube w Hin Hpre)
    as (rk & cubek & wk & Hrun & Hink & _ & _ & _ & _ & _ & Hlen & _).
  destruct (partials_cons i pname delta post rk cubek wk _ _ _ _ Hink Hp Hm)
    as (plus & r1 & w1 & pc & w2 & minus & r2 & w3 & w4 & Hd1 & Hc & Hd2 &
        Hstep & Hin4 & _).
  destruct (partials_run post r2
              (<[i + 1 := layer_of delta (image_at (heap w1) plus)
                                   (image_at (heap w3) minus)]> cubek)
              w4 Hin4 Hpost)
    as (r' & cube' & w' & Hrest & _ & _ & _ & _ & _ & _ & _ & Hkeep & _).
  exists rk, cubek, wk, plus, r1, w1, pc, w2, minus, r2, w3, r', cube', w'.
  repeat (split; [done|]).
  split.
  - by rewrite (partials_app pre _ r cube w rk cubek wk Hrun), Hstep.
  - rewrite Hkeep by done. apply list_lookup_insert_eq. lia.
Qed.

Lemma report_eq (self : Engine) galaxy m a b c d w :
  exists lines,
    report self galaxy m a b c d w =
      (Ok tt, {| heap := heap w; trace := trace w ++ lines |}).
Proof.
  destruct w as [h t]. unfold report. destruct (verbose_render self); run.
  - eexists. rewrite <- !app_assoc. reflexivity.
  - exists []. by rewrite app_nil_r.
Qed.

Lemma variations_known (self : Engine) :
  Forall (fun iv : nat * (string * F) => known iv.2)
         (enumerate (variations self)).
Proof.
  unfold enumerate, variations. cbn [imap].
  repeat (apply List.Forall_cons; [eexists _, _; split; reflexivity|]).
  apply List.Forall_nil.
Qed.

Lemma attached_cached (self : Engine) galaxy w :
  cached (attached self galaxy w) (world_attached self galaxy w) =
    pictured (cropped_stamp self galaxy w) (thresholded self galaxy w).
Proof.
  unfold cached, attached, world_attached. cbn [gr_stamp heap].
  rewrite <- (length_insert (heap w) (stamp self) (thresholded self galaxy w)).
  rewrite <- (length_insert _ (image (survey self)) (accumulated self galaxy w)).
  apply image_at_new.
Qed.

Lemma attached_lives (self : Engine) galaxy w :
  lives_in (attached self galaxy w) (world_attached self galaxy w).
Proof.
  unfold lives_in, attached, world_attached. cbn [gr_stamp heap].
  rewrite length_app, !length_insert. cbn. lia.
Qed.

Lemma render_galaxy_ok (self : Engine) galaxy no_partials w res w' :
  engine_in self w ->
  render_galaxy self galaxy no_partials w = (Ok res, w') ->
  bright self galaxy /\
  count_true (keep_mask self galaxy w) <> 0 /\
  area (survey_overlap self galaxy w) <> 0%Z.
Proof.
  intros Hin Hrun. unfold bright.
  destruct (ltb _ (pixel_cut self)) eqn:Hb.
  { by rewrite render_galaxy_faint in Hrun. }
  split; [done|].
  destruct (decide (count_true (keep_mask self galaxy w) = 0)) as [He|He].
  { by rewrite render_galaxy_empty in Hrun. }
  split; [done|].
  destruct (decide (area (survey_overlap self galaxy w) = 0%Z)) as [Ho|Ho].
  { by rewrite render_galaxy_outside in Hrun. }
  done.
Qed.

(** X19 (C1). When render_galaxy succeeds the datacube has 1 layer under
    no_partials and 6 otherwise; layer 0 is the cropped nominal stamp and
    every layer has its height and its row lengths.  For the variation k,
    one of (dx, pixel_scale/3), (dy, pixel_scale/3), (ds, 0.05),
    (dg1, 0.03), (dg2, 0.03), layer k+1 is the difference of the images
    that the attached renderer draws with +delta and with -delta in that
    place and 0 in the others, divided by 2*delta; the two draws are the
    ones that the loop makes after its first k rounds. *)
Theorem datacube_layers (self : Engine) galaxy no_partials w cube cb r w' :
  engine_in self w ->
  render_galaxy self galaxy no_partials w = (Ok (cube, cb, r), w') ->
  let nominal := cropped_array self galaxy w in
  length cube = (if no_partials then 1 else 6) /\
  cube !! 0 = Some nominal /\
  Forall (fun layer => same_shape layer nominal) cube /\
  variations self =
    [ ("dx", div (pixel_scale (survey self)) (lit 3));
      ("dy", div (pixel_scale (survey self)) (lit 3));
      ("ds", lit (5 # 100)); ("dg1", lit (3 # 100));
      ("dg2", lit (3 # 100)) ]%string /\
  (no_partials = false ->
   forall k pname delta,
     variations self !! k = Some (pname, delta) ->
     exists cube0 rk cubek wk plus r1 w1 pc w2 minus r2 w3,
       partials (take k (enumerate (variations self)))
                (attached self galaxy w) cube0
                (world_attached self galaxy w) = (Ok (rk, cubek), wk) /\
       draw rk zero (only k delta) wk = (Ok (plus, r1), w1) /\
       image_copy plus w1 = (Ok pc, w2) /\
       draw r1 zero (only k (neg delta)) w2 = (Ok (minus, r2), w3) /\
       cube !! (k + 1) =
         Some (layer_of delta (image_at (heap w1) plus)
                              (image_at (heap w3) minus))).
Proof.
  intros Hin Hrun nominal.
  destruct (render_galaxy_ok _ _ _ _ _ _ Hin Hrun) as (Hb & Hk & Ho).
  rewrite render_galaxy_visible in Hrun by done.
  pose proof (attached_lives self galaxy w) as Hlives.
  pose proof (attached_cached self galaxy w) as Hcached.
  unfold bind in Hrun.
  destruct no_partials.
  - unfold build_datacube in Hrun. cbn [negb] in Hrun. unfold ret in Hrun.
    destruct (report_eq self galaxy (nominal_model self galaxy)
      (xmin (bounding_box self galaxy)) (xmax (bounding_box self galaxy))
      (ymin (bounding_box self galaxy)) (ymax (bounding_box self galaxy))
      (world_attached self galaxy w)) as (lines & Hreport).
    rewrite Hreport in Hrun. cbn [fst snd] in Hrun.
    injection Hrun as <- <- <- <-.
    cbn [replicate]. cbn.
    split; [done|]. split; [done|]. split; [by repeat constructor|].
    split; [done|]. discriminate.
  - unfold build_datacube in Hrun. cbn [negb] in Hrun.
    set (cube0 := <[0 := cropped_array self galaxy w]> _) in Hrun.
    assert (Hl0 : length cube0 = 6).
    { unfold cube0. rewrite length_insert, length_replicate.
      unfold variations. reflexivity. }
    destruct (partials_run (enumerate (variations self))
                (attached self galaxy w) cube0 (world_attached self galaxy w)
                Hlives (variations_known self))
      as (r' & cube' & w1 & Hloop & _ & _ & _ & _ & _ & _ & Hlen & Hkeep & Hset).
    rewrite Hloop in Hrun.
    destruct (report_eq self galaxy (nominal_model self galaxy)
      (xmin (bounding_box self galaxy)) (xmax (bounding_box self galaxy))
      (ymin (bounding_box self galaxy)) (ymax (bounding_box self galaxy))
      w1) as (lines & Hreport).
    rewrite Hreport in Hrun. cbn [fst snd] in Hrun.
    injection Hrun as <- <- <- <-.
    rewrite Hcached in Hset. cbn [pictured array] in Hset.
    fold (cropped_array self galaxy w) in Hset. fold nominal in Hset.
    assert (Hw : written (enumerate (variations self)) = [1; 2; 3; 4; 5])
      by reflexivity.
    rewrite Hw in Hkeep, Hset.
    assert (H0 : cube' !! 0 = Some nominal).
    { rewrite Hkeep by (rewrite !elem_of_cons, elem_of_nil; lia).
      unfold cube0. apply list_lookup_insert_eq.
      rewrite length_replicate. unfold variations. cbn. lia. }
    split; [congruence|]. split; [exact H0|].
    split.
    { apply Forall_lookup. intros j layer Hj.
      destruct j as [|j].
      - rewrite H0 in Hj. by injection Hj as <-.
      - assert (Hjlt : S j < 6).
        { rewrite <- Hl0, <- Hlen. by apply lookup_lt_Some in Hj. }
        destruct (Hset (S j)) as (layer' & Hl' & Hs).
        + rewrite !elem_of_cons. lia.
        + lia.
        + congruence. }
    split; [reflexivity|].
    intros _ k pname delta Hv.
    assert (Hcases : k < 5).
    { apply lookup_lt_Some in Hv. unfold variations in Hv. cbn in Hv. lia. }
    exists cube0.
    assert (Hsplit : enumerate (variations self) =
              take k (enumerate (variations self))
              ++ (k, (pname, delta)) :: drop (S k) (enumerate (variations self))).
    { rewrite <- (take_drop_middle (enumerate (variations self)) k (k, (pname, delta))) at 1.
      - reflexivity.
      - unfold enumerate. rewrite list_lookup_imap, Hv. reflexivity. }
    assert (Hargs : keyword_arguments pname delta = Some (zero, only k delta) /\
                    keyword_arguments pname (neg delta)
                    = Some (zero, only k (neg delta))).
    { unfold variations in Hv.
      do 5 (destruct k as [|k]; [injection Hv as <- <-; split; reflexivity|]).
      lia. }
    destruct Hargs as [Hp Hm].
    pose proof (variations_known self) as Hknown.
    rewrite Hsplit in Hknown. apply Forall_app in Hknown as [Hpre Hpost].
    apply Forall_cons in Hpost as [_ Hpost].
    destruct (partials_layer (take k (enumerate (variations self)))
                k pname delta (drop (S k) (enumerate (variations self)))
                (attached self galaxy w) cube0 (world_attached self galaxy w)
                _ _ Hlives Hpre Hpost Hp Hm)
      as (rk & cubek & wk & plus & r1 & w1' & pc & w2 & minus & r2 & w3 &
          r'' & cube'' & w'' & Hprefix & Hd1 & Hc & Hd2 & Hall & Hlayer).
    + unfold written, enumerate, variations. cbn [imap].
      do 5 (destruct k as [|k];
            [cbn; rewrite ?elem_of_cons, elem_of_nil; lia|]).
      lia.
    + lia.
    + rewrite <- Hsplit, Hloop in Hall. injection Hall as <- <- <-.
      exists rk, cubek, wk, plus, r1, w1', pc, w2, minus, r2, w3.
      done.
Qed.
(** *** Engine.__init__ *)

Lemma Engine_init_facts survey min_snr truncate_radius no_margin verbose w0 (self : Engine) w1 :
  Engine_init survey min_snr truncate_radius no_margin verbose w0 = (Ok self, w1) ->
  let p := padding_for survey truncate_radius in
  (0 <= p)%Z /\
  self = {| survey := survey; min_snr := min_snr;
            truncate_radius := truncate_radius;
            no_margin := no_margin; verbose_render := verbose;
            pixel_cut := mul min_snr (sqrt (mean_sky_level survey));
            galsim_params := maximum_fft_size;
            psf_dilution :=
              default zero
                (get2d (array (redrawn (psf_model survey)
                                 (blank 1 1 (pixel_scale survey)))) 0 0);
            padding := p;
            stamp := S (length (heap w0));
            truncation_mask :=
              map (fun y => map (fun x =>
                     leb (sqrt (add (mul x x) (mul y y))) truncate_radius)
                     (map (fun k => mul (of_Z k) (pixel_scale survey))
                          (seqZ (- p) (2 * p + 1))))
                  (map (fun k => mul (of_Z k) (pixel_scale survey))
                       (seqZ (- p) (2 * p + 1))) |} /\
  w1 = {| heap := heap w0
                  ++ [redrawn (psf_model survey) (blank 1 1 (pixel_scale survey))]
                  ++ [blank (2 * p + 1) (2 * p + 1) (pixel_scale survey)];
          trace := trace w0 ++
                   [CallDrawImage (psf_model survey) (mkBoundsI 1 1 1 1)] |}.
Proof.
  intros Hinit p. unfold Engine_init, new_image, drawImage in Hinit.
  cbn [Z.leb orb Z.compare] in Hinit. run in Hinit.
  fold (padding_for survey truncate_radius) in Hinit. fold p in Hinit.
  rewrite image_at_new, insert_new, image_at_new in Hinit.
  destruct (Z.leb_spec (2 * p + 1) 0) as [Hneg|Hpos].
  { cbn in Hinit. discriminate. }
  cbn [orb] in Hinit. run in Hinit.
  injection Hinit as <- <-. split; [lia|].
  rewrite length_app. cbn [length]. rewrite Nat.add_1_r.
  split; [reflexivity|].
  by rewrite <- app_assoc.
Qed.

(** X20 (C2). For an engine built by the constructor, pixel_cut is
    min_snr * sqrt(mean_sky_level), and a galaxy whose flux times
    psf_dilution is below it makes render_galaxy raise SourceNotVisible
    with the store unchanged and the flux query as its only call: nothing
    is drawn and nothing else is asked of the galaxy. *)
Theorem faint_galaxy_is_skipped survey min_snr truncate_radius no_margin
    verbose w0 (self : Engine) w1 galaxy no_partials w :
  Engine_init survey min_snr truncate_radius no_margin verbose w0
    = (Ok self, w1) ->
  ltb (mul (getFlux (model galaxy)) (psf_dilution self))
      (mul min_snr (sqrt (mean_sky_level survey))) = true ->
  pixel_cut self = mul min_snr (sqrt (mean_sky_level survey)) /\
  render_galaxy self galaxy no_partials w =
    (Raise SourceNotVisible,
     {| heap := heap w; trace := trace w ++ [CallGetFlux (model galaxy)] |}).
Proof.
  intros Hinit Hfaint.
  destruct (Engine_init_facts _ _ _ _ _ _ _ _ Hinit) as (_ & Hself & _).
  assert (Hcut : pixel_cut self = mul min_snr (sqrt (mean_sky_level survey)))
    by (by rewrite Hself).
  split; [exact Hcut|].
  apply render_galaxy_faint. by rewrite Hcut.
Qed.

Lemma render_galaxy_no_margin b (self : Engine) galaxy no_partials w :
  render_galaxy (with_no_margin b self) galaxy no_partials w =
  render_galaxy self galaxy no_partials w.
Proof. reflexivity. Qed.

(** X24 (C9). Two engines built from the same arguments but opposite no_margin
    flags differ in that field only; the constructor leaves the same world,
    description gives the same numbers, and render_galaxy gives the same
    result and the same world for every galaxy, setting and world. *)
Theorem no_margin_is_never_read survey min_snr truncate_radius no_margin
    verbose w0 :
  let one_way :=
    Engine_init survey min_snr truncate_radius no_margin verbose w0 in
  let other_way :=
    Engine_init survey min_snr truncate_radius (negb no_margin) verbose w0 in
  snd one_way = snd other_way /\
  match fst one_way, fst other_way with
  | Ok e1, Ok e2 =>
      e2 = with_no_margin (negb no_margin) e1 /\
      description e1 = description e2 /\
      forall galaxy no_partials w,
        render_galaxy e1 galaxy no_partials w =
        render_galaxy e2 galaxy no_partials w
  | Raise x, Raise y => x = y
  | _, _ => False
  end.
Proof.
  intros one_way other_way.
  destruct one_way as [[e1|x] w1] eqn:H1; destruct other_way as [[e2|y] w2] eqn:H2;
    unfold one_way, other_way in *; cbn [fst snd].
  - destruct (Engine_init_facts _ _ _ _ _ _ _ _ H1) as (_ & -> & ->).
    destruct (Engine_init_facts _ _ _ _ _ _ _ _ H2) as (_ & -> & ->).
    split; [reflexivity|]. split; [reflexivity|]. split; [reflexivity|].
    intros galaxy no_partials w. reflexivity.
  - unfold Engine_init, new_image, drawImage in H1, H2.
    cbn [Z.leb orb Z.compare] in H1, H2. run in H1. run in H2.
    destruct (_ <=? 0)%Z; cbn [orb] in H1, H2; run in H1; run in H2;
      discriminate.
  - unfold Engine_init, new_image, drawImage in H1, H2.
    cbn [Z.leb orb Z.compare] in H1, H2. run in H1. run in H2.
    destruct (_ <=? 0)%Z; cbn [orb] in H1, H2; run in H1; run in H2;
      discriminate.
  - unfold Engine_init, new_image, drawImage in H1, H2.
    cbn [Z.leb orb Z.compare] in H1, H2. run in H1. run in H2.
    destruct (_ <=? 0)%Z; cbn [orb] in H1, H2; run in H1; run in H2;
      [|discriminate].
    injection H1 as <- <-. injection H2 as <- <-. done.
Qed.
Lemma Engine_init_ok sv min_snr truncate_radius no_margin verbose w0
    (self : Engine) w1 :
  Engine_init sv min_snr truncate_radius no_margin verbose w0
    = (Ok self, w1) ->
  image sv < length (heap w0) ->
  engine_ok self w1.
Proof.
  intros Hinit Himage.
  destruct (Engine_init_facts _ _ _ _ _ _ _ _ Hinit) as (Hp & -> & ->).
  unfold engine_ok, engine_in.
  cbn [stamp survey padding truncation_mask heap].
  set (p := padding_for sv truncate_radius) in *.
  rewrite !length_app. cbn [length].
  split; [repeat split; lia|]. split; [done|].
  split.
  - replace (S (length (heap w0))) with (length (heap w0 ++ [redrawn (psf_model sv) (blank 1 1 (pixel_scale sv))])).
    2:{ rewrite length_app. cbn. lia. }
    rewrite app_assoc, image_at_new. apply has_shape_replicate.
  - split.
    + by rewrite !length_fmap, length_seqZ.
    + apply Forall_fmap, Forall_forall. intros y _. cbn.
      by rewrite !length_fmap, length_seqZ.
Qed.

(** *** The stages of render_galaxy on a well-formed engine *)
Lemma rendered_shape (self : Engine) galaxy w :
  map length (array (rendered self galaxy w))
  = map length (array (image_at (heap w) (stamp self))).
Proof. unfold rendered. cbn [redrawn moved array]. apply shape_imap2d. Qed.

Lemma keep_mask_shape (self : Engine) galaxy w :
  engine_ok self w ->
  let n := Z.to_nat (2 * padding self + 1) in
  has_shape n n (array (rendered self galaxy w)) /\
  has_shape n n (keep_mask self galaxy w) /\
  has_shape n n (array (thresholded self galaxy w)).
Proof.
  intros (_ & Hp & Hs & Hm) n. fold n in Hs, Hm.
  assert (Hr : has_shape n n (array (rendered self galaxy w))).
  { eapply has_shape_same; [apply rendered_shape|done]. }
  split; [done|].
  assert (Hk : has_shape n n (keep_mask self galaxy w)).
  { eapply has_shape_same; [|exact Hr].
    unfold keep_mask, keep_mask_of. apply shape_zip2d.
    apply has_shape_map_length in Hr, Hm. congruence. }
  split; [done|].
  eapply has_shape_same; [|exact Hr].
  unfold thresholded. cbn [masked array]. apply shape_assign_where.
Qed.

Lemma keep_mask_cell (self : Engine) galaxy w j i v :
  engine_ok self w ->
  get2d (array (rendered self galaxy w)) j i = Some v ->
  exists m, get2d (truncation_mask self) j i = Some m /\
            get2d (keep_mask self galaxy w) j i
            = Some (gtb (mul v (of_bool m)) (pixel_cut self)).
Proof.
  intros Hok Hv.
  destruct (keep_mask_shape self galaxy w Hok) as (Hr & _ & _).
  destruct Hok as (_ & _ & _ & Hm).
  assert (Hin : j < Z.to_nat (2 * padding self + 1)
                /\ i < Z.to_nat (2 * padding self + 1)).
  { eapply get2d_shape; [exact Hr|]. eauto. }
  destruct (proj2 (get2d_shape _ _ _ j i Hm) Hin) as [m Hmask].
  exists m. split; [done|].
  unfold keep_mask, keep_mask_of. by rewrite get2d_zip2d, Hv, Hmask.
Qed.

Lemma thresholded_cell (self : Engine) galaxy w j i v :
  engine_ok self w ->
  get2d (array (rendered self galaxy w)) j i = Some v ->
  exists k, get2d (keep_mask self galaxy w) j i = Some k /\
            get2d (array (thresholded self galaxy w)) j i
            = Some (if k then v else zero).
Proof.
  intros Hok Hv.
  destruct (keep_mask_cell self galaxy w j i v Hok Hv) as (m & _ & Hk).
  eexists. split; [exact Hk|].
  unfold thresholded. cbn [masked array].
  rewrite get2d_assign_where, get2d_map2d, Hk, Hv. cbn.
  by destruct (gtb _ _).
Qed.

Lemma render_galaxy_succeeds (self : Engine) galaxy no_partials w :
  engine_in self w -> bright self galaxy ->
  count_true (keep_mask self galaxy w) <> 0 ->
  area (survey_overlap self galaxy w) <> 0%Z ->
  exists cube r w',
    render_galaxy self galaxy no_partials w
      = (Ok (cube, cropped_bounds self galaxy w, r), w') /\
    heap w' !! stamp self = Some (thresholded self galaxy w) /\
    heap w' !! image (survey self) = Some (accumulated self galaxy w) /\
    (forall l, l < length (heap w) -> l <> stamp self ->
               l <> image (survey self) -> heap w' !! l = heap w !! l).
Proof.
  intros Hin Hb Hk Ho. pose proof Hin as (Hs & Hi & Hne).
  rewrite render_galaxy_visible by done.
  pose proof (attached_lives self galaxy w) as Hlives.
  assert (Hbase : forall l, l < length (heap w) ->
            heap (world_attached self galaxy w) !! l =
            (<[image (survey self) := accumulated self galaxy w]>
               (<[stamp self := thresholded self galaxy w]> (heap w))) !! l).
  { intros l Hl. unfold world_attached. cbn [heap].
    apply lookup_app_l. by rewrite !length_insert. }
  assert (Hloop : exists r cube w1,
            build_datacube self (attached self galaxy w)
              (cropped_array self galaxy w) no_partials
              (world_attached self galaxy w) = (Ok (r, cube), w1) /\
            forall l, l < length (heap w) ->
              heap w1 !! l = heap (world_attached self galaxy w) !! l).
  { unfold build_datacube. destruct no_partials; cbn [negb].
    - eexists _, _, _. split; [reflexivity|done].
    - destruct (partials_run (enumerate (variations self))
                  (attached self galaxy w)
                  (<[0 := cropped_array self galaxy w]>
                     (replicate (1 + length (variations self))
                        (replicate (length (cropped_array self galaxy w))
                           (replicate (width (cropped_array self galaxy w))
                              zero))))
                  (world_attached self galaxy w)
                  Hlives (variations_known self))
        as (r' & cube' & w1 & Hrun & _ & _ & Hframe & _).
      exists r', cube', w1. split; [exact Hrun|].
      intros l Hl. apply Hframe.
      + unfold world_attached. cbn [heap].
        rewrite length_app, !length_insert. lia.
      + unfold attached. cbn [gr_stamp]. lia. }
  destruct Hloop as (r & cube & w1 & Hrun & Hframe).
  destruct (report_eq self galaxy (nominal_model self galaxy)
      (xmin (bounding_box self galaxy)) (xmax (bounding_box self galaxy))
      (ymin (bounding_box self galaxy)) (ymax (bounding_box self galaxy))
      w1) as (lines & Hreport).
  exists cube, r, {| heap := heap w1; trace := trace w1 ++ lines |}.
  unfold bind. rewrite Hrun, Hreport. cbn [fst snd heap].
  split; [reflexivity|].
  split.
  { rewrite Hframe, Hbase by done.
    rewrite list_lookup_insert_ne by done.
    by apply list_lookup_insert_eq. }
  split.
  { rewrite Hframe, Hbase by done.
    apply list_lookup_insert_eq. by rewrite length_insert. }
  intros l Hl Hn1 Hn2. rewrite Hframe, Hbase by done.
  by rewrite !list_lookup_insert_ne.
Qed.
Lemma truncation_mask_cell sv min_snr truncate_radius no_margin verbose w0
    (self : Engine) w1 j i m :
  Engine_init sv min_snr truncate_radius no_margin verbose w0
    = (Ok self, w1) ->
  get2d (truncation_mask self) j i = Some m ->
  m = within_radius sv truncate_radius (padding self) j i.
Proof.
  intros Hinit Hm.
  destruct (Engine_init_facts _ _ _ _ _ _ _ _ Hinit) as (Hp & -> & _).
  cbn [truncation_mask padding] in *.
  set (p := padding_for sv truncate_radius) in *.
  unfold get2d in Hm. rewrite !list_lookup_fmap in Hm.
  destruct (seqZ (- p) (2 * p + 1) !! j) as [kj|] eqn:Hj; [|discriminate].
  cbn in Hm. rewrite !list_lookup_fmap in Hm.
  destruct (seqZ (- p) (2 * p + 1) !! i) as [ki|] eqn:Hi; [|discriminate].
  cbn in Hm. injection Hm as <-.
  apply lookup_seqZ in Hj as [-> _]. apply lookup_seqZ in Hi as [-> _].
  reflexivity.
Qed.

(** X21 (C3). On a well-formed engine and a galaxy that passes the pre-filter,
    the cell (j,i) of keep_mask is the test
    stamp[j][i] * truncation_mask[j][i] > pixel_cut, where the truncation
    mask of a constructed engine is the test of the pixel offsets against
    truncate_radius.  If the mask has no true cell render_galaxy raises
    SourceNotVisible with the stamp as it was drawn; if it has one,
    render_galaxy goes on, raises only when the overlap with the field is
    empty, and leaves every stamp pixel outside the mask at zero and every
    pixel inside it at its drawn value. *)
Theorem threshold_and_truncate (self : Engine) galaxy no_partials w :
  engine_ok self w -> bright self galaxy ->
  let R := array (rendered self galaxy w) in
  let K := keep_mask self galaxy w in
  (forall j i v, get2d R j i = Some v ->
     exists m, get2d (truncation_mask self) j i = Some m /\
               get2d K j i = Some (gtb (mul v (of_bool m)) (pixel_cut self))) /\
  (forall sv min_snr truncate_radius no_margin verbose w0 w1,
     Engine_init sv min_snr truncate_radius no_margin verbose w0
       = (Ok self, w1) ->
     forall j i m, get2d (truncation_mask self) j i = Some m ->
       m = within_radius sv truncate_radius (padding self) j i) /\
  ((forall j i, get2d K j i <> Some true) ->
     render_galaxy self galaxy no_partials w =
       (Raise SourceNotVisible,
        {| heap := <[stamp self := rendered self galaxy w]> (heap w);
           trace := trace w ++ head_calls self galaxy w |})) /\
  ((exists j i, get2d K j i = Some true) ->
     exists res w',
       render_galaxy self galaxy no_partials w = (res, w') /\
       (res = Raise SourceNotVisible
        <-> area (survey_overlap self galaxy w) = 0%Z) /\
       (forall j i v, get2d R j i = Some v ->
          exists k, get2d K j i = Some k /\
                    get2d (array (image_at (heap w') (stamp self))) j i
                    = Some (if k then v else zero))).
Proof.
  intros Hok Hb R K. pose proof Hok as (Hin & _). pose proof Hin as (Hs & _).
  split; [intros j i v; by apply keep_mask_cell|].
  split.
  { intros sv ms tr nm vb w0 w1 Hinit j i m. by apply truncation_mask_cell with ms nm vb w0 w1. }
  split.
  { intros Hnone. apply render_galaxy_empty; [done..|]. by apply count_true_zero. }
  intros Hsome. apply some_true_cell in Hsome.
  destruct (decide (area (survey_overlap self galaxy w) = 0%Z)) as [Ho|Ho].
  - eexists _, _. split; [by apply render_galaxy_outside|].
    split; [done|]. cbn [heap].
    intros j i v Hv. rewrite image_at_insert by done.
    by apply thresholded_cell.
  - destruct (render_galaxy_succeeds self galaxy no_partials w Hin Hb Hsome Ho)
      as (cube & r & w' & Hrun & Hstamp & _).
    eexists _, w'. split; [exact Hrun|]. split; [split; [discriminate|done]|].
    intros j i v Hv. unfold image_at. rewrite Hstamp. cbn [default].
    by apply thresholded_cell.
Qed.

Lemma bounding_box_extent (self : Engine) galaxy :
  (0 <= padding self)%Z ->
  let b := bounding_box self galaxy in
  let n := Z.to_nat (2 * padding self + 1) in
  xmax b = (xmin b + Z.of_nat n - 1)%Z /\ ymax b = (ymin b + Z.of_nat n - 1)%Z.
Proof. intros Hp b n. unfold b, n, bounding_box. cbn. lia. Qed.

Lemma cropped_bounds_tight (self : Engine) galaxy w :
  engine_ok self w ->
  count_true (keep_mask self galaxy w) <> 0 ->
  let b := bounding_box self galaxy in
  let cb := cropped_bounds self galaxy w in
  let K := keep_mask self galaxy w in
  isDefined cb = true /\
  (xmin b <= xmin cb /\ xmax cb <= xmax b)%Z /\
  (ymin b <= ymin cb /\ ymax cb <= ymax b)%Z /\
  (forall j i, get2d K j i = Some true ->
     (xmin cb <= xmin b + Z.of_nat i <= xmax cb)%Z /\
     (ymin cb <= ymin b + Z.of_nat j <= ymax cb)%Z) /\
  (exists j, get2d K j (Z.to_nat (xmin cb - xmin b)) = Some true) /\
  (exists j, get2d K j (Z.to_nat (xmax cb - xmin b)) = Some true) /\
  (exists i, get2d K (Z.to_nat (ymin cb - ymin b)) i = Some true) /\
  (exists i, get2d K (Z.to_nat (ymax cb - ymin b)) i = Some true).
Proof.
  intros Hok Hsome. apply some_true_cell in Hsome.
  destruct (keep_mask_shape self galaxy w Hok) as (_ & HK & _).
  destruct Hok as (_ & Hp & _).
  destruct (bounding_box_extent self galaxy Hp) as [Hx Hy].
  pose proof (crop_tight (xmin (bounding_box self galaxy))
                (ymin (bounding_box self galaxy)) _ _ _ HK Hsome) as Hc.
  cbv zeta in Hc. rewrite <- Hx, <- Hy in Hc. exact Hc.
Qed.

(** X22 (C4). When render_galaxy succeeds on a well-formed engine the bounds it
    returns are the tight bounding box of keep_mask: they lie inside the
    box of the stamp, they include every kept pixel, hence (with v*1 = v)
    every pixel of the truncation disk above pixel_cut, and each of their
    four boundary lines holds a kept pixel. *)
Theorem cropped_bounds_are_tight (self : Engine) galaxy no_partials w
    cube cb r w' :
  engine_ok self w ->
  render_galaxy self galaxy no_partials w = (Ok (cube, cb, r), w') ->
  let b := bounding_box self galaxy in
  let R := array (rendered self galaxy w) in
  let K := keep_mask self galaxy w in
  cb = cropped_bounds self galaxy w /\
  isDefined cb = true /\
  (xmin b <= xmin cb /\ xmax cb <= xmax b)%Z /\
  (ymin b <= ymin cb /\ ymax cb <= ymax b)%Z /\
  (forall j i, get2d K j i = Some true ->
     includes cb (xmin b + Z.of_nat i) (ymin b + Z.of_nat j) = true) /\
  ((forall v, mul v one = v) ->
   forall j i v,
     get2d R j i = Some v ->
     get2d (truncation_mask self) j i = Some true ->
     gtb v (pixel_cut self) = true ->
     includes cb (xmin b + Z.of_nat i) (ymin b + Z.of_nat j) = true) /\
  (exists j, get2d K j (Z.to_nat (xmin cb - xmin b)) = Some true) /\
  (exists j, get2d K j (Z.to_nat (xmax cb - xmin b)) = Some true) /\
  (exists i, get2d K (Z.to_nat (ymin cb - ymin b)) i = Some true) /\
  (exists i, get2d K (Z.to_nat (ymax cb - ymin b)) i = Some true).
Proof.
  intros Hok Hrun b R K. pose proof Hok as (Hin & _).
  destruct (render_galaxy_ok _ _ _ _ _ _ Hin Hrun) as (Hb & Hk & Ho).
  destruct (render_galaxy_succeeds self galaxy no_partials w Hin Hb Hk Ho)
    as (cube' & r' & w'' & Hrun' & _).
  rewrite Hrun' in Hrun. injection Hrun as _ <- _ _.
  destruct (cropped_bounds_tight self galaxy w Hok Hk)
    as (Hdef & Hxs & Hys & Hall & Hx1 & Hx2 & Hy1 & Hy2).
  fold b K in Hxs, Hys, Hall, Hx1, Hx2, Hy1, Hy2.
  assert (Hinc : forall j i, get2d K j i = Some true ->
            includes (cropped_bounds self galaxy w)
              (xmin b + Z.of_nat i) (ymin b + Z.of_nat j) = true).
  { intros j i Hji. destruct (Hall j i Hji) as [Hxi Hyj].
    unfold includes. rewrite Hdef.
    repeat (apply andb_true_iff; split); try done; apply Z.leb_le; lia. }
  split; [done|]. split; [done|]. split; [done|]. split; [done|].
  split; [done|]. split; [|done].
  intros Hone j i v Hv Hm Hgt. apply (Hinc j i).
  destruct (keep_mask_cell self galaxy w j i v Hok Hv) as (m & Hm' & HK).
  fold K in HK. rewrite HK. rewrite Hm in Hm'. injection Hm' as <-.
  cbn [of_bool]. by rewrite Hone, Hgt.
Qed.
Lemma accumulated_cell (self : Engine) galaxy w r c v :
  engine_ok self w ->
  count_true (keep_mask self galaxy w) <> 0 ->
  area (survey_overlap self galaxy w) <> 0%Z ->
  let field := image_at (heap w) (image (survey self)) in
  let b := bounding_box self galaxy in
  let x := (xmin (bounds field) + Z.of_nat c)%Z in
  let y := (ymin (bounds field) + Z.of_nat r)%Z in
  get2d (array field) r c = Some v ->
  if includes (survey_overlap self galaxy w) x y
  then exists t,
         get2d (array (thresholded self galaxy w))
               (Z.to_nat (y - ymin b)) (Z.to_nat (x - xmin b)) = Some t /\
         get2d (array (accumulated self galaxy w)) r c = Some (add v t)
  else get2d (array (accumulated self galaxy w)) r c = Some v.
Proof.
  intros Hok Hsome Harea field b x y Hv.
  destruct (cropped_bounds_tight self galaxy w Hok Hsome)
    as (Hdef & Hxs & Hys & _).
  destruct (keep_mask_shape self galaxy w Hok) as (_ & _ & HT).
  pose proof Hok as (_ & Hp & _).
  destruct (bounding_box_extent self galaxy Hp) as [Hbx Hby].
  fold b in Hxs, Hys, Hbx, Hby.
  set (n := Z.to_nat (2 * padding self + 1)) in *.
  unfold survey_overlap in *. fold field in Harea |- *.
  set (cb := cropped_bounds self galaxy w) in *.
  set (B := bounds field) in *.
  apply area_bounds_and in Harea
    as (Hodef & Hox1 & Hox2 & Hoy1 & Hoy2 & Hox & Hoy).
  set (ov := bounds_and cb B) in *.
  unfold accumulated, added. cbn [array].
  rewrite get2d_imap2d. fold field. rewrite Hv. cbn [fmap option_fmap option_map].
  unfold survey_overlap. fold field cb B ov.
  cbn [subImage v_row0 v_col0 v_bounds].
  unfold nrow, ncol.
  destruct (includes ov x y) eqn:Hinc.
  - apply includes_true in Hinc as (_ & Hx & Hy). unfold x, y in Hx, Hy.
    rewrite bool_decide_eq_true_2 by lia.
    unfold seen, cropped_stamp. fold cb.
    cbn [subImage v_row0 v_col0 v_bounds]. unfold nrow, ncol.
    rewrite get2d_window by lia.
    unfold rendered. cbn [redrawn moved bounds xmin ymin]. fold b.
    replace (0 + Z.to_nat (ymin cb - ymin b) + Z.to_nat (ymin ov - ymin cb)
             + (r - (0 + Z.to_nat (ymin ov - ymin B))))
      with (Z.to_nat (y - ymin b)) by (unfold y; lia).
    replace (0 + Z.to_nat (xmin cb - xmin b) + Z.to_nat (xmin ov - xmin cb)
             + (c - (0 + Z.to_nat (xmin ov - xmin B))))
      with (Z.to_nat (x - xmin b)) by (unfold x; lia).
    destruct (proj2 (get2d_shape n n _ (Z.to_nat (y - ymin b))
                       (Z.to_nat (x - xmin b)) HT)) as [t Ht].
    { unfold x, y, n. lia. }
    exists t. by rewrite Ht.
  - rewrite bool_decide_eq_false_2; [done|].
    intros [Hr Hc]. apply not_true_iff_false in Hinc. apply Hinc.
    apply includes_true. unfold x, y. split; [done|]. lia.
Qed.

(** X23 (C5). On a well-formed engine, a galaxy whose box misses the bounds of
    the field image makes render_galaxy raise SourceNotVisible.  For a
    galaxy that reaches the accumulation step: when the cropped bounds and
    the bounds of the field have an empty intersection render_galaxy raises
    SourceNotVisible and the field image is untouched; otherwise it
    succeeds, every field pixel inside the intersection has gained the
    stamp pixel of the same coordinates, and every other field pixel is
    unchanged.  The bounds returned by a successful call always overlap the
    field. *)
Theorem accumulate_the_overlap (self : Engine) galaxy no_partials w :
  engine_ok self w ->
  let field := image_at (heap w) (image (survey self)) in
  let b := bounding_box self galaxy in
  let ov := survey_overlap self galaxy w in
  (area (bounds_and b (bounds field)) = 0%Z ->
   fst (render_galaxy self galaxy no_partials w) = Raise SourceNotVisible) /\
  (bright self galaxy ->
   count_true (keep_mask self galaxy w) <> 0 ->
   (area ov = 0%Z ->
    render_galaxy self galaxy no_partials w =
      (Raise SourceNotVisible,
       {| heap := <[stamp self := thresholded self galaxy w]> (heap w);
          trace := trace w ++ head_calls self galaxy w |})) /\
   (area ov <> 0%Z ->
    exists cube r w',
      render_galaxy self galaxy no_partials w =
        (Ok (cube, cropped_bounds self galaxy w, r), w') /\
      forall row col v,
        get2d (array field) row col = Some v ->
        let x := (xmin (bounds field) + Z.of_nat col)%Z in
        let y := (ymin (bounds field) + Z.of_nat row)%Z in
        let field' := image_at (heap w') (image (survey self)) in
        if includes ov x y
        then exists t,
               get2d (array (thresholded self galaxy w))
                     (Z.to_nat (y - ymin b)) (Z.to_nat (x - xmin b))
               = Some t /\
               get2d (array field') row col = Some (add v t)
        else get2d (array field') row col = Some v)) /\
  (forall cube cb r w',
     render_galaxy self galaxy no_partials w = (Ok (cube, cb, r), w') ->
     cb = cropped_bounds self galaxy w /\
     area (bounds_and cb (bounds field)) <> 0%Z).
Proof.
  intros Hok field b ov. pose proof Hok as (Hin & Hp & _).
  split; [|split].
  - intros Hmiss. unfold bright.
    destruct (ltb (mul (getFlux (model galaxy)) (psf_dilution self))
                  (pixel_cut self)) eqn:Hb.
    { by rewrite render_galaxy_faint. }
    destruct (decide (count_true (keep_mask self galaxy w) = 0)) as [He|He].
    { by rewrite render_galaxy_empty. }
    rewrite render_galaxy_outside; [done..|].
    destruct (decide (area (survey_overlap self galaxy w) = 0%Z))
      as [|Hov]; [done|].
    exfalso.
    cut (area (bounds_and b (bounds field)) <> 0%Z); [by intros Hne|].
    destruct (cropped_bounds_tight self galaxy w Hok He)
      as (Hdef & Hxs & Hys & _).
    unfold survey_overlap in Hov. fold field in Hov.
    apply area_bounds_and in Hov as (Hodef & Hox1 & Hox2 & Hoy1 & Hoy2 & Hox & Hoy).
    apply bounds_and_defined.
    assert (Hpt : includes (bounds_and b (bounds field))
                    (xmin (bounds_and (cropped_bounds self galaxy w) (bounds field)))
                    (ymin (bounds_and (cropped_bounds self galaxy w) (bounds field)))
                  = true).
    { rewrite includes_bounds_and. apply andb_true_iff.
      assert (Hboth : includes (bounds_and (cropped_bounds self galaxy w) (bounds field))
                    (xmin (bounds_and (cropped_bounds self galaxy w) (bounds field)))
                    (ymin (bounds_and (cropped_bounds self galaxy w) (bounds field)))
                  = true).
      { apply includes_true. split; [done|]. lia. }
      rewrite includes_bounds_and in Hboth.
      apply andb_true_iff in Hboth as [Hc HB]. split; [|done].
      apply includes_true in Hc as (_ & Hcx & Hcy).
      apply includes_true. fold b in Hxs, Hys. split; [|lia].
      unfold b, bounding_box, mkBoundsI. cbn [isDefined].
      apply andb_true_iff. split; apply Z.leb_le; lia. }
    by apply includes_true in Hpt as [? _].
  - intros Hb Hsome. split.
    + intros Hout. by apply render_galaxy_outside.
    + intros Hov.
      destruct (render_galaxy_succeeds self galaxy no_partials w Hin Hb Hsome Hov)
        as (cube & r & w' & Hrun & _ & Hfield & _).
      exists cube, r, w'. split; [exact Hrun|].
      intros row col v Hv x y field'.
      unfold field', image_at. rewrite Hfield. cbn [default].
      by apply accumulated_cell.
  - intros cube cb r w' Hrun.
    destruct (render_galaxy_ok _ _ _ _ _ _ Hin Hrun) as (Hb & Hk & Ho).
    destruct (render_galaxy_succeeds self galaxy no_partials w Hin Hb Hk Ho)
      as (cube' & r' & w'' & Hrun' & _).
    rewrite Hrun' in Hrun. injection Hrun as _ <- _ _.
    split; [done|]. exact Ho.
Qed.
End Properties.

(** ** Further properties: frames, invariants and the order of renders *)

Section Further.
Context {F : Type} {AF : Arith F} {OF : Optics F}.

Tactic Notation "run" :=
  unfold bind, ret, raise, call, alloc, load, store;
  cbn [fst snd heap trace].

(** *** The ends of render_galaxy *)

(* the three ways in which render_galaxy ends without a result, and the
   one in which it returns *)
Lemma render_galaxy_cases (self : Engine) galaxy no_partials w :
  engine_in self w ->
  (ltb (mul (getFlux (model galaxy)) (psf_dilution self)) (pixel_cut self)
     = true /\
   render_galaxy self galaxy no_partials w =
     (Raise SourceNotVisible,
      {| heap := heap w; trace := trace w ++ [CallGetFlux (model galaxy)] |}))
  \/ (bright self galaxy /\ count_true (keep_mask self galaxy w) = 0 /\
      render_galaxy self galaxy no_partials w =
        (Raise SourceNotVisible,
         {| heap := <[stamp self := rendered self galaxy w]> (heap w);
            trace := trace w ++ head_calls self galaxy w |}))
  \/ (bright self galaxy /\ count_true (keep_mask self galaxy w) <> 0 /\
      area (survey_overlap self galaxy w) = 0%Z /\
      render_galaxy self galaxy no_partials w =
        (Raise SourceNotVisible,
         {| heap := <[stamp self := thresholded self galaxy w]> (heap w);
            trace := trace w ++ head_calls self galaxy w |}))
  \/ (bright self galaxy /\ count_true (keep_mask self galaxy w) <> 0 /\
      area (survey_overlap self galaxy w) <> 0%Z /\
      exists cube r w',
        render_galaxy self galaxy no_partials w
          = (Ok (cube, cropped_bounds self galaxy w, r), w') /\
        heap w' !! stamp self = Some (thresholded self galaxy w) /\
        heap w' !! image (survey self) = Some (accumulated self galaxy w) /\
        (forall l, l < length (heap w) -> l <> stamp self ->
                   l <> image (survey self) -> heap w' !! l = heap w !! l)).
Proof.
  intros Hin.
  destruct (ltb (mul (getFlux (model galaxy)) (psf_dilution self))
                (pixel_cut self)) eqn:Hb.
  { left. split; [done|]. by apply render_galaxy_faint. }
  right.
  destruct (decide (count_true (keep_mask self galaxy w) = 0)) as [Hk|Hk].
  { left. split; [done|]. split; [done|]. by apply render_galaxy_empty. }
  right.
  destruct (decide (area (survey_overlap self galaxy w) = 0%Z)) as [Ho|Ho].
  { left. repeat (split; [done|]). by apply render_galaxy_outside. }
  right. repeat (split; [done|]). by apply render_galaxy_succeeds.
Qed.


(* what render_galaxy computes before it prints does not read
   verbose_render *)
Lemma bounding_box_verbose b (self : Engine) galaxy :
  bounding_box (with_verbose b self) galaxy = bounding_box self galaxy.
Proof. reflexivity. Qed.

Lemma stamp_shift_verbose b (self : Engine) galaxy :
  stamp_shift (with_verbose b self) galaxy = stamp_shift self galaxy.
Proof. reflexivity. Qed.

Lemma nominal_model_verbose b (self : Engine) galaxy :
  nominal_model (with_verbose b self) galaxy = nominal_model self galaxy.
Proof. reflexivity. Qed.

Lemma rendered_verbose b (self : Engine) galaxy w :
  rendered (with_verbose b self) galaxy w = rendered self galaxy w.
Proof. reflexivity. Qed.

Lemma keep_mask_verbose b (self : Engine) galaxy w :
  keep_mask (with_verbose b self) galaxy w = keep_mask self galaxy w.
Proof. reflexivity. Qed.

Lemma thresholded_verbose b (self : Engine) galaxy w :
  thresholded (with_verbose b self) galaxy w = thresholded self galaxy w.
Proof. reflexivity. Qed.

Lemma cropped_bounds_verbose b (self : Engine) galaxy w :
  cropped_bounds (with_verbose b self) galaxy w = cropped_bounds self galaxy w.
Proof. reflexivity. Qed.

Lemma cropped_stamp_verbose b (self : Engine) galaxy w :
  cropped_stamp (with_verbose b self) galaxy w = cropped_stamp self galaxy w.
Proof. reflexivity. Qed.

Lemma survey_overlap_verbose b (self : Engine) galaxy w :
  survey_overlap (with_verbose b self) galaxy w = survey_overlap self galaxy w.
Proof. reflexivity. Qed.

Lemma head_calls_verbose b (self : Engine) galaxy w :
  head_calls (with_verbose b self) galaxy w = head_calls self galaxy w.
Proof.
  unfold head_calls.
  by rewrite stamp_shift_verbose, nominal_model_verbose, rendered_verbose.
Qed.

Lemma accumulated_verbose b (self : Engine) galaxy w :
  accumulated (with_verbose b self) galaxy w = accumulated self galaxy w.
Proof.
  unfold accumulated.
  by rewrite survey_overlap_verbose, cropped_stamp_verbose,
    thresholded_verbose.
Qed.

Lemma cropped_array_verbose b (self : Engine) galaxy w :
  cropped_array (with_verbose b self) galaxy w = cropped_array self galaxy w.
Proof.
  unfold cropped_array.
  by rewrite cropped_stamp_verbose, thresholded_verbose.
Qed.

Lemma attached_verbose b (self : Engine) galaxy w :
  attached (with_verbose b self) galaxy w = attached self galaxy w.
Proof.
  unfold attached.
  by rewrite cropped_bounds_verbose, cropped_array_verbose.
Qed.

Lemma world_attached_verbose b (self : Engine) galaxy w :
  world_attached (with_verbose b self) galaxy w = world_attached self galaxy w.
Proof.
  unfold world_attached.
  by rewrite accumulated_verbose, thresholded_verbose, cropped_stamp_verbose,
    head_calls_verbose.
Qed.

Lemma build_datacube_verbose b (self : Engine) r a no_partials :
  build_datacube (with_verbose b self) r a no_partials
  = build_datacube self r a no_partials.
Proof. unfold build_datacube, variations. reflexivity. Qed.

(* a render that comes to its end, with what it prints *)
Lemma render_galaxy_end (self : Engine) galaxy no_partials w :
  engine_in self w -> bright self galaxy ->
  count_true (keep_mask self galaxy w) <> 0 ->
  area (survey_overlap self galaxy w) <> 0%Z ->
  render_galaxy self galaxy no_partials w =
    match build_datacube self (attached self galaxy w)
            (cropped_array self galaxy w) no_partials
            (world_attached self galaxy w) with
    | (Ok cube, w1) =>
        (Ok (snd cube, cropped_bounds self galaxy w, fst cube),
         {| heap := heap w1;
            trace := trace w1 ++
              (if verbose_render self then verbose_lines self galaxy
               else []) |})
    | (Raise e, w1) => (Raise e, w1)
    end.
Proof.
  intros Hin Hb Hk Ho. rewrite render_galaxy_visible by done.
  unfold bind at 1.
  destruct (build_datacube self (attached self galaxy w)
              (cropped_array self galaxy w) no_partials
              (world_attached self galaxy w)) as [[cube|e] w1]; [|done].
  unfold report, verbose_lines. destruct (verbose_render self); run.
  - rewrite <- !app_assoc. reflexivity.
  - rewrite app_nil_r. by destruct w1.
Qed.

(** X2. verbose_render changes what is printed and nothing else: the
    result and the images are those of a silent render, and the trace is
    longer by the three lines (with the two calls of centroid() that the
    third line makes), which come last and only when the render returns. *)
Theorem verbose_render_only_prints (self : Engine) galaxy no_partials w :
  engine_in self w ->
  let quiet := render_galaxy (with_verbose false self) galaxy no_partials w in
  let loud := render_galaxy (with_verbose true self) galaxy no_partials w in
  fst loud = fst quiet /\
  heap (snd loud) = heap (snd quiet) /\
  trace (snd loud) =
    trace (snd quiet) ++
    (if fst quiet is Ok _ then verbose_lines self galaxy else []).
Proof.
  intros Hin quiet loud. unfold quiet, loud. clear quiet loud.
  assert (Hin' : forall b, engine_in (with_verbose b self) w) by done.
  destruct (ltb (mul (getFlux (model galaxy)) (psf_dilution self))
                (pixel_cut self)) eqn:Hb.
  { rewrite (render_galaxy_faint (with_verbose true self)) by exact Hb.
    rewrite (render_galaxy_faint (with_verbose false self)) by exact Hb.
    cbn. by rewrite app_nil_r. }
  assert (Hb' : forall b, bright (with_verbose b self) galaxy)
    by (intros b; exact Hb).
  destruct (decide (count_true (keep_mask self galaxy w) = 0)) as [Hk|Hk].
  { rewrite !render_galaxy_empty
      by (rewrite ?keep_mask_verbose; first [apply Hin'|apply Hb'|exact Hk]).
    rewrite !rendered_verbose, !head_calls_verbose.
    cbn. by rewrite app_nil_r. }
  destruct (decide (area (survey_overlap self galaxy w) = 0%Z)) as [Ho|Ho].
  { rewrite !render_galaxy_outside
      by (rewrite ?keep_mask_verbose, ?survey_overlap_verbose;
          first [apply Hin'|apply Hb'|exact Hk|exact Ho]).
    rewrite !thresholded_verbose, !head_calls_verbose.
    cbn. by rewrite app_nil_r. }
  rewrite !render_galaxy_end
    by (rewrite ?keep_mask_verbose, ?survey_overlap_verbose;
        first [apply Hin'|apply Hb'|exact Hk|exact Ho]).
  rewrite !build_datacube_verbose, !attached_verbose, !cropped_array_verbose,
    !world_attached_verbose, !cropped_bounds_verbose.
  destruct (build_datacube self (attached self galaxy w)
              (cropped_array self galaxy w) no_partials
              (world_attached self galaxy w)) as [[cube|e] w1].
  - cbn. by rewrite app_nil_r.
  - cbn. by rewrite app_nil_r.
Qed.

(** *** The loop over the variations, told on the cache *)

(* one round of the loop, in full *)
Lemma partials_step i pname delta vs (r : GalaxyRenderer) cube w dfp pp dfm pm :
  lives_in r w ->
  keyword_arguments pname delta = Some (dfp, pp) ->
  keyword_arguments pname (neg delta) = Some (dfm, pm) ->
  let c := cached r w in
  let c1 := recached r pp c in
  let r1 := set_last_parameters r (remembered r pp) in
  let c2 := recached r1 pm c1 in
  let r2 := set_last_parameters r1 (remembered r1 pm) in
  exists w4,
    partials ((i, (pname, delta)) :: vs) r cube w =
      partials vs r2
        (<[i + 1 := layer_of delta (scaled (add one dfp) c1)
                                   (scaled (add one dfm) c2)]> cube) w4 /\
    cached r2 w4 = c2 /\
    lives_in r2 w4 /\
    trace w4 = trace w ++ draw_calls r pp c ++ draw_calls r1 pm c1 /\
    (forall l, l < length (heap w) -> l <> gr_stamp r ->
               heap w4 !! l = heap w !! l) /\
    length (heap w) <= length (heap w4).
Proof.
  intros Hin Hplus Hminus c c1 r1 c2 r2.
  pose (s := gr_stamp r).
  pose (t1 := trace w ++ draw_calls r pp c).
  pose (h1 := <[s := c1]> (heap w) ++ [scaled (add one dfp) c1]).
  pose (h2 := h1 ++ [scaled (add one dfp) c1]).
  pose (t3 := t1 ++ draw_calls r1 pm c1).
  pose (h3 := <[s := c2]> h2 ++ [scaled (add one dfm) c2]).
  pose (h4 := h3 ++ [difference (scaled (add one dfp) c1)
                                (scaled (add one dfm) c2)]).
  assert (Hs : s < length (heap w)) by exact Hin.
  assert (Hl1 : length h1 = S (length (heap w))).
  { unfold h1. rewrite length_app, length_insert. cbn. lia. }
  assert (Hl2 : length h2 = S (S (length (heap w)))).
  { unfold h2. rewrite length_app, Hl1. cbn. lia. }
  assert (Hl3 : length h3 = S (S (S (length (heap w))))).
  { unfold h3. rewrite length_app, length_insert, Hl2. cbn. lia. }
  assert (Hplus_at : image_at h1 (length (heap w)) = scaled (add one dfp) c1).
  { unfold h1. rewrite <- (length_insert (heap w) s c1). apply image_at_new. }
  assert (Hc1 : image_at h2 s = c1).
  { unfold h2, h1.
    rewrite !image_at_app by (rewrite ?length_app, length_insert; lia).
    by apply image_at_insert. }
  assert (Hminus_at : image_at h3 (length h2) = scaled (add one dfm) c2).
  { unfold h3. rewrite <- (length_insert h2 s c2). apply image_at_new. }
  assert (Hcopy_at : image_at h3 (length h1) = scaled (add one dfp) c1).
  { unfold h3. rewrite image_at_app by (rewrite length_insert; lia).
    rewrite image_at_insert_ne by lia. unfold h2. apply image_at_new. }
  assert (Hc2 : image_at h4 s = c2).
  { unfold h4, h3.
    rewrite !image_at_app by (rewrite ?length_app, length_insert; lia).
    apply image_at_insert. lia. }
  assert (Hdraw1 : draw r dfp pp w =
            (Ok (length (heap w), r1), {| heap := h1; trace := t1 |})).
  { by rewrite draw_eq. }
  assert (Hdraw2 : draw r1 dfm pm {| heap := h2; trace := t1 |} =
            (Ok (length h2, r2), {| heap := h3; trace := t3 |})).
  { rewrite draw_eq by (unfold lives_in; cbn; fold s; lia).
    unfold cached. cbn [heap trace gr_stamp r1 set_last_parameters].
    fold s. by rewrite Hc1. }
  exists {| heap := h4; trace := t3 |}.
  split.
  { cbn [partials]. unfold draw_kw. rewrite Hplus, Hminus.
    unfold bind at 1. rewrite Hdraw1. cbn [fst snd].
    unfold bind at 1. rewrite image_copy_eq. cbn [heap trace].
    rewrite Hplus_at. fold h2.
    unfold bind at 1. rewrite Hdraw2. cbn [fst snd].
    unfold image_sub. run. rewrite Hcopy_at, Hminus_at.
    fold h4. unfold image_at at 1, h4.
    rewrite list_lookup_middle by done. reflexivity. }
  unfold lives_in, cached. cbn [heap trace gr_stamp r2 r1 set_last_parameters].
  fold s.
  split; [exact Hc2|].
  split; [unfold h4; rewrite length_app, Hl3; lia|].
  split; [unfold t3, t1; by rewrite <- app_assoc|].
  split.
  { intros l Hl Hne.
    unfold h4. rewrite lookup_app_l by lia.
    unfold h3. rewrite lookup_app_l by (rewrite length_insert; lia).
    rewrite list_lookup_insert_ne by done.
    unfold h2. rewrite lookup_app_l by lia.
    unfold h1. rewrite lookup_app_l by (rewrite length_insert; lia).
    by rewrite list_lookup_insert_ne. }
  unfold h4; rewrite length_app, Hl3; lia.
Qed.

Lemma set_last_parameters_stamp (r : GalaxyRenderer) p :
  gr_stamp (set_last_parameters r p) = gr_stamp r.
Proof. reflexivity. Qed.

(* the loop computes what [loop] tells, and writes to the stamp of the
   renderer and to new images only *)
Lemma partials_loop vs : forall (r : GalaxyRenderer) cube w r' c' cube' made,
  lives_in r w ->
  Forall (fun iv => known iv.2) vs ->
  loop vs r (cached r w) cube = (r', c', cube', made) ->
  exists w',
    partials vs r cube w = (Ok (r', cube'), w') /\
    cached r' w' = c' /\
    lives_in r' w' /\
    gr_stamp r' = gr_stamp r /\
    trace w' = trace w ++ made /\
    (forall l, l < length (heap w) -> l <> gr_stamp r ->
               heap w' !! l = heap w !! l) /\
    length (heap w) <= length (heap w').
Proof.
  induction vs as [|[i [pname delta]] vs IH];
    intros r cube w r' c' cube' made Hin Hknown Hloop.
  - cbn in Hloop. injection Hloop as <- <- <- <-.
    exists w. cbn. rewrite app_nil_r. by repeat split.
  - apply Forall_cons in Hknown as [(pp & pm & Hp & Hm) Hknown].
    cbn [fst snd] in Hp, Hm.
    destruct (partials_step i pname delta vs r cube w _ _ _ _ Hin Hp Hm)
      as (w4 & Hstep & Hc4 & Hin4 & Ht4 & Hframe & Hlen).
    cbn zeta in Hstep, Hc4, Hin4, Ht4.
    cbn [loop] in Hloop. rewrite Hp, Hm in Hloop. cbn zeta in Hloop.
    set (c1 := recached r pp (cached r w)) in *.
    set (r1 := set_last_parameters r (remembered r pp)) in *.
    set (c2 := recached r1 pm c1) in *.
    set (r2 := set_last_parameters r1 (remembered r1 pm)) in *.
    set (cube2 := <[i + 1 := _]> cube) in *.
    destruct (loop vs r2 c2 cube2) as [[[ra ca] cua] ma] eqn:Hrest.
    cbn [fst snd] in Hloop. injection Hloop as <- <- <- <-.
    rewrite <- Hc4 in Hrest.
    destruct (IH r2 cube2 w4 _ _ _ _ Hin4 Hknown Hrest)
      as (w' & Hrun & Hc' & Hin' & Hst' & Ht' & Hframe' & Hlen').
    exists w'. rewrite Hstep.
    split; [exact Hrun|]. split; [exact Hc'|]. split; [exact Hin'|].
    split; [by rewrite Hst'|].
    split; [by rewrite Ht', Ht4, <- !app_assoc|].
    split; [|lia].
    intros l Hl Hne. rewrite Hframe' by (try lia; done). by apply Hframe.
Qed.

Lemma world_attached_lookup (self : Engine) galaxy w l :
  l < length (heap w) ->
  heap (world_attached self galaxy w) !! l =
    (<[image (survey self) := accumulated self galaxy w]>
       (<[stamp self := thresholded self galaxy w]> (heap w))) !! l.
Proof.
  intros Hl. unfold world_attached. cbn [heap].
  apply lookup_app_l. by rewrite !length_insert.
Qed.

Lemma world_attached_length (self : Engine) galaxy w :
  length (heap (world_attached self galaxy w)) = S (length (heap w)).
Proof.
  unfold world_attached. cbn [heap].
  rewrite length_app, !length_insert. cbn. lia.
Qed.

Lemma build_datacube_eq (self : Engine) r a no_partials :
  build_datacube self r a no_partials =
    if no_partials then ret (r, first_cube self a true)
    else partials (enumerate (variations self)) r (first_cube self a false).
Proof. by destruct no_partials. Qed.

(* a render that comes to its end, told by [outcome] *)
Lemma render_galaxy_closed (self : Engine) galaxy no_partials w r c cube made :
  engine_in self w -> bright self galaxy ->
  count_true (keep_mask self galaxy w) <> 0 ->
  area (survey_overlap self galaxy w) <> 0%Z ->
  outcome self galaxy no_partials w = (r, c, cube, made) ->
  exists w',
    render_galaxy self galaxy no_partials w
      = (Ok (cube, cropped_bounds self galaxy w, r), w') /\
    cached r w' = c /\
    lives_in r w' /\
    gr_stamp r = length (heap w) /\
    trace w' = trace w ++ head_calls self galaxy w ++ made ++
               (if verbose_render self then verbose_lines self galaxy
                else []) /\
    (forall l, l < length (heap w) ->
       heap w' !! l =
         (<[image (survey self) := accumulated self galaxy w]>
            (<[stamp self := thresholded self galaxy w]> (heap w))) !! l) /\
    length (heap w) < length (heap w').
Proof.
  intros Hin Hb Hk Ho Hout. rewrite render_galaxy_end by done.
  pose proof (attached_lives self galaxy w) as Hlives.
  pose proof (attached_cached self galaxy w) as Hcached.
  pose proof (world_attached_length self galaxy w) as Hlen.
  rewrite build_datacube_eq. unfold outcome in Hout.
  destruct no_partials.
  - injection Hout as <- <- <- <-.
    unfold ret. eexists. split; [reflexivity|]. cbn [heap trace].
    split; [exact Hcached|]. split; [exact Hlives|].
    split; [reflexivity|].
    split; [unfold world_attached; cbn [trace]; by rewrite <- !app_assoc|].
    split; [apply world_attached_lookup|lia].
  - rewrite <- Hcached in Hout.
    destruct (partials_loop (enumerate (variations self))
                (attached self galaxy w)
                (first_cube self (cropped_array self galaxy w) false)
                (world_attached self galaxy w) _ _ _ _
                Hlives (variations_known self) Hout)
      as (w1 & Hrun & Hc & Hl & Hst & Ht & Hframe & Hle).
    rewrite Hrun. eexists.
    split; [reflexivity|]. cbn [heap trace].
    split; [exact Hc|]. split; [exact Hl|].
    split; [by rewrite Hst|].
    split.
    { rewrite Ht. unfold world_attached. cbn [trace].
      by rewrite <- !app_assoc. }
    split; [|lia].
    intros l Hlt. rewrite Hframe.
    + by apply world_attached_lookup.
    + lia.
    + unfold attached. cbn [gr_stamp]. lia.
Qed.

(** *** The stamp of the engine is written anew by every render *)

Lemma same_geometry_refl (o : @ImageObj F) : same_geometry o o.
Proof. by repeat split. Qed.

Lemma same_geometry_trans (a b c : @ImageObj F) :
  same_geometry a b -> same_geometry b c -> same_geometry a c.
Proof.
  intros (H1 & H2 & H3 & H4 & H5) (G1 & G2 & G3 & G4 & G5).
  repeat split; congruence.
Qed.

Lemma rendered_geometry (self : Engine) galaxy w :
  same_geometry (rendered self galaxy w) (image_at (heap w) (stamp self)).
Proof.
  unfold rendered, same_geometry. cbn [redrawn moved bounds scale array
    isDefined xmin xmax ymin ymax].
  repeat split; try lia. apply shape_imap2d.
Qed.

Lemma thresholded_geometry (self : Engine) galaxy w :
  same_geometry (thresholded self galaxy w) (image_at (heap w) (stamp self)).
Proof.
  eapply same_geometry_trans; [|apply rendered_geometry].
  unfold thresholded, same_geometry. cbn [masked bounds scale array].
  repeat split. apply shape_assign_where.
Qed.

(* the stamp drawn depends on the old stamp by its geometry only *)
Lemma rendered_eq (self : Engine) galaxy w1 w2 :
  same_geometry (image_at (heap w1) (stamp self))
                (image_at (heap w2) (stamp self)) ->
  rendered self galaxy w1 = rendered self galaxy w2.
Proof.
  intros (Hd & Hx & Hy & Hs & Hsh). unfold rendered, redrawn, moved.
  cbn [bounds scale array]. rewrite Hd, Hx, Hy, Hs. f_equal.
  by apply imap2d_shape_ext.
Qed.

Lemma stages_eq (self : Engine) galaxy w1 w2 :
  rendered self galaxy w1 = rendered self galaxy w2 ->
  keep_mask self galaxy w1 = keep_mask self galaxy w2 /\
  thresholded self galaxy w1 = thresholded self galaxy w2 /\
  cropped_bounds self galaxy w1 = cropped_bounds self galaxy w2 /\
  cropped_stamp self galaxy w1 = cropped_stamp self galaxy w2 /\
  cropped_array self galaxy w1 = cropped_array self galaxy w2.
Proof.
  intros Hr.
  assert (Hk : keep_mask self galaxy w1 = keep_mask self galaxy w2)
    by (unfold keep_mask; by rewrite Hr).
  assert (Ht : thresholded self galaxy w1 = thresholded self galaxy w2)
    by (unfold thresholded; by rewrite Hr, Hk).
  assert (Hb : cropped_bounds self galaxy w1 = cropped_bounds self galaxy w2)
    by (unfold cropped_bounds; by rewrite Hk).
  assert (Hs : cropped_stamp self galaxy w1 = cropped_stamp self galaxy w2)
    by (unfold cropped_stamp; by rewrite Hr, Hb).
  repeat (split; [done|]).
  unfold cropped_array. by rewrite Hs, Ht.
Qed.

Lemma accumulated_bounds (self : Engine) galaxy w :
  bounds (accumulated self galaxy w)
  = bounds (image_at (heap w) (image (survey self))) /\
  scale (accumulated self galaxy w)
  = scale (image_at (heap w) (image (survey self))) /\
  map length (array (accumulated self galaxy w))
  = map length (array (image_at (heap w) (image (survey self)))).
Proof.
  unfold accumulated. cbn [added bounds scale array].
  repeat split. apply shape_imap2d.
Qed.

(* what a render leaves of the engine: its two images where they were,
   the stamp with its geometry, the field with its bounds *)
Lemma render_keeps_geometry (self : Engine) galaxy no_partials w res w' :
  engine_in self w ->
  render_galaxy self galaxy no_partials w = (res, w') ->
  engine_in self w' /\
  same_geometry (image_at (heap w') (stamp self))
                (image_at (heap w) (stamp self)) /\
  bounds (image_at (heap w') (image (survey self)))
  = bounds (image_at (heap w) (image (survey self))) /\
  scale (image_at (heap w') (image (survey self)))
  = scale (image_at (heap w) (image (survey self))) /\
  map length (array (image_at (heap w') (image (survey self))))
  = map length (array (image_at (heap w) (image (survey self)))).
Proof.
  intros Hin Hrun. pose proof Hin as (Hs & Hi & Hne).
  destruct (render_galaxy_cases self galaxy no_partials w Hin)
    as [(_ & H)|[(_ & _ & H)|[(_ & _ & _ & H)|
        (_ & _ & _ & cube & r & w1 & H & Hst & Him & _)]]];
    rewrite H in Hrun; injection Hrun as <- <-; cbn [heap].
  - split; [done|]. split; [apply same_geometry_refl|done].
  - split; [unfold engine_in; cbn [heap]; by rewrite length_insert|].
    rewrite image_at_insert by done.
    rewrite image_at_insert_ne by done.
    split; [apply rendered_geometry|done].
  - split; [unfold engine_in; cbn [heap]; by rewrite length_insert|].
    rewrite image_at_insert by done.
    rewrite image_at_insert_ne by done.
    split; [apply thresholded_geometry|done].
  - split.
    { unfold engine_in. apply lookup_lt_Some in Hst, Him. done. }
    unfold image_at. rewrite Hst, Him. cbn [default].
    split; [apply thresholded_geometry|]. apply accumulated_bounds.
Qed.

(** X3. The engine stays usable: after a render, whether it returned or
    raised, the stamp of the engine still has the shape of the truncation
    mask, and the image of the survey has kept its bounds, its scale and
    its shape. *)
Theorem render_keeps_the_engine_ok (self : Engine) galaxy no_partials w res w' :
  engine_ok self w ->
  render_galaxy self galaxy no_partials w = (res, w') ->
  engine_ok self w' /\
  bounds (image_at (heap w') (image (survey self)))
  = bounds (image_at (heap w) (image (survey self))) /\
  scale (image_at (heap w') (image (survey self)))
  = scale (image_at (heap w) (image (survey self))) /\
  same_shape (array (image_at (heap w') (image (survey self))))
             (array (image_at (heap w) (image (survey self)))).
Proof.
  intros (Hin & Hp & Hs & Hm) Hrun.
  destruct (render_keeps_geometry _ _ _ _ _ _ Hin Hrun)
    as (Hin' & (_ & _ & _ & _ & Hsh) & Hb & Hsc & Hf).
  split; [|done].
  split; [done|]. split; [done|]. split; [|done].
  eapply has_shape_same; [exact Hsh|exact Hs].
Qed.

(** *** Renderers and later renders *)

(** X4. A render that returns gives the galaxy a renderer whose stamp is a
    new image of the store, apart from the stamp of the engine and from
    the image of the survey; of the images that were there before, the
    render changes these two and no other. *)
Theorem render_returns_a_renderer_of_its_own (self : Engine) galaxy no_partials
    w cube cb r w' :
  engine_in self w ->
  render_galaxy self galaxy no_partials w = (Ok (cube, cb, r), w') ->
  gr_stamp r = length (heap w) /\
  lives_in r w' /\
  gr_stamp r <> stamp self /\ gr_stamp r <> image (survey self) /\
  (forall l, l < length (heap w) -> l <> stamp self ->
             l <> image (survey self) -> heap w' !! l = heap w !! l).
Proof.
  intros Hin Hrun. pose proof Hin as (Hs & Hi & Hne).
  destruct (render_galaxy_ok _ _ _ _ _ _ Hin Hrun) as (Hb & Hk & Ho).
  destruct (outcome self galaxy no_partials w) as [[[r0 c0] cube0] made] eqn:Hout.
  destruct (render_galaxy_closed self galaxy no_partials w _ _ _ _
              Hin Hb Hk Ho Hout)
    as (w1 & Hrun1 & _ & Hl & Hst & _ & Hframe & _).
  rewrite Hrun1 in Hrun. injection Hrun as <- <- <- <-.
  split; [done|]. split; [done|]. split; [lia|]. split; [lia|].
  intros l Hl1 Hn1 Hn2. rewrite Hframe by done.
  by rewrite !list_lookup_insert_ne.
Qed.

(** X5. The renderer of a galaxy outlives the renders that follow: the
    next render of the engine, of any galaxy and whatever its end, leaves
    the cached stamp of that renderer as it was. *)
Theorem renderers_outlive_later_renders (self : Engine) first no_partials w
    cube cb r w1 next no_partials' res w2 :
  engine_in self w ->
  render_galaxy self first no_partials w = (Ok (cube, cb, r), w1) ->
  render_galaxy self next no_partials' w1 = (res, w2) ->
  lives_in r w2 /\ cached r w2 = cached r w1.
Proof.
  intros Hin Hfirst Hnext. pose proof Hin as (Hs & Hi & Hne).
  destruct (render_galaxy_ok _ _ _ _ _ _ Hin Hfirst) as (Hb & Hk & Ho).
  destruct (outcome self first no_partials w) as [[[r0 c0] cube0] made] eqn:Hout.
  destruct (render_galaxy_closed self first no_partials w _ _ _ _
              Hin Hb Hk Ho Hout)
    as (w1' & Hrun1 & _ & Hl & Hst & _ & _ & Hlen).
  rewrite Hrun1 in Hfirst. injection Hfirst as <- <- <- <-.
  assert (Hin1 : engine_in self w1') by (unfold engine_in; lia).
  unfold lives_in, cached in *.
  destruct (render_galaxy_cases self next no_partials' w1' Hin1)
    as [(_ & H)|[(_ & _ & H)|[(_ & _ & _ & H)|
        (_ & _ & _ & cube & r & w3 & H & _ & _ & Hframe)]]];
    rewrite H in Hnext; injection Hnext as <- <-; cbn [heap].
  - done.
  - rewrite length_insert. split; [done|].
    apply image_at_insert_ne. lia.
  - rewrite length_insert. split; [done|].
    apply image_at_insert_ne. lia.
  - assert (Hsame : heap w3 !! gr_stamp r0 = heap w1' !! gr_stamp r0)
      by (apply Hframe; lia).
    split.
    + destruct (lookup_lt_is_Some_2 (heap w1') (gr_stamp r0) Hl) as [o Hlk].
      rewrite Hlk in Hsame. by apply lookup_lt_Some in Hsame.
    + unfold image_at. by rewrite Hsame.
Qed.

(** *** A render does not depend on the renders before it *)

Lemma loop_restamped l vs : forall (r : GalaxyRenderer) c cube,
  loop vs (restamped l r) c cube =
    (restamped l (loop vs r c cube).1.1.1, (loop vs r c cube).1.1.2,
     (loop vs r c cube).1.2, (loop vs r c cube).2).
Proof.
  induction vs as [|[i [pname delta]] vs IH]; intros r c cube; [done|].
  cbn [loop].
  destruct (keyword_arguments pname delta) as [[dfp pp]|]; [|done].
  destruct (keyword_arguments pname (neg delta)) as [[dfm pm]|]; [|done].
  cbn zeta. cbn [fst snd].
  change (recached (restamped l r) pp c) with (recached r pp c).
  change (set_last_parameters (restamped l r) (remembered (restamped l r) pp))
    with (restamped l (set_last_parameters r (remembered r pp))).
  set (r1 := set_last_parameters r (remembered r pp)).
  set (c1 := recached r pp c).
  change (recached (restamped l r1) pm c1) with (recached r1 pm c1).
  change (set_last_parameters (restamped l r1)
            (remembered (restamped l r1) pm))
    with (restamped l (set_last_parameters r1 (remembered r1 pm))).
  rewrite IH. cbn [fst snd]. reflexivity.
Qed.

Lemma attached_restamped (self : Engine) galaxy w1 w2 :
  cropped_bounds self galaxy w1 = cropped_bounds self galaxy w2 ->
  cropped_array self galaxy w1 = cropped_array self galaxy w2 ->
  attached self galaxy w1 = restamped (length (heap w1)) (attached self galaxy w2).
Proof.
  intros Hb Ha. unfold attached, restamped.
  cbn [gr_galaxy gr_mask dx_arcsec dy_arcsec gr_psf_model gr_gsparams
       last_parameters].
  by rewrite Hb, Ha.
Qed.

(** X6. What a render returns does not depend on the renders before it:
    after any render of the engine, of any galaxy and whatever its end,
    the render of a galaxy returns the datacube and the bounds, or raises
    the exception, that it would have returned or raised before; only the
    place of the stamp of the new renderer in the store differs. *)
Theorem render_forgets_the_past (self : Engine) before no_partials' galaxy
    no_partials w res0 w0 :
  engine_in self w ->
  render_galaxy self before no_partials' w = (res0, w0) ->
  (forall cube cb r w1,
     render_galaxy self galaxy no_partials w = (Ok (cube, cb, r), w1) ->
     exists w2,
       render_galaxy self galaxy no_partials w0
         = (Ok (cube, cb, restamped (length (heap w0)) r), w2)) /\
  (forall e w1,
     render_galaxy self galaxy no_partials w = (Raise e, w1) ->
     exists w2, render_galaxy self galaxy no_partials w0 = (Raise e, w2)).
Proof.
  intros Hin Hbefore.
  destruct (render_keeps_geometry _ _ _ _ _ _ Hin Hbefore)
    as (Hin0 & Hgeo & Hfb & _).
  pose proof (rendered_eq self galaxy w0 w Hgeo) as Hr.
  destruct (stages_eq self galaxy w0 w Hr) as (Hk & Ht & Hcb & Hcs & Hca).
  assert (Hov : survey_overlap self galaxy w0 = survey_overlap self galaxy w)
    by (unfold survey_overlap; by rewrite Hcb, Hfb).
  split.
  - intros cube cb r w1 Hrun.
    destruct (render_galaxy_ok _ _ _ _ _ _ Hin Hrun) as (Hb & Hkk & Ho).
    destruct (outcome self galaxy no_partials w)
      as [[[r1 c1] cube1] made] eqn:Hout.
    destruct (render_galaxy_closed self galaxy no_partials w _ _ _ _
                Hin Hb Hkk Ho Hout) as (w1' & Hrun1 & _).
    rewrite Hrun1 in Hrun. injection Hrun as <- <- <- <-.
    assert (Hout0 : outcome self galaxy no_partials w0
                    = (restamped (length (heap w0)) r1, c1, cube1, made)).
    { unfold outcome in *.
      rewrite (attached_restamped self galaxy w0 w Hcb Hca), Hcs, Ht, Hca.
      destruct no_partials.
      - by injection Hout as <- <- <- <-.
      - rewrite loop_restamped, Hout. reflexivity. }
    rewrite <- Hk in Hkk. rewrite <- Hov in Ho.
    destruct (render_galaxy_closed self galaxy no_partials w0 _ _ _ _
                Hin0 Hb Hkk Ho Hout0) as (w2 & Hrun2 & _).
    exists w2. by rewrite Hrun2, Hcb.
  - intros e w1 Hrun.
    destruct (render_galaxy_cases self galaxy no_partials w Hin)
      as [(Hb & H)|[(Hb & Hkk & H)|[(Hb & Hkk & Ho & H)|
          (_ & _ & _ & cube & r & w3 & H & _)]]];
      rewrite H in Hrun; [| | |discriminate]; injection Hrun as <- <-.
    + eexists. by apply render_galaxy_faint.
    + eexists. apply render_galaxy_empty; [done|done|by rewrite Hk].
    + eexists.
      apply render_galaxy_outside; [done|done|by rewrite Hk|by rewrite Hov].
Qed.

(** *** The datacube and the bounds *)

Lemma first_cube_shape (self : Engine) h w (nominal : array2 F) no_partials :
  has_shape h w nominal ->
  Forall (has_shape h w) (first_cube self nominal no_partials).
Proof.
  intros Hn. unfold first_cube. apply Forall_insert; [|done].
  apply Forall_replicate. destruct Hn as [Hlen Hrows]. rewrite Hlen.
  destruct nominal as [|row rest].
  - cbn in Hlen. subst h. by split.
  - cbn [width]. apply Forall_cons in Hrows as [-> _].
    apply has_shape_replicate.
Qed.

Lemma recached_has_shape (r : GalaxyRenderer) p c h w :
  has_shape h w (array c) -> has_shape h w (array (recached r p c)).
Proof. intros Hc. eapply has_shape_same; [apply recached_shape|done]. Qed.

Lemma layer_has_shape delta df1 df2 (c1 c2 : @ImageObj F) h w :
  has_shape h w (array c1) -> has_shape h w (array c2) ->
  has_shape h w (layer_of delta (scaled (add one df1) c1)
                                (scaled (add one df2) c2)).
Proof.
  intros H1 H2. eapply has_shape_same; [|exact H1].
  unfold layer_of. rewrite shape_map2d. cbn [scaled array].
  apply has_shape_map_length in H1, H2.
  rewrite shape_zip2d; rewrite !shape_map2d; congruence.
Qed.

Lemma loop_shape h w vs : forall (r : GalaxyRenderer) c cube,
  has_shape h w (array c) ->
  Forall (has_shape h w) cube ->
  Forall (has_shape h w) (loop vs r c cube).1.2 /\
  has_shape h w (array (loop vs r c cube).1.1.2).
Proof.
  induction vs as [|[i [pname delta]] vs IH]; intros r c cube Hc Hcube;
    [done|].
  cbn [loop].
  destruct (keyword_arguments pname delta) as [[dfp pp]|]; [|done].
  destruct (keyword_arguments pname (neg delta)) as [[dfm pm]|]; [|done].
  cbn zeta. cbn [fst snd].
  apply IH.
  - by do 2 apply recached_has_shape.
  - apply Forall_insert; [done|].
    apply layer_has_shape; by repeat apply recached_has_shape.
Qed.

Lemma loop_bounds vs : forall (r : GalaxyRenderer) c cube,
  bounds (loop vs r c cube).1.1.2 = bounds c.
Proof.
  induction vs as [|[i [pname delta]] vs IH]; intros r c cube; [done|].
  cbn [loop].
  destruct (keyword_arguments pname delta) as [[dfp pp]|]; [|done].
  destruct (keyword_arguments pname (neg delta)) as [[dfm pm]|]; [|done].
  cbn zeta. cbn [fst snd]. by rewrite IH, !recached_bounds.
Qed.

Lemma cropped_array_shape (self : Engine) galaxy w :
  engine_ok self w ->
  count_true (keep_mask self galaxy w) <> 0 ->
  let cb := cropped_bounds self galaxy w in
  has_shape (nrow cb) (ncol cb) (cropped_array self galaxy w) /\
  0 < nrow cb /\ 0 < ncol cb.
Proof.
  intros Hok Hk cb.
  destruct (cropped_bounds_tight self galaxy w Hok Hk)
    as (Hd & (Hx1 & Hx2) & (Hy1 & Hy2) & _).
  destruct (keep_mask_shape self galaxy w Hok) as (_ & _ & Ht).
  pose proof Hok as (_ & Hp & _).
  destruct (bounding_box_extent self galaxy Hp) as (Hbx & Hby).
  cbn zeta in *. fold cb in Hd, Hx1, Hx2, Hy1, Hy2.
  assert (Hdef : (xmin cb <= xmax cb)%Z /\ (ymin cb <= ymax cb)%Z).
  { unfold cb, cropped_bounds, crop in Hd |- *.
    cbn [mkBoundsI isDefined xmin xmax ymin ymax] in Hd |- *.
    apply andb_prop in Hd as [H1 H2]. lia. }
  split.
  - unfold cropped_array, seen, cropped_stamp, subImage.
    cbn [v_row0 v_col0 v_bounds]. fold cb.
    eapply window_shape; [exact Ht| |];
      unfold rendered; cbn [redrawn moved bounds xmin ymin];
      unfold nrow, ncol; lia.
  - unfold nrow, ncol. lia.
Qed.

(** X7. The layers of the datacube have the height and the width of the
    bounds that are returned with them: each is an array of
    ymax-ymin+1 rows of xmax-xmin+1 pixels, and neither number is zero.
    The stamp of the renderer that is attached has these bounds and this
    shape. *)
Theorem datacube_has_the_shape_of_the_bounds (self : Engine) galaxy no_partials
    w cube cb r w' :
  engine_ok self w ->
  render_galaxy self galaxy no_partials w = (Ok (cube, cb, r), w') ->
  Forall (has_shape (Z.to_nat (ymax cb - ymin cb + 1))
                    (Z.to_nat (xmax cb - xmin cb + 1))) cube /\
  (ymin cb <= ymax cb)%Z /\ (xmin cb <= xmax cb)%Z /\
  bounds (cached r w') = cb /\
  has_shape (Z.to_nat (ymax cb - ymin cb + 1))
            (Z.to_nat (xmax cb - xmin cb + 1)) (array (cached r w')).
Proof.
  intros Hok Hrun. pose proof Hok as (Hin & _).
  destruct (render_galaxy_ok _ _ _ _ _ _ Hin Hrun) as (Hb & Hk & Ho).
  destruct (cropped_array_shape self galaxy w Hok Hk) as (Hs & Hr & Hc).
  cbn zeta in Hs, Hr, Hc.
  destruct (outcome self galaxy no_partials w)
    as [[[r1 c1] cube1] made] eqn:Hout.
  destruct (render_galaxy_closed self galaxy no_partials w _ _ _ _
              Hin Hb Hk Ho Hout) as (w1 & Hrun1 & Hc1 & _).
  rewrite Hrun1 in Hrun. injection Hrun as <- <- <- <-.
  fold (nrow (cropped_bounds self galaxy w)).
  fold (ncol (cropped_bounds self galaxy w)).
  rewrite Hc1.
  assert (Hgoal : Forall (has_shape (nrow (cropped_bounds self galaxy w))
                            (ncol (cropped_bounds self galaxy w))) cube1 /\
                  has_shape (nrow (cropped_bounds self galaxy w))
                            (ncol (cropped_bounds self galaxy w)) (array c1) /\
                  bounds c1 = cropped_bounds self galaxy w).
  { unfold outcome in Hout.
    pose proof (first_cube_shape self _ _ _ no_partials Hs) as Hfirst.
    destruct no_partials.
    - injection Hout as <- <- <- <-. split; [done|]. split; [exact Hs|done].
    - pose proof (loop_shape _ _ (enumerate (variations self))
                    (attached self galaxy w)
                    (pictured (cropped_stamp self galaxy w)
                              (thresholded self galaxy w))
                    (first_cube self (cropped_array self galaxy w) false)
                    Hs Hfirst) as Hl.
      pose proof (loop_bounds (enumerate (variations self))
                    (attached self galaxy w)
                    (pictured (cropped_stamp self galaxy w)
                              (thresholded self galaxy w))
                    (first_cube self (cropped_array self galaxy w) false))
        as Hlb.
      rewrite Hout in Hl, Hlb. destruct Hl as [Hl1 Hl2].
      split; [exact Hl1|]. split; [exact Hl2|]. exact Hlb. }
  destruct Hgoal as (Hcube & Hcache & Hbounds).
  split; [exact Hcube|]. unfold nrow, ncol in Hr, Hc.
  split; [lia|]. split; [lia|]. split; [exact Hbounds|]. exact Hcache.
Qed.

(** *** How often a render draws *)

Lemma calls_app kind (a b : list (@Event F OF)) :
  calls kind (a ++ b) = calls kind a + calls kind b.
Proof. unfold calls. by rewrite List.filter_app, length_app. Qed.

Lemma head_calls_count (self : Engine) galaxy w :
  calls is_transform (head_calls self galaxy w) = 0 /\
  calls is_convolve (head_calls self galaxy w) = 1 /\
  calls is_drawImage (head_calls self galaxy w) = 1.
Proof. done. Qed.

Lemma verbose_lines_count (self : Engine) galaxy :
  calls is_transform (verbose_lines self galaxy) = 0 /\
  calls is_convolve (verbose_lines self galaxy) = 0 /\
  calls is_drawImage (verbose_lines self galaxy) = 0.
Proof. done. Qed.

Lemma miss_calls_count (r : GalaxyRenderer) p b :
  calls is_transform (miss_calls r p b) = 1 /\
  calls is_convolve (miss_calls r p b) = 1 /\
  calls is_drawImage (miss_calls r p b) = 1.
Proof. done. Qed.

(** X8. Without partial derivatives the renderer that a render attaches
    is left as it was made: the datacube is the nominal image alone, the
    cache of the renderer holds that image under the bounds returned and
    remembers the parameters 0, and the render has drawn once.  A draw
    with all parameters at 0 then returns 1+df times the nominal image
    without drawing again. *)
Theorem render_without_partials_keeps_the_nominal_cache (self : Engine) galaxy
    w cube cb r w' :
  engine_in self w ->
  render_galaxy self galaxy true w = (Ok (cube, cb, r), w') ->
  cube = [cropped_array self galaxy w] /\
  last_parameters r = zero_parameters /\
  array (cached r w') = cropped_array self galaxy w /\
  bounds (cached r w') = cb /\
  (exists made, trace w' = trace w ++ made /\
                calls is_transform made = 0 /\
                calls is_convolve made = 1 /\
                calls is_drawImage made = 1) /\
  (eqb zero zero = true ->
   forall df, exists w'',
     draw r df zero_parameters w' = (Ok (length (heap w'), r), w'') /\
     trace w'' = trace w' /\
     array (image_at (heap w'') (length (heap w')))
     = map2d (fun v => mul (add one df) v) (cropped_array self galaxy w)).
Proof.
  intros Hin Hrun.
  destruct (render_galaxy_ok _ _ _ _ _ _ Hin Hrun) as (Hb & Hk & Ho).
  destruct (render_galaxy_closed self galaxy true w
              (attached self galaxy w)
              (pictured (cropped_stamp self galaxy w)
                        (thresholded self galaxy w))
              (first_cube self (cropped_array self galaxy w) true) []
              Hin Hb Hk Ho eq_refl)
    as (w1 & Hrun1 & Hc & Hl & Hst & Ht & _).
  rewrite Hrun1 in Hrun. injection Hrun as <- <- <- <-.
  split; [reflexivity|]. split; [reflexivity|].
  rewrite Hc. split; [reflexivity|]. split; [reflexivity|].
  split.
  { eexists. split; [exact Ht|]. rewrite !calls_app.
    destruct (head_calls_count self galaxy w) as (-> & -> & ->).
    destruct (verbose_render self); cbn; done. }
  intros Hz df.
  assert (Hhit : params_eqb zero_parameters
                   (last_parameters (attached self galaxy w)) = true).
  { unfold params_eqb, attached, zero_parameters. cbn. by rewrite Hz. }
  rewrite (draw_hit _ df _ _ Hhit). eexists. split; [reflexivity|].
  cbn [heap trace]. split; [reflexivity|].
  rewrite image_at_new, Hc. reflexivity.
Qed.

Lemma params_eqb_only_zero k d :
  k < 5 -> eqb d zero = false ->
  forall j e, params_eqb (only k d) (only j e) = false \/ j = k.
Proof.
  intros Hk Hd j e.
  destruct (decide (j = k)) as [->|Hne]; [by right|left].
  unfold params_eqb.
  do 5 (destruct k as [|k];
    [do 5 (destruct j as [|j];
       [first [done | cbn; rewrite Hd, ?andb_false_r; reflexivity]|]);
     cbn; rewrite Hd, ?andb_false_r; reflexivity|]).
  lia.
Qed.

Lemma params_eqb_only_neg k d :
  k < 5 -> eqb (neg d) d = false ->
  params_eqb (only k (neg d)) (only k d) = false.
Proof.
  intros Hk Hd. unfold params_eqb.
  do 5 (destruct k as [|k];
    [cbn; rewrite Hd, ?andb_false_r; reflexivity|]).
  lia.
Qed.

(* the loop when every draw misses: two drawings a round *)
Lemma loop_misses vs : forall (r : GalaxyRenderer) c cube r' c' cube' made,
  misses (last_parameters r) vs ->
  loop vs r c cube = (r', c', cube', made) ->
  calls is_transform made = 2 * length vs /\
  calls is_convolve made = 2 * length vs /\
  calls is_drawImage made = 2 * length vs /\
  last_parameters r' = last_drawn (last_parameters r) vs.
Proof.
  induction vs as [|[i [pname delta]] vs IH];
    intros r c cube r' c' cube' made Hm Hloop.
  { cbn in Hloop. by injection Hloop as <- <- <- <-. }
  destruct Hm as (pp & pm & Hp & Hn & Hm1 & Hm2 & Hrest).
  cbn [loop last_drawn] in *. rewrite Hp, Hn in Hloop. rewrite Hn.
  cbn zeta in Hloop.
  unfold draw_calls, remembered in Hloop. rewrite Hm1 in Hloop.
  cbn [set_last_parameters last_parameters] in Hloop. rewrite Hm2 in Hloop.
  set (r2 := set_last_parameters _ pm) in Hloop.
  set (c2 := recached _ pm _) in Hloop.
  set (cube2 := <[i + 1 := _]> cube) in Hloop.
  destruct (loop vs r2 c2 cube2) as [[[ra ca] cua] ma] eqn:Hrest'.
  cbn [fst snd] in Hloop. injection Hloop as <- <- <- <-.
  destruct (IH r2 c2 cube2 _ _ _ _ Hrest Hrest') as (H1 & H2 & H3 & H4).
  unfold calls in *.
  cbn [List.filter is_transform is_convolve is_drawImage length].
  rewrite H1, H2, H3, H4. repeat split; lia.
Qed.

Lemma outcome_eq (self : Engine) galaxy no_partials w :
  outcome self galaxy no_partials w =
    if no_partials
    then (attached self galaxy w,
          pictured (cropped_stamp self galaxy w) (thresholded self galaxy w),
          first_cube self (cropped_array self galaxy w) no_partials, [])
    else loop (enumerate (variations self)) (attached self galaxy w)
           (pictured (cropped_stamp self galaxy w) (thresholded self galaxy w))
           (first_cube self (cropped_array self galaxy w) no_partials).
Proof. reflexivity. Qed.

Lemma outcome_partials (self : Engine) galaxy w :
  outcome self galaxy false w =
    loop (enumerate (variations self)) (attached self galaxy w)
      (pictured (cropped_stamp self galaxy w) (thresholded self galaxy w))
      (first_cube self (cropped_array self galaxy w) false).
Proof. exact (outcome_eq self galaxy false w). Qed.

Lemma variations_last (self : Engine) :
  last_drawn zero_parameters (enumerate (variations self))
  = only 4 (neg (lit (3 # 100))).
Proof. reflexivity. Qed.

Lemma variations_miss (self : Engine) :
  changing (div (pixel_scale (survey self)) (lit 3)) ->
  changing (lit (5 # 100)) -> changing (lit (3 # 100)) ->
  misses zero_parameters (enumerate (variations self)).
Proof.
  intros [Ha1 Ha2] [Hb1 Hb2] [Hc1 Hc2].
  unfold enumerate, variations. cbn [imap misses].
  pose proof (fun k d Hk Hd => params_eqb_only_neg k d Hk Hd) as Hneg.
  assert (Hfirst : forall k d j e, k < 5 -> j <> k -> eqb d zero = false ->
            params_eqb (only k d) (only j e) = false).
  { intros k d j e Hk Hne Hd.
    by destruct (params_eqb_only_zero k d Hk Hd j e). }
  exists (only 0 (div (pixel_scale (survey self)) (lit 3))),
         (only 0 (neg (div (pixel_scale (survey self)) (lit 3)))).
  split; [reflexivity|]. split; [reflexivity|].
  split; [apply (Hfirst 0 _ 5 zero); [lia|lia|done]|].
  split; [apply (Hneg 0); [lia|done]|].
  exists (only 1 (div (pixel_scale (survey self)) (lit 3))),
         (only 1 (neg (div (pixel_scale (survey self)) (lit 3)))).
  split; [reflexivity|]. split; [reflexivity|].
  split; [apply (Hfirst 1 _ 0); [lia|lia|done]|].
  split; [apply (Hneg 1); [lia|done]|].
  exists (only 2 (lit (5 # 100))), (only 2 (neg (lit (5 # 100)))).
  split; [reflexivity|]. split; [reflexivity|].
  split; [apply (Hfirst 2 _ 1); [lia|lia|done]|].
  split; [apply (Hneg 2); [lia|done]|].
  exists (only 3 (lit (3 # 100))), (only 3 (neg (lit (3 # 100)))).
  split; [reflexivity|]. split; [reflexivity|].
  split; [apply (Hfirst 3 _ 2); [lia|lia|done]|].
  split; [apply (Hneg 3); [lia|done]|].
  exists (only 4 (lit (3 # 100))), (only 4 (neg (lit (3 # 100)))).
  split; [reflexivity|]. split; [reflexivity|].
  split; [apply (Hfirst 4 _ 3); [lia|lia|done]|].
  split; [apply (Hneg 4); [lia|done]|].
  exact I.
Qed.

(** X9. With partial derivatives, and steps that differ from 0 and from
    their opposites, every one of the ten draws of the loop finds other
    parameters than the cached ones: the render transforms the galaxy 10
    times and convolves and draws 11 times, and the renderer that it
    returns remembers the last parameters drawn, dg2 = -0.03, not the
    nominal ones. *)
Theorem render_with_partials_draws_eleven_times (self : Engine) galaxy
    w cube cb r w' :
  engine_in self w ->
  changing (div (pixel_scale (survey self)) (lit 3)) ->
  changing (lit (5 # 100)) -> changing (lit (3 # 100)) ->
  render_galaxy self galaxy false w = (Ok (cube, cb, r), w') ->
  (exists made, trace w' = trace w ++ made /\
                calls is_transform made = 10 /\
                calls is_convolve made = 11 /\
                calls is_drawImage made = 11) /\
  last_parameters r = only 4 (neg (lit (3 # 100))).
Proof.
  intros Hin Ha Hb5 Hc3 Hrun.
  destruct (render_galaxy_ok _ _ _ _ _ _ Hin Hrun) as (Hb & Hk & Ho).
  destruct (outcome self galaxy false w) as [[[r1 c1] cube1] made] eqn:Hout.
  destruct (render_galaxy_closed self galaxy false w _ _ _ _
              Hin Hb Hk Ho Hout) as (w1 & Hrun1 & _ & _ & _ & Ht & _).
  rewrite Hrun1 in Hrun. injection Hrun as <- <- <- <-.
  rewrite outcome_partials in Hout.
  destruct (loop_misses (enumerate (variations self))
              (attached self galaxy w) _ _ _ _ _ _
              (variations_miss self Ha Hb5 Hc3) Hout) as (H1 & H2 & H3 & H4).
  split.
  - eexists. split; [exact Ht|]. rewrite !calls_app, H1, H2, H3.
    destruct (head_calls_count self galaxy w) as (-> & -> & ->).
    destruct (verbose_lines_count self galaxy) as (G1 & G2 & G3).
    destruct (verbose_render self); rewrite ?G1, ?G2, ?G3; done.
  - rewrite H4. apply (variations_last self).
Qed.

(** *** What draw writes *)


Lemma primitives_run_miss (r : GalaxyRenderer) p b :
  primitives_run 1 (miss_calls r p b).
Proof. done. Qed.

(** X11. The cache holds one set of parameters, the last one drawn: when
    draws with p, then q, then p again follow one another and q differs
    from p, the third draw finds q in the cache and draws p anew.  Three
    draws that each differ from the one before run the primitives three
    times. *)
Theorem cache_holds_one_parameter_set (self : GalaxyRenderer) df1 df2 df3 p q w :
  lives_in self w ->
  params_eqb p (last_parameters self) = false ->
  params_eqb q p = false ->
  params_eqb p q = false ->
  exists out1 self1 w1 out2 self2 w2 out3 self3 w3 made,
    draw self df1 p w = (Ok (out1, self1), w1) /\
    draw self1 df2 q w1 = (Ok (out2, self2), w2) /\
    draw self2 df3 p w2 = (Ok (out3, self3), w3) /\
    trace w3 = trace w ++ made /\
    primitives_run 3 made /\
    last_parameters self3 = p.
Proof.
  intros Hin H1 H2 H3.
  pose proof (draw_miss self df1 p w H1 Hin) as Hd1. cbn zeta in Hd1.
  set (w1 := {| heap := _; trace := _ |}) in Hd1.
  assert (Hin1 : lives_in (set_last_parameters self p) w1).
  { unfold lives_in, w1. cbn. rewrite length_app, length_insert.
    unfold lives_in in Hin. lia. }
  pose proof (draw_miss (set_last_parameters self p) df2 q w1 H2 Hin1) as Hd2.
  cbn zeta in Hd2.
  set (w2 := {| heap := _; trace := _ |}) in Hd2.
  assert (Hin2 : lives_in (set_last_parameters (set_last_parameters self p) q)
                          w2).
  { unfold lives_in, w2. cbn [heap gr_stamp set_last_parameters].
    rewrite length_app, length_insert. unfold lives_in in Hin1.
    cbn [gr_stamp set_last_parameters] in Hin1. lia. }
  pose proof (draw_miss (set_last_parameters (set_last_parameters self p) q)
                df3 p w2 H3 Hin2) as Hd3.
  cbn zeta in Hd3.
  set (w3 := {| heap := _; trace := _ |}) in Hd3.
  exists (length (heap w)), (set_last_parameters self p), w1,
         (length (heap w1)),
         (set_last_parameters (set_last_parameters self p) q), w2,
         (length (heap w2)),
         (set_last_parameters
            (set_last_parameters (set_last_parameters self p) q) p), w3.
  eexists.
  split; [exact Hd1|]. split; [exact Hd2|]. split; [exact Hd3|].
  split.
  { unfold w3, w2, w1. cbn [trace]. rewrite <- !app_assoc. reflexivity. }
  split; [|reflexivity].
  unfold primitives_run. rewrite !calls_app.
  repeat split; reflexivity.
Qed.

(** X12. A renderer copies the stamp that it is given and never writes to
    it: its own stamp is a new image, the images that were there are
    left as they were by the constructor, and a draw of the new renderer,
    whatever its parameters, leaves the image behind the given stamp
    unchanged and returns another image than that one. *)
Theorem renderer_copies_the_stamp_it_is_given galaxy (stamp : View)
    (sv : Survey) w self w0 :
  v_image stamp < length (heap w) ->
  GalaxyRenderer_init galaxy stamp sv w = (Ok self, w0) ->
  gr_stamp self <> v_image stamp /\
  array (cached self w0) = seen stamp (image_at (heap w) (v_image stamp)) /\
  (forall l, l < length (heap w) -> heap w0 !! l = heap w !! l) /\
  (forall df p out self' w1,
     draw self df p w0 = (Ok (out, self'), w1) ->
     out <> v_image stamp /\
     heap w1 !! v_image stamp = heap w !! v_image stamp).
Proof.
  intros Hlt Hinit.
  destruct (GalaxyRenderer_init_facts _ _ _ _ _ _ Hinit)
    as (Hst & Hheap & _ & _ & _).
  assert (Hin : lives_in self w0).
  { unfold lives_in. rewrite Hst, Hheap, length_app. cbn. lia. }
  split; [lia|]. split.
  { unfold cached. rewrite Hst, Hheap, image_at_new. reflexivity. }
  split.
  { intros l Hl. rewrite Hheap. by apply lookup_app_l. }
  intros df p out self' w1 Hdraw.
  rewrite draw_eq in Hdraw by done. injection Hdraw as <- <- <-.
  cbn [heap]. split.
  - rewrite Hheap, length_app. cbn. lia.
  - rewrite lookup_app_l by (rewrite length_insert, Hheap, length_app; lia).
    rewrite list_lookup_insert_ne by lia.
    rewrite Hheap. by apply lookup_app_l.
Qed.

(** *** The engine that the constructor makes *)

(** X13. The constructor makes a well-formed engine: it leaves the images
    of the store as they were and allocates two, the pixel into which it
    draws the PSF, its only call, and the stamp, a square image of
    2*padding+1 zero pixels a side at the origin (1,1) with the pixel
    scale of the survey; the padding is not negative and the truncation
    mask has the shape of the stamp. *)
Theorem constructor_makes_a_square_stamp (sv : Survey) min_snr truncate_radius
    no_margin verbose w0 (self : Engine) w1 :
  Engine_init sv min_snr truncate_radius no_margin verbose w0
    = (Ok self, w1) ->
  let n := (2 * padding self + 1)%Z in
  padding self = ceil (sub (div truncate_radius (pixel_scale sv)) half) /\
  (0 <= padding self)%Z /\
  length (heap w1) = 2 + length (heap w0) /\
  (forall l, l < length (heap w0) -> heap w1 !! l = heap w0 !! l) /\
  stamp self = 1 + length (heap w0) /\
  image_at (heap w1) (stamp self) =
    {| bounds := mkBoundsI 1 n 1 n; scale := pixel_scale sv;
       array := replicate (Z.to_nat n) (replicate (Z.to_nat n) zero) |} /\
  has_shape (Z.to_nat n) (Z.to_nat n) (truncation_mask self) /\
  trace w1 = trace w0 ++ [CallDrawImage (psf_model sv) (mkBoundsI 1 1 1 1)].
Proof.
  intros Hinit n.
  destruct (Engine_init_facts _ _ _ _ _ _ _ _ Hinit) as (Hp & -> & ->).
  unfold n. cbn [padding stamp truncation_mask heap trace].
  set (p := padding_for sv truncate_radius) in *.
  split; [reflexivity|]. split; [done|].
  split; [rewrite !length_app; cbn; lia|].
  split.
  { intros l Hl. by rewrite lookup_app_l. }
  split; [reflexivity|].
  split.
  { replace (S (length (heap w0)))
      with (length (heap w0 ++ [redrawn (psf_model sv)
                                  (blank 1 1 (pixel_scale sv))]))
      by (rewrite length_app; cbn; lia).
    rewrite app_assoc, image_at_new. reflexivity. }
  split; [|reflexivity].
  split.
  - by rewrite !length_fmap, length_seqZ.
  - apply Forall_fmap, Forall_forall. intros y _. cbn.
    by rewrite !length_fmap, length_seqZ.
Qed.

(** X14. The truncation mask of a constructed engine is symmetric: where
    the addition of floats commutes, the cell (j,i) of the mask holds what
    the cell (i,j) holds. *)
Theorem truncation_mask_is_symmetric (sv : Survey) min_snr truncate_radius
    no_margin verbose w0 (self : Engine) w1 j i :
  Engine_init sv min_snr truncate_radius no_margin verbose w0
    = (Ok self, w1) ->
  (forall a b : F, add a b = add b a) ->
  get2d (truncation_mask self) j i = get2d (truncation_mask self) i j.
Proof.
  intros Hinit Hcomm.
  destruct (Engine_init_facts _ _ _ _ _ _ _ _ Hinit) as (Hp & -> & _).
  cbn [truncation_mask].
  set (p := padding_for sv truncate_radius) in *.
  unfold get2d. rewrite !list_lookup_fmap.
  destruct (seqZ (- p) (2 * p + 1) !! j) as [kj|] eqn:Hj;
    destruct (seqZ (- p) (2 * p + 1) !! i) as [ki|] eqn:Hi; cbn;
    rewrite ?list_lookup_fmap, ?Hi, ?Hj; cbn; try reflexivity.
  by rewrite Hcomm.
Qed.

(** X15. Outside the truncation radius a pixel is kept exactly when the
    threshold is negative: where value*0 compares with the threshold as 0
    does, the cell of keep_mask is the test pixel_cut < 0, and the stamp
    keeps the drawn value of the pixel if the test holds and 0 if not.
    The truncation takes effect only under a threshold that is not
    negative. *)
Theorem truncation_needs_a_threshold_that_is_not_negative (self : Engine)
    galaxy w j i v :
  engine_ok self w ->
  get2d (array (rendered self galaxy w)) j i = Some v ->
  get2d (truncation_mask self) j i = Some false ->
  ltb (pixel_cut self) (mul v zero) = ltb (pixel_cut self) zero ->
  get2d (keep_mask self galaxy w) j i = Some (ltb (pixel_cut self) zero) /\
  get2d (array (thresholded self galaxy w)) j i
  = Some (if ltb (pixel_cut self) zero then v else zero).
Proof.
  intros Hok Hv Hm Hlaw.
  destruct (keep_mask_cell self galaxy w j i v Hok Hv) as (m & Hm' & Hk).
  rewrite Hm in Hm'. injection Hm' as <-.
  unfold gtb, of_bool in Hk. rewrite Hlaw in Hk.
  split; [exact Hk|].
  destruct (thresholded_cell self galaxy w j i v Hok Hv) as (k & Hk' & Ht).
  rewrite Hk in Hk'. injection Hk' as <-. exact Ht.
Qed.

(** *** Two renders, one after the other *)

Lemma engine_ok_after (self : Engine) galaxy no_partials w res w' :
  engine_ok self w ->
  render_galaxy self galaxy no_partials w = (res, w') ->
  engine_ok self w'.
Proof.
  intros (Hin & Hp & Hs & Hm) Hrun.
  destruct (render_keeps_geometry _ _ _ _ _ _ Hin Hrun)
    as (Hin' & (_ & _ & _ & _ & Hsh) & _).
  split; [done|]. split; [done|]. split; [|done].
  eapply has_shape_same; [exact Hsh|exact Hs].
Qed.

Lemma accumulated_pixel (self : Engine) galaxy w row col v :
  engine_ok self w ->
  count_true (keep_mask self galaxy w) <> 0 ->
  area (survey_overlap self galaxy w) <> 0%Z ->
  get2d (array (image_at (heap w) (image (survey self)))) row col = Some v ->
  get2d (array (accumulated self galaxy w)) row col
  = Some (credited v (contribution self galaxy w row col)).
Proof.
  intros Hok Hk Ho Hv.
  pose proof (accumulated_cell self galaxy w row col v Hok Hk Ho Hv) as Hcell.
  cbn zeta in Hcell. unfold contribution.
  destruct (includes _ _ _).
  - destruct Hcell as (t & Ht & Ha). by rewrite Ht.
  - exact Hcell.
Qed.

(* a render that returns has left the accumulated image in the store *)
Lemma render_galaxy_field (self : Engine) galaxy no_partials w res w' :
  engine_in self w ->
  render_galaxy self galaxy no_partials w = (Ok res, w') ->
  bright self galaxy /\
  count_true (keep_mask self galaxy w) <> 0 /\
  area (survey_overlap self galaxy w) <> 0%Z /\
  image_at (heap w') (image (survey self)) = accumulated self galaxy w.
Proof.
  intros Hin Hrun.
  destruct (render_galaxy_ok _ _ _ _ _ _ Hin Hrun) as (Hb & Hk & Ho).
  repeat (split; [done|]).
  destruct (render_galaxy_succeeds self galaxy no_partials w Hin Hb Hk Ho)
    as (cube & r & w1 & Hrun1 & _ & Him & _).
  rewrite Hrun1 in Hrun. injection Hrun as <- <-.
  unfold image_at. by rewrite Him.
Qed.

(* what a render computes of a galaxy is the same after another render *)
Lemma stages_after (self : Engine) before no_partials' galaxy w res0 w0 :
  engine_in self w ->
  render_galaxy self before no_partials' w = (res0, w0) ->
  keep_mask self galaxy w0 = keep_mask self galaxy w /\
  survey_overlap self galaxy w0 = survey_overlap self galaxy w /\
  forall row col,
    contribution self galaxy w0 row col = contribution self galaxy w row col.
Proof.
  intros Hin Hbefore.
  destruct (render_keeps_geometry _ _ _ _ _ _ Hin Hbefore)
    as (Hin0 & Hgeo & Hfb & _).
  pose proof (rendered_eq self galaxy w0 w Hgeo) as Hr.
  destruct (stages_eq self galaxy w0 w Hr) as (Hk & Ht & Hcb & Hcs & Hca).
  assert (Hov : survey_overlap self galaxy w0 = survey_overlap self galaxy w)
    by (unfold survey_overlap; by rewrite Hcb, Hfb).
  split; [done|]. split; [done|].
  intros row col. unfold contribution. by rewrite Hov, Hfb, Ht.
Qed.

(** X25. Two renders add to the image of the survey one after the
    other, and their order shows only in the order of the two additions:
    if the render of one galaxy and then of another both return, so do
    the two renders in the other order, and where a pixel of the image was
    v, with a and b what the first and the second galaxy add to it (or
    nothing, off their overlaps), it is (v + a) + b after the renders in
    the one order and (v + b) + a after the renders in the other.  The
    contributions are those that each galaxy makes when it is rendered
    alone. *)
Theorem two_renders_add_in_their_order (self : Engine) first no_partials
    second no_partials' w res1 w1 res2 w12 :
  engine_ok self w ->
  render_galaxy self first no_partials w = (Ok res1, w1) ->
  render_galaxy self second no_partials' w1 = (Ok res2, w12) ->
  exists res2' w2 res1' w21,
    render_galaxy self second no_partials' w = (Ok res2', w2) /\
    render_galaxy self first no_partials w2 = (Ok res1', w21) /\
    forall row col v,
      get2d (array (image_at (heap w) (image (survey self)))) row col
        = Some v ->
      let a := contribution self first w row col in
      let b := contribution self second w row col in
      get2d (array (image_at (heap w12) (image (survey self)))) row col
        = Some (credited (credited v a) b) /\
      get2d (array (image_at (heap w21) (image (survey self)))) row col
        = Some (credited (credited v b) a).
Proof.
  intros Hok Hrun1 Hrun2. pose proof Hok as (Hin & _).
  (* the first render, and the second after it *)
  destruct (render_galaxy_field _ _ _ _ _ _ Hin Hrun1)
    as (Hb1 & Hk1 & Ho1 & Hf1).
  pose proof (engine_ok_after _ _ _ _ _ _ Hok Hrun1) as Hok1.
  pose proof Hok1 as (Hin1 & _).
  destruct (render_galaxy_field _ _ _ _ _ _ Hin1 Hrun2)
    as (Hb2 & Hk2' & Ho2' & Hf12).
  destruct (stages_after self first no_partials second w _ _ Hin Hrun1)
    as (Hk21 & Ho21 & Hc21).
  pose proof Hk2' as Hk2. pose proof Ho2' as Ho2.
  rewrite Hk21 in Hk2. rewrite Ho21 in Ho2.
  (* the other order *)
  destruct (render_galaxy_succeeds self second no_partials' w Hin Hb2 Hk2 Ho2)
    as (cube2 & r2 & w2 & Hrun2' & _ & Him2 & _).
  pose proof (engine_ok_after _ _ _ _ _ _ Hok Hrun2') as Hok2.
  pose proof Hok2 as (Hin2 & _).
  destruct (stages_after self second no_partials' first w _ _ Hin Hrun2')
    as (Hk12 & Ho12 & Hc12).
  pose proof Hk1 as Hk1'. pose proof Ho1 as Ho1'.
  rewrite <- Hk12 in Hk1'. rewrite <- Ho12 in Ho1'.
  destruct (render_galaxy_succeeds self first no_partials w2 Hin2 Hb1 Hk1' Ho1')
    as (cube1 & r1 & w21 & Hrun1' & _ & Him21 & _).
  exists (cube2, cropped_bounds self second w, r2), w2,
         (cube1, cropped_bounds self first w2, r1), w21.
  split; [exact Hrun2'|]. split; [exact Hrun1'|].
  intros row col v Hv a b. unfold a, b. clear a b.
  assert (Hf2 : image_at (heap w2) (image (survey self))
                = accumulated self second w)
    by (unfold image_at; by rewrite Him2).
  assert (Hf21 : image_at (heap w21) (image (survey self))
                 = accumulated self first w2)
    by (unfold image_at; by rewrite Him21).
  split.
  - rewrite Hf12, <- Hc21.
    apply accumulated_pixel; [done|done|done|].
    rewrite Hf1. by apply accumulated_pixel.
  - rewrite Hf21, <- Hc12.
    apply accumulated_pixel; [done|done|done|].
    rewrite Hf2. by apply accumulated_pixel.
Qed.

(** *** Engine.from_args *)

Lemma filtered_dict_lookup (args : gmap string (value F)) k :
  filtered_dict args !! k = if decide (k ∈ pnames) then args !! k else None.
Proof.
  unfold filtered_dict. destruct (decide (k ∈ pnames)) as [Hk|Hk].
  - destruct (args !! k) as [v|] eqn:Hv.
    + by apply map_lookup_filter_Some.
    + apply map_lookup_filter_None. by left.
  - apply map_lookup_filter_None. right. intros v _. exact Hk.
Qed.

Lemma filtered_dict_known (args : gmap string (value F)) :
  map_Forall (fun k _ => k ∈ pnames) (filtered_dict args).
Proof.
  intros k v Hk. rewrite filtered_dict_lookup in Hk.
  by destruct (decide (k ∈ pnames)).
Qed.

Lemma from_args_eq (sv : Survey) (args : gmap string (value F)) :
  from_args sv args =
    if bool_decide (is_Some (args !! "survey"%string)) then raise TypeError
    else
      match args !! "min_snr"%string, args !! "truncate_radius"%string,
            args !! "no_margin"%string, args !! "verbose_render"%string with
      | Some min_snr, Some truncate_radius, Some no_margin,
        Some verbose_render =>
          Engine_new sv min_snr truncate_radius no_margin verbose_render
      | _, _, _, _ => raise TypeError
      end.
Proof.
  unfold from_args, Engine_call.
  rewrite (bool_decide_eq_true_2 _ (filtered_dict_known args)). cbn [negb].
  rewrite !filtered_dict_lookup.
  repeat (destruct (decide _) as [_|Hn];
          [|exfalso; apply Hn; unfold pnames;
            rewrite !elem_of_cons; tauto]).
  reflexivity.
Qed.

(** X16. from_args reads the five names of the constructor in the
    dictionary of arguments and nothing else: two dictionaries that agree
    on survey, min_snr, truncate_radius, no_margin and verbose_render
    give the same engine, or the same error, whatever else they hold. *)
Theorem from_args_ignores_other_arguments (sv : Survey)
    (args1 args2 : gmap string (value F)) :
  (forall k, k ∈ pnames -> args1 !! k = args2 !! k) ->
  from_args sv args1 = from_args sv args2.
Proof.
  intros Hsame. rewrite !from_args_eq.
  rewrite !(Hsame _) by (unfold pnames; rewrite !elem_of_cons; tauto).
  reflexivity.
Qed.

(** X17. from_args raises TypeError, and does nothing else, when the
    dictionary of arguments lacks one of min_snr, truncate_radius,
    no_margin and verbose_render, which the constructor gives no default,
    and also when it holds an entry named survey: the survey is passed by
    position, and the entry would give it a second value. *)
Theorem from_args_raises_on_a_missing_or_doubled_argument (sv : Survey)
    (args : gmap string (value F)) w :
  is_Some (args !! "survey"%string) \/
  args !! "min_snr"%string = None \/
  args !! "truncate_radius"%string = None \/
  args !! "no_margin"%string = None \/
  args !! "verbose_render"%string = None ->
  from_args sv args w = (Raise TypeError, w).
Proof.
  intros Hbad. rewrite from_args_eq.
  destruct (bool_decide (is_Some (args !! "survey"%string))) eqn:Hs;
    [reflexivity|].
  apply bool_decide_eq_false in Hs.
  destruct Hbad as [H|[H|[H|[H|H]]]]; [done|..]; rewrite H;
    repeat (destruct (args !! _)); reflexivity.
Qed.

(** X18. With a float for min_snr and for truncate_radius, a bool for
    no_margin and for verbose_render and no entry named survey, from_args
    is the constructor called with these four values and the survey,
    whatever other entries the dictionary holds. *)
Theorem from_args_calls_the_constructor (sv : Survey)
    (args : gmap string (value F)) min_snr truncate_radius no_margin verbose :
  args !! "survey"%string = None ->
  args !! "min_snr"%string = Some (Num min_snr) ->
  args !! "truncate_radius"%string = Some (Num truncate_radius) ->
  args !! "no_margin"%string = Some (Flag no_margin) ->
  args !! "verbose_render"%string = Some (Flag verbose) ->
  from_args sv args = Engine_init sv min_snr truncate_radius no_margin verbose.
Proof.
  intros Hs H1 H2 H3 H4. rewrite from_args_eq, Hs, H1, H2, H3, H4.
  rewrite bool_decide_eq_false_2 by (by intros [? ?]).
  reflexivity.
Qed.

End Further.

(** ** The properties at work on the instance *)

Lemma run_ok {A} (m : result A * World (F := Q)) (d : A) :
  (if fst m is Ok _ then true else false) = true ->
  m = (Ok (the (fst m) d), snd m).
Proof. destruct m as [[a|e] w]; [reflexivity|discriminate]. Qed.

Lemma Q_mul_one (v : Q) : mul one v = v.
Proof.
  destruct v as [n d]. cbn. unfold Qmult. cbn.
  by destruct n.
Qed.

Lemma demo_renderer_lives : lives_in demo_renderer demo_rendered.
Proof. vm_compute. lia. Qed.

Lemma demo_new_eq : demo_new = (Ok demo_fresh, demo_fresh_world).
Proof. apply run_ok. vm_compute. reflexivity. Qed.

Lemma draw_returns_scaled_copy_witness :
  lives_in demo_renderer demo_rendered /\
  (exists out self' w',
     draw demo_renderer (1 # 2)%Q demo_shift demo_rendered
       = (Ok (out, self'), w') /\
     self' = set_last_parameters demo_renderer demo_shift /\
     cached self' w' =
       masked (gr_mask demo_renderer)
         (redrawn (transformed demo_renderer demo_shift)
                  (cached demo_renderer demo_rendered)) /\
     forall j i,
       get2d (array (image_at (heap w') out)) j i =
         (fun v => mul (add one (1 # 2)%Q) v)
           <$> get2d (array (cached self' w')) j i) /\
  forall twice self1 w1 once self2 w2,
    draw demo_renderer one demo_shift demo_rendered = (Ok (twice, self1), w1) ->
    draw self1 zero demo_shift w1 = (Ok (once, self2), w2) ->
    array (image_at (heap w2) twice) =
      map2d (fun v => mul (lit 2) v) (array (image_at (heap w2) once)) /\
    same_shape (array (image_at (heap w2) once))
               (array (cached demo_renderer demo_rendered)).
Proof.
  split; [exact demo_renderer_lives|].
  assert (Hmiss : params_eqb demo_shift (last_parameters demo_renderer) = false)
    by (vm_compute; reflexivity).
  split.
  - destruct (proj1 (draw_returns_scaled_copy demo_renderer (1 # 2)%Q
                       demo_shift demo_rendered demo_renderer_lives))
      as (out & self' & w' & Hd & _ & _ & _ & _ & _ & _ & _ & Hpix & _ & _ & Hm).
    destruct (Hm Hmiss) as (Hs & _ & _ & Hc & _).
    exists out, self', w'. by repeat split.
  - intros twice self1 w1 once self2 w2 H1 H2.
    assert (H11 : add one one = (lit 2 : Q)) by reflexivity.
    assert (H10 : add one zero = (one : Q)) by reflexivity.
    assert (Hpp : params_eqb demo_shift demo_shift = true) by reflexivity.
    destruct (proj2 (draw_returns_scaled_copy demo_renderer zero demo_shift
                       demo_rendered demo_renderer_lives)
                H11 H10 Q_mul_one Hpp twice self1 w1 once self2 w2 H1 H2)
      as (Hd & _ & Hs & _).
    by split.
Defined.

Lemma second_draw_is_a_cache_hit_witness :
  exists out1 self1 w1 out2 w2 made,
    draw demo_renderer zero demo_shift demo_rendered = (Ok (out1, self1), w1) /\
    draw self1 one demo_shift w1 = (Ok (out2, self1), w2) /\
    trace w2 = trace w1 /\
    cached self1 w2 = cached self1 w1 /\
    trace w1 = trace demo_rendered ++ made /\
    primitives_run 1 made.
Proof.
  exact (second_draw_is_a_cache_hit demo_renderer zero one demo_shift
           demo_rendered demo_renderer_lives eq_refl).
Defined.

Lemma two_draws_of_zeros_run_nothing :
  ~ once_in_two_draws demo_renderer zero zero zero_parameters demo_rendered.
Proof.
  intros Hclaim.
  assert (Hhit : params_eqb zero_parameters (last_parameters demo_renderer) = true)
    by (vm_compute; reflexivity).
  destruct (Hclaim _ _ _ _ _ _ (draw_hit _ _ _ _ Hhit) (draw_hit _ _ _ _ Hhit))
    as (made & Htrace & Hrun & _).
  cbn [trace] in Htrace.
  rewrite <- (app_nil_r (trace demo_rendered)) in Htrace at 1.
  apply app_inv_head in Htrace. subst made. discriminate Hrun.
Qed.


Lemma mask_is_fixed_and_respected_witness :
  eqb (zero : Q) zero = true /\
  demo_masked_new = (Ok demo_masked, demo_masked_world) /\
  get2d (gr_mask demo_masked) 0 0 = Some true /\
  get2d (gr_mask demo_masked) 5 5 = Some false /\
  gr_mask (snd (the (fst demo_masked_drawn) (0, demo_renderer)))
    = gr_mask demo_masked /\
  masked_out (snd (the (fst demo_masked_drawn) (0, demo_renderer)))
             (snd demo_masked_drawn) /\
  get2d (array (cached (snd (the (fst demo_masked_drawn) (0, demo_renderer)))
                       (snd demo_masked_drawn))) 0 0 = Some zero.
Proof.
  assert (Hnew : demo_masked_new = (Ok demo_masked, demo_masked_world))
    by (apply run_ok; vm_compute; reflexivity).
  split; [reflexivity|]. split; [exact Hnew|].
  assert (H00 : get2d (gr_mask demo_masked) 0 0 = Some true)
    by (vm_compute; reflexivity).
  split; [exact H00|].
  split; [vm_compute; reflexivity|].
  destruct (mask_is_fixed_and_respected (AF := ArithQ) (OF := OpticsBlob) eq_refl)
    as (Hinit & _ & Hdraw).
  destruct (Hinit _ _ _ _ _ _ Hnew) as (_ & _ & _ & Hlives & _ & Hout).
  assert (Hrun : draw demo_masked zero demo_shift demo_masked_world =
                 (Ok (fst (the (fst demo_masked_drawn) (0, demo_renderer)),
                      snd (the (fst demo_masked_drawn) (0, demo_renderer))),
                  snd demo_masked_drawn)).
  { rewrite <- surjective_pairing. apply run_ok. vm_compute. reflexivity. }
  destruct (Hdraw demo_masked zero demo_shift demo_masked_world _ _ _
              Hlives Hout Hrun) as (Hmask & _ & Hafter & Hzero).
  split; [exact Hmask|]. split; [exact Hafter|].
  apply Hzero; [vm_compute; reflexivity|exact H00].
Defined.

Lemma Q_mul_one_r (v : Q) : mul v one = v.
Proof.
  destruct v as [n d]. cbn. unfold Qmult. cbn.
  by rewrite Z.mul_1_r, Pos.mul_1_r.
Qed.

Lemma demo_init_eq : demo_init false = (Ok demo_engine, demo_start).
Proof.
  apply (run_ok (demo_init false) demo_engine_default).
  vm_compute. reflexivity.
Qed.

Lemma demo_engine_ok : engine_ok demo_engine demo_start.
Proof.
  apply (Engine_init_ok _ _ _ _ _ _ _ _ demo_init_eq). vm_compute. lia.
Qed.

Lemma demo_engine_in : engine_in demo_engine demo_start.
Proof. exact (proj1 demo_engine_ok). Qed.

Lemma demo_is_bright : bright demo_engine demo_bright.
Proof. vm_compute. reflexivity. Qed.

(* the bright galaxy is rendered, with or without partial derivatives *)
Lemma demo_render_bright no_partials :
  render_galaxy demo_engine demo_bright no_partials demo_start =
    (Ok (the (fst (render_galaxy demo_engine demo_bright no_partials
                     demo_start))
             ([], undefinedBounds, demo_renderer_default)),
     snd (render_galaxy demo_engine demo_bright no_partials demo_start)).
Proof. apply run_ok. destruct no_partials; vm_compute; reflexivity. Qed.

Lemma datacube_layers_witness :
  engine_in demo_engine demo_start /\
  exists cube cb r w',
    render_galaxy demo_engine demo_bright false demo_start
      = (Ok (cube, cb, r), w') /\
    length cube = 6 /\
    cube !! 0 = Some (cropped_array demo_engine demo_bright demo_start).
Proof.
  split; [exact demo_engine_in|].
  pose proof (demo_render_bright false) as Hrun.
  destruct (the (fst (render_galaxy demo_engine demo_bright false demo_start))
                ([], undefinedBounds, demo_renderer_default))
    as [[cube cb] r].
  exists cube, cb, r,
    (snd (render_galaxy demo_engine demo_bright false demo_start)).
  split; [exact Hrun|].
  destruct (datacube_layers demo_engine demo_bright false demo_start
              cube cb r _ demo_engine_in Hrun) as (Hlen & H0 & _).
  exact (conj Hlen H0).
Defined.

Lemma faint_galaxy_is_skipped_witness :
  demo_init false = (Ok demo_engine, demo_start) /\
  ltb (mul (getFlux (model demo_faint)) (psf_dilution demo_engine))
      (mul (1 # 20)%Q (sqrt (mean_sky_level demo_survey))) = true /\
  render_galaxy demo_engine demo_faint false demo_start =
    (Raise SourceNotVisible,
     {| heap := heap demo_start;
        trace := trace demo_start ++ [CallGetFlux (model demo_faint)] |}).
Proof.
  assert (Hfaint :
    ltb (mul (getFlux (model demo_faint)) (psf_dilution demo_engine))
        (mul (1 # 20)%Q (sqrt (mean_sky_level demo_survey))) = true)
    by (vm_compute; reflexivity).
  split; [exact demo_init_eq|]. split; [exact Hfaint|].
  exact (proj2 (faint_galaxy_is_skipped demo_survey (1 # 20)%Q (3 # 5)%Q
           false false demo_world demo_engine demo_start demo_faint false
           demo_start demo_init_eq Hfaint)).
Defined.

Lemma threshold_and_truncate_witness :
  engine_ok demo_engine demo_start /\ bright demo_engine demo_bright /\
  forall j i v,
    get2d (array (rendered demo_engine demo_bright demo_start)) j i = Some v ->
    exists m, get2d (truncation_mask demo_engine) j i = Some m /\
              get2d (keep_mask demo_engine demo_bright demo_start) j i
              = Some (gtb (mul v (of_bool m)) (pixel_cut demo_engine)).
Proof.
  split; [exact demo_engine_ok|]. split; [exact demo_is_bright|].
  exact (proj1 (threshold_and_truncate demo_engine demo_bright false
                  demo_start demo_engine_ok demo_is_bright)).
Defined.

Lemma cropped_bounds_are_tight_witness :
  engine_ok demo_engine demo_start /\
  exists cube cb r w',
    render_galaxy demo_engine demo_bright false demo_start
      = (Ok (cube, cb, r), w') /\
    cb = mkBoundsI 2 8 2 8 /\
    cb = cropped_bounds demo_engine demo_bright demo_start /\
    exists j, get2d (keep_mask demo_engine demo_bright demo_start) j
                (Z.to_nat (xmin cb - xmin (bounding_box demo_engine demo_bright)))
              = Some true.
Proof.
  split; [exact demo_engine_ok|].
  pose proof (demo_render_bright false) as Hrun.
  assert (Hcb :
    (the (fst (render_galaxy demo_engine demo_bright false demo_start))
         ([], undefinedBounds, demo_renderer_default)).1.2
    = mkBoundsI 2 8 2 8) by (vm_compute; reflexivity).
  destruct (the (fst (render_galaxy demo_engine demo_bright false demo_start))
                ([], undefinedBounds, demo_renderer_default))
    as [[cube cb] r].
  exists cube, cb, r,
    (snd (render_galaxy demo_engine demo_bright false demo_start)).
  split; [exact Hrun|]. split; [exact Hcb|].
  destruct (cropped_bounds_are_tight demo_engine demo_bright false demo_start
              cube cb r _ demo_engine_ok Hrun)
    as (Heq & _ & _ & _ & _ & _ & Hx1 & _).
  exact (conj Heq Hx1).
Defined.

Lemma accumulate_the_overlap_witness :
  engine_ok demo_engine demo_start /\
  forall cube cb r w',
    render_galaxy demo_engine demo_bright false demo_start
      = (Ok (cube, cb, r), w') ->
    cb = cropped_bounds demo_engine demo_bright demo_start /\
    area (bounds_and cb
            (bounds (image_at (heap demo_start) (image (survey demo_engine)))))
    <> 0%Z.
Proof.
  split; [exact demo_engine_ok|].
  exact (proj2 (proj2 (accumulate_the_overlap demo_engine demo_bright false
                         demo_start demo_engine_ok))).
Defined.



Lemma Q_add_comm (a b : Q) : add a b = add b a.
Proof.
  destruct a as [an ad], b as [bn bd]. cbn. unfold Qplus. cbn.
  f_equal; [lia|]. apply Pos.mul_comm.
Qed.

Lemma demo_changing :
  changing (div (pixel_scale (survey demo_engine)) (lit 3)) /\
  changing (lit (5 # 100) : Q) /\ changing (lit (3 # 100) : Q).
Proof. repeat split; vm_compute; reflexivity. Qed.


Lemma verbose_render_only_prints_witness :
  engine_in demo_engine demo_start /\
  fst (render_galaxy (with_verbose true demo_engine) demo_bright true
         demo_start)
  = fst (render_galaxy (with_verbose false demo_engine) demo_bright true
           demo_start).
Proof.
  split; [exact demo_engine_in|].
  exact (proj1 (verbose_render_only_prints demo_engine demo_bright true
                  demo_start demo_engine_in)).
Defined.

Lemma render_keeps_the_engine_ok_witness :
  engine_ok demo_engine demo_start /\
  engine_ok demo_engine
    (snd (render_galaxy demo_engine demo_bright false demo_start)).
Proof.
  split; [exact demo_engine_ok|].
  exact (proj1 (render_keeps_the_engine_ok demo_engine demo_bright false
                  demo_start _ _ demo_engine_ok
                  (surjective_pairing
                     (render_galaxy demo_engine demo_bright false
                        demo_start)))).
Defined.

Lemma render_returns_a_renderer_of_its_own_witness :
  engine_in demo_engine demo_start /\
  exists cube cb r w',
    render_galaxy demo_engine demo_bright false demo_start
      = (Ok (cube, cb, r), w') /\
    gr_stamp r = length (heap demo_start) /\ lives_in r w'.
Proof.
  split; [exact demo_engine_in|].
  pose proof (demo_render_bright false) as Hrun.
  destruct (the (fst (render_galaxy demo_engine demo_bright false demo_start))
                ([], undefinedBounds, demo_renderer_default))
    as [[cube cb] r].
  exists cube, cb, r,
    (snd (render_galaxy demo_engine demo_bright false demo_start)).
  split; [exact Hrun|].
  destruct (render_returns_a_renderer_of_its_own demo_engine demo_bright false
              demo_start cube cb r _ demo_engine_in Hrun) as (H1 & H2 & _).
  exact (conj H1 H2).
Defined.

Lemma renderers_outlive_later_renders_witness :
  engine_in demo_engine demo_start /\
  exists cube cb r w1,
    render_galaxy demo_engine demo_bright true demo_start
      = (Ok (cube, cb, r), w1) /\
    cached r (snd (render_galaxy demo_engine demo_far false w1)) = cached r w1.
Proof.
  split; [exact demo_engine_in|].
  pose proof (demo_render_bright true) as Hrun.
  destruct (the (fst (render_galaxy demo_engine demo_bright true demo_start))
                ([], undefinedBounds, demo_renderer_default))
    as [[cube cb] r].
  exists cube, cb, r,
    (snd (render_galaxy demo_engine demo_bright true demo_start)).
  split; [exact Hrun|].
  exact (proj2 (renderers_outlive_later_renders demo_engine demo_bright true
                  demo_start cube cb r _ demo_far false _ _
                  demo_engine_in Hrun
                  (surjective_pairing
                     (render_galaxy demo_engine demo_far false
                        (snd (render_galaxy demo_engine demo_bright true
                                demo_start)))))).
Defined.

Lemma render_forgets_the_past_witness :
  engine_in demo_engine demo_start /\
  forall cube cb r w1,
    render_galaxy demo_engine demo_bright false demo_start
      = (Ok (cube, cb, r), w1) ->
    exists w2,
      render_galaxy demo_engine demo_bright false
        (snd (render_galaxy demo_engine demo_far false demo_start))
      = (Ok (cube, cb,
             restamped
               (length (heap (snd (render_galaxy demo_engine demo_far false
                                     demo_start)))) r), w2).
Proof.
  split; [exact demo_engine_in|].
  exact (proj1 (render_forgets_the_past demo_engine demo_far false demo_bright
                  false demo_start _ _ demo_engine_in
                  (surjective_pairing
                     (render_galaxy demo_engine demo_far false demo_start)))).
Defined.

Lemma datacube_has_the_shape_of_the_bounds_witness :
  engine_ok demo_engine demo_start /\
  exists cube cb r w',
    render_galaxy demo_engine demo_bright false demo_start
      = (Ok (cube, cb, r), w') /\
    Forall (has_shape (Z.to_nat (ymax cb - ymin cb + 1))
                      (Z.to_nat (xmax cb - xmin cb + 1))) cube.
Proof.
  split; [exact demo_engine_ok|].
  pose proof (demo_render_bright false) as Hrun.
  destruct (the (fst (render_galaxy demo_engine demo_bright false demo_start))
                ([], undefinedBounds, demo_renderer_default))
    as [[cube cb] r].
  exists cube, cb, r,
    (snd (render_galaxy demo_engine demo_bright false demo_start)).
  split; [exact Hrun|].
  exact (proj1 (datacube_has_the_shape_of_the_bounds demo_engine demo_bright
                  false demo_start cube cb r _ demo_engine_ok Hrun)).
Defined.

Lemma render_without_partials_keeps_the_nominal_cache_witness :
  engine_in demo_engine demo_start /\
  exists cube cb r w',
    render_galaxy demo_engine demo_bright true demo_start
      = (Ok (cube, cb, r), w') /\
    cube = [cropped_array demo_engine demo_bright demo_start] /\
    last_parameters r = zero_parameters.
Proof.
  split; [exact demo_engine_in|].
  pose proof (demo_render_bright true) as Hrun.
  destruct (the (fst (render_galaxy demo_engine demo_bright true demo_start))
                ([], undefinedBounds, demo_renderer_default))
    as [[cube cb] r].
  exists cube, cb, r,
    (snd (render_galaxy demo_engine demo_bright true demo_start)).
  split; [exact Hrun|].
  destruct (render_without_partials_keeps_the_nominal_cache demo_engine
              demo_bright demo_start cube cb r _ demo_engine_in Hrun)
    as (H1 & H2 & _).
  exact (conj H1 H2).
Defined.

Lemma render_with_partials_draws_eleven_times_witness :
  engine_in demo_engine demo_start /\
  changing (div (pixel_scale (survey demo_engine)) (lit 3)) /\
  changing (lit (5 # 100) : Q) /\ changing (lit (3 # 100) : Q) /\
  exists cube cb r w',
    render_galaxy demo_engine demo_bright false demo_start
      = (Ok (cube, cb, r), w') /\
    last_parameters r = only 4 (neg (lit (3 # 100))).
Proof.
  split; [exact demo_engine_in|].
  destruct demo_changing as (Ha & Hb & Hc).
  split; [exact Ha|]. split; [exact Hb|]. split; [exact Hc|].
  pose proof (demo_render_bright false) as Hrun.
  destruct (the (fst (render_galaxy demo_engine demo_bright false demo_start))
                ([], undefinedBounds, demo_renderer_default))
    as [[cube cb] r].
  exists cube, cb, r,
    (snd (render_galaxy demo_engine demo_bright false demo_start)).
  split; [exact Hrun|].
  exact (proj2 (render_with_partials_draws_eleven_times demo_engine demo_bright
                  demo_start cube cb r _ demo_engine_in Ha Hb Hc Hrun)).
Defined.


Lemma cache_holds_one_parameter_set_witness :
  lives_in demo_renderer demo_rendered /\
  params_eqb demo_shift (last_parameters demo_renderer) = false /\
  params_eqb (zero_parameters : Params Q) demo_shift = false /\
  params_eqb demo_shift (zero_parameters : Params Q) = false /\
  exists out1 self1 w1 out2 self2 w2 out3 self3 w3 made,
    draw demo_renderer zero demo_shift demo_rendered = (Ok (out1, self1), w1) /\
    draw self1 zero zero_parameters w1 = (Ok (out2, self2), w2) /\
    draw self2 zero demo_shift w2 = (Ok (out3, self3), w3) /\
    trace w3 = trace demo_rendered ++ made /\
    primitives_run 3 made /\
    last_parameters self3 = demo_shift.
Proof.
  assert (H1 : params_eqb demo_shift (last_parameters demo_renderer) = false)
    by (vm_compute; reflexivity).
  assert (H2 : params_eqb (zero_parameters : Params Q) demo_shift = false)
    by (vm_compute; reflexivity).
  assert (H3 : params_eqb demo_shift (zero_parameters : Params Q) = false)
    by (vm_compute; reflexivity).
  split; [exact demo_renderer_lives|].
  split; [exact H1|]. split; [exact H2|]. split; [exact H3|].
  exact (cache_holds_one_parameter_set demo_renderer zero zero zero demo_shift
           zero_parameters demo_rendered demo_renderer_lives H1 H2 H3).
Defined.

Lemma renderer_copies_the_stamp_it_is_given_witness :
  v_image demo_view < length (heap demo_world) /\
  demo_new = (Ok demo_fresh, demo_fresh_world) /\
  gr_stamp demo_fresh <> v_image demo_view /\
  array (cached demo_fresh demo_fresh_world)
  = seen demo_view (image_at (heap demo_world) (v_image demo_view)).
Proof.
  assert (Hlt : v_image demo_view < length (heap demo_world))
    by (vm_compute; lia).
  pose proof demo_new_eq as Hnew.
  split; [exact Hlt|]. split; [exact Hnew|].
  destruct (renderer_copies_the_stamp_it_is_given (AF := ArithQ)
              (OF := OpticsBlob) (demo_galaxy 100 0 0) demo_view demo_survey
              demo_world demo_fresh demo_fresh_world Hlt Hnew)
    as (H1 & H2 & _).
  exact (conj H1 H2).
Defined.

Lemma constructor_makes_a_square_stamp_witness :
  demo_init false = (Ok demo_engine, demo_start) /\
  padding demo_engine = 3%Z /\
  length (heap demo_start) = 2 + length (heap demo_world) /\
  has_shape (Z.to_nat (2 * padding demo_engine + 1))
            (Z.to_nat (2 * padding demo_engine + 1))
            (truncation_mask demo_engine).
Proof.
  split; [exact demo_init_eq|].
  split; [vm_compute; reflexivity|].
  destruct (constructor_makes_a_square_stamp (AF := ArithQ) (OF := OpticsBlob)
              demo_survey (1 # 20)%Q (3 # 5)%Q false false demo_world
              demo_engine demo_start demo_init_eq)
    as (_ & _ & H1 & _ & _ & _ & H2 & _).
  exact (conj H1 H2).
Defined.

Lemma truncation_mask_is_symmetric_witness :
  demo_init false = (Ok demo_engine, demo_start) /\
  (forall a b : Q, add a b = add b a) /\
  get2d (truncation_mask demo_engine) 1 4
  = get2d (truncation_mask demo_engine) 4 1.
Proof.
  split; [exact demo_init_eq|]. split; [exact Q_add_comm|].
  exact (truncation_mask_is_symmetric (AF := ArithQ) (OF := OpticsBlob)
           demo_survey (1 # 20)%Q (3 # 5)%Q false false demo_world
           demo_engine demo_start 1 4 demo_init_eq Q_add_comm).
Defined.

Lemma truncation_needs_a_threshold_that_is_not_negative_witness :
  engine_ok demo_engine demo_start /\
  exists v,
    get2d (array (rendered demo_engine demo_bright demo_start)) 0 0 = Some v /\
    get2d (truncation_mask demo_engine) 0 0 = Some false /\
    ltb (pixel_cut demo_engine) (mul v zero)
    = ltb (pixel_cut demo_engine) zero /\
    get2d (keep_mask demo_engine demo_bright demo_start) 0 0
    = Some (ltb (pixel_cut demo_engine) zero).
Proof.
  split; [exact demo_engine_ok|].
  assert (Hv : exists v,
    get2d (array (rendered demo_engine demo_bright demo_start)) 0 0 = Some v /\
    ltb (pixel_cut demo_engine) (mul v zero)
    = ltb (pixel_cut demo_engine) zero).
  { eexists. split; vm_compute; reflexivity. }
  destruct Hv as (v & Hv & Hlaw).
  assert (Hm : get2d (truncation_mask demo_engine) 0 0 = Some false)
    by (vm_compute; reflexivity).
  exists v. split; [exact Hv|]. split; [exact Hm|]. split; [exact Hlaw|].
  exact (proj1 (truncation_needs_a_threshold_that_is_not_negative demo_engine
                  demo_bright demo_start 0 0 v demo_engine_ok Hv Hm Hlaw)).
Defined.

Lemma from_args_ignores_other_arguments_witness :
  (forall k, k ∈ pnames ->
             demo_args !! k
             = (<["seed"%string := Other true]> demo_args) !! k) /\
  from_args demo_survey demo_args
  = from_args demo_survey (<["seed"%string := Other true]> demo_args).
Proof.
  assert (Hsame : forall k, k ∈ pnames ->
            demo_args !! k
            = (<["seed"%string := Other true]> demo_args) !! k).
  { intros k Hk. rewrite lookup_insert_ne; [reflexivity|].
    intros <-. unfold pnames in Hk. rewrite !elem_of_cons in Hk.
    rewrite elem_of_nil in Hk.
    destruct Hk as [H|[H|[H|[H|[H|[]]]]]]; discriminate H. }
  split; [exact Hsame|].
  exact (from_args_ignores_other_arguments demo_survey demo_args _ Hsame).
Defined.

Lemma from_args_raises_on_a_missing_or_doubled_argument_witness :
  is_Some ((<["survey"%string := Other true]> demo_args) !! "survey"%string) /\
  from_args demo_survey (<["survey"%string := Other true]> demo_args) demo_world
  = (Raise TypeError, demo_world).
Proof.
  assert (Hs : is_Some ((<["survey"%string := Other true]> demo_args)
                          !! "survey"%string)).
  { rewrite lookup_insert_eq. by eexists. }
  split; [exact Hs|].
  exact (from_args_raises_on_a_missing_or_doubled_argument demo_survey _
           demo_world (or_introl Hs)).
Defined.

Lemma from_args_calls_the_constructor_witness :
  demo_args !! "survey"%string = None /\
  demo_args !! "min_snr"%string = Some (Num (1 # 20)%Q) /\
  demo_args !! "truncate_radius"%string = Some (Num (3 # 5)%Q) /\
  demo_args !! "no_margin"%string = Some (Flag false) /\
  demo_args !! "verbose_render"%string = Some (Flag false) /\
  from_args demo_survey demo_args demo_world = demo_init false.
Proof.
  assert (H0 : demo_args !! "survey"%string = None) by reflexivity.
  assert (H1 : demo_args !! "min_snr"%string = Some (Num (1 # 20)%Q))
    by reflexivity.
  assert (H2 : demo_args !! "truncate_radius"%string = Some (Num (3 # 5)%Q))
    by reflexivity.
  assert (H3 : demo_args !! "no_margin"%string = Some (Flag false))
    by reflexivity.
  assert (H4 : demo_args !! "verbose_render"%string = Some (Flag false))
    by reflexivity.
  repeat (split; [assumption|]).
  rewrite (from_args_calls_the_constructor demo_survey demo_args _ _ _ _
             H0 H1 H2 H3 H4).
  reflexivity.
Defined.

Lemma demo_render_near :
  render_galaxy demo_engine demo_near true
    (snd (render_galaxy demo_engine demo_bright true demo_start)) =
    (Ok (the (fst (render_galaxy demo_engine demo_near true
                     (snd (render_galaxy demo_engine demo_bright true
                             demo_start))))
             ([], undefinedBounds, demo_renderer_default)),
     snd (render_galaxy demo_engine demo_near true
            (snd (render_galaxy demo_engine demo_bright true demo_start)))).
Proof. apply run_ok. vm_compute. reflexivity. Qed.

Lemma two_renders_add_in_their_order_witness :
  engine_ok demo_engine demo_start /\
  exists res1 w1 res2 w12 res2' w2 res1' w21,
    render_galaxy demo_engine demo_bright true demo_start = (Ok res1, w1) /\
    render_galaxy demo_engine demo_near true w1 = (Ok res2, w12) /\
    render_galaxy demo_engine demo_near true demo_start = (Ok res2', w2) /\
    render_galaxy demo_engine demo_bright true w2 = (Ok res1', w21).
Proof.
  split; [exact demo_engine_ok|].
  destruct (two_renders_add_in_their_order demo_engine demo_bright true
              demo_near true demo_start _ _ _ _ demo_engine_ok
              (demo_render_bright true) demo_render_near)
    as (res2' & w2 & res1' & w21 & H1 & H2 & _).
  eexists _, _, _, _, res2', w2, res1', w21.
  split; [exact (demo_render_bright true)|].
  split; [exact demo_render_near|].
  exact (conj H1 H2).
Defined.
